(** * avitolog: the field normalizers, the category merge, the listing
    discovery and enrichment, the crawl of the catalog pages, the reading of
    items off a document, and the request spacing of [internal/parser],
    embedded in Rocq.

    Go strings are byte sequences; they are modelled as [string] (a sequence
    of 8-bit [ascii]), so a literal such as ["€"] is its three UTF-8 bytes,
    as in Go.  Maps are [gmap]s.  What the code reads from the outside (the
    clock, the fetched pages, the selections that goquery returns) is an
    explicit argument of the function that reads it. *)

From Stdlib Require Import String Ascii ZArith QArith List Bool Lia.
From stdpp Require Import gmap strings list.

Local Open Scope Z_scope.
Local Open Scope stdpp_scope.

(** ** Part I. The embedding *)

(** *** Package [strings] and [unicode]: the functions the parser calls *)

Definition byte_val (c : ascii) : N := N_of_ascii c.

Definition isDigit (c : ascii) : bool :=
  (N.leb 48 (byte_val c) && N.leb (byte_val c) 57)%N.

(** [strings.HasPrefix(s, prefix)] *)
Fixpoint HasPrefix (s p : string) {struct p} : bool :=
  match p, s with
  | EmptyString, _ => true
  | String _ _, EmptyString => false
  | String a p', String b s' => Ascii.eqb a b && HasPrefix s' p'
  end.

(** [strings.Contains(s, substr)] *)
Fixpoint Contains (s sub : string) : bool :=
  HasPrefix s sub ||
  match s with
  | EmptyString => false
  | String _ s' => Contains s' sub
  end.

(** [strings.Join(elems, sep)] *)
Fixpoint Join (elems : list string) (sep : string) : string :=
  match elems with
  | [] => ""
  | [e] => e
  | e :: rest => e +:+ sep +:+ Join rest sep
  end.

(** [strings.ReplaceAll(s, old, new)] for a one-byte [old], the only way
    the parser calls it. *)
Fixpoint ReplaceAll (s : string) (old : ascii) (new : string) : string :=
  match s with
  | EmptyString => ""
  | String c s' =>
      if Ascii.eqb c old then new +:+ ReplaceAll s' old new
      else String c (ReplaceAll s' old new)
  end.

(** The code points for which [unicode.IsSpace] answers true: the Latin-1
    ones of its switch and the [White_Space] table above U+00FF. *)
Definition White_Space : list N :=
  [0x09; 0x0A; 0x0B; 0x0C; 0x0D; 0x20; 0x85; 0xA0; 0x1680;
   0x2000; 0x2001; 0x2002; 0x2003; 0x2004; 0x2005; 0x2006; 0x2007;
   0x2008; 0x2009; 0x200A; 0x2028; 0x2029; 0x202F; 0x205F; 0x3000]%N.

Definition byte_of (n : N) : ascii := ascii_of_N n.

(** [utf8.AppendRune] on a valid code point. *)
Definition encodeRune (r : N) : string :=
  (if r <? 0x80 then String (byte_of r) ""
   else if r <? 0x800 then
     String (byte_of (N.lor 0xC0 (N.shiftr r 6)))
       (String (byte_of (N.lor 0x80 (N.land r 0x3F))) "")
   else if r <? 0x10000 then
     String (byte_of (N.lor 0xE0 (N.shiftr r 12)))
       (String (byte_of (N.lor 0x80 (N.land (N.shiftr r 6) 0x3F)))
          (String (byte_of (N.lor 0x80 (N.land r 0x3F))) ""))
   else
     String (byte_of (N.lor 0xF0 (N.shiftr r 18)))
       (String (byte_of (N.lor 0x80 (N.land (N.shiftr r 12) 0x3F)))
          (String (byte_of (N.lor 0x80 (N.land (N.shiftr r 6) 0x3F)))
             (String (byte_of (N.lor 0x80 (N.land r 0x3F))) ""))))%N.

(** The UTF-8 forms of the white space code points.  A decoded rune is white
    space exactly when the bytes at its start are one of these: they are
    valid shortest-form encodings, each starts with a byte that is not a
    continuation byte (so Go's decoder, which only ever swallows continuation
    bytes after a lead byte, always starts a rune there), and an invalid byte
    decodes to U+FFFD, which is not white space. *)
Definition spaceEncodings : list string :=
  Eval vm_compute in map encodeRune White_Space.

(** Width in bytes of the first of [pats] that starts [s]; 0 when none does. *)
Definition matchWidth (pats : list string) (s : string) : nat :=
  match find (HasPrefix s) pats with
  | Some p => String.length p
  | None => 0%nat
  end.

(** Width of the white space rune at the start of [s] (0: none). *)
Definition spaceWidth (s : string) : nat := matchWidth spaceEncodings s.

(** [strings.Fields(s)]: the scan of [FieldsFunc(s, unicode.IsSpace)].
    [skip] counts the bytes of the current white space rune still to pass,
    [cur] is the field being read. *)
Definition emit (cur : string) (rest : list string) : list string :=
  match cur with
  | EmptyString => rest
  | _ => cur :: rest
  end.

Fixpoint fieldsGo (skip : nat) (cur : string) (s : string) : list string :=
  match s with
  | EmptyString => emit cur []
  | String c s' =>
      match skip with
      | S k => fieldsGo k cur s'
      | O =>
          match spaceWidth s with
          | S w => emit cur (fieldsGo w "" s')
          | O => fieldsGo 0 (cur +:+ String c "") s'
          end
      end
  end.

Definition Fields (s : string) : list string := fieldsGo 0 "" s.

(** [strings.TrimSpace(s)]: white space runes are dropped from the front,
    then from the back.  The last rune of [s] is white space exactly when one
    of [spaceEncodings] ends [s], which is read off the reversed string. *)
Fixpoint trimGo (pats : list string) (skip : nat) (s : string) : string :=
  match s with
  | EmptyString => ""
  | String _ s' =>
      match skip with
      | S k => trimGo pats k s'
      | O =>
          match matchWidth pats s with
          | S w => trimGo pats w s'
          | O => s
          end
      end
  end.

Definition TrimLeftSpace (s : string) : string := trimGo spaceEncodings 0 s.

Definition spaceEncodingsRev : list string :=
  Eval vm_compute in map String.rev spaceEncodings.

Definition TrimRightSpace (s : string) : string :=
  String.rev (trimGo spaceEncodingsRev 0 (String.rev s)).

Definition TrimSpace (s : string) : string := TrimRightSpace (TrimLeftSpace s).

(** *** [cleanText] (categories.go) *)

Definition cleanText (text : string) : string :=
  let cleaned := ReplaceAll text "010"%char " " in
  let cleaned := Join (Fields cleaned) " " in
  TrimSpace cleaned.

(** *** Package [models] *)

Module Price.
(** [Value] is a [float64] in Go.  The model keeps the exact decimal that
    [strconv.ParseFloat] read, as a reduced fraction; Go stores the
    [float64] nearest to it.  1234.5 and 0 are stored exactly. *)
Record t := mk { Value : Q; Currency : string; Text : string }.
End Price.

Module Category.
#[warnings="-register-all"] Inductive t := mk { Name : string; URL : string; Subcategories : list t }.
End Category.

(** A Go [error] by its message; [None] is [nil]. *)
Definition error : Type := string.

(** *** The predefined category list (the static categories.go) *)

Module Fallback.
(** [GetCategories]: the literal of the source, entry by entry. *)
Definition GetCategories : list Category.t * option error :=
    ([
    Category.mk "Транспорт" "https://www.avito.ru/all/transport"
      [
       Category.mk "Автомобили" "https://www.avito.ru/all/avtomobili" [];
       Category.mk "Мотоциклы и мототехника" "https://www.avito.ru/all/mototsikly_i_mototehnika" [];
       Category.mk "Грузовики и спецтехника" "https://www.avito.ru/all/gruzoviki_i_spetstehnika" [];
       Category.mk "Водный транспорт" "https://www.avito.ru/all/vodnyy_transport" [];
       Category.mk "Запчасти и аксессуары" "https://www.avito.ru/all/zapchasti_i_aksessuary" []
      ];
    Category.mk "Недвижимость" "https://www.avito.ru/all/nedvizhimost"
      [
       Category.mk "Купить жильё" "https://www.avito.ru/all/nedvizhimost/kvartiry/prodam" [];
       Category.mk "Путешествия" "https://www.avito.ru/all/nedvizhimost/kvartiry/posutochno" [];
       Category.mk "Снять долгосрочно" "https://www.avito.ru/all/nedvizhimost/kvartiry/sdam" [];
       Category.mk "Коммерческая недвижимость" "https://www.avito.ru/all/kommercheskaya_nedvizhimost" [];
       Category.mk "Дома, дачи, коттеджи" "https://www.avito.ru/all/doma_dachi_kottedzhi" [];
       Category.mk "Земельные участки" "https://www.avito.ru/all/zemelnye_uchastki" [];
       Category.mk "Гаражи и машиноместа" "https://www.avito.ru/all/garazhi_i_mashinomesta" []
      ];
    Category.mk "Работа" "https://www.avito.ru/all/rabota"
      [
       Category.mk "Вакансии" "https://www.avito.ru/all/vakansii" [];
       Category.mk "Резюме" "https://www.avito.ru/all/rezume" []
      ];
    Category.mk "Услуги" "https://www.avito.ru/all/predlozheniya_uslug"
      [
       Category.mk "Строительство и ремонт" "https://www.avito.ru/all/predlozheniya_uslug/stroitelstvo_remont_montazh" [];
       Category.mk "Перевозки и аренда транспорта" "https://www.avito.ru/all/predlozheniya_uslug/perevozki_i_arenda_transporta" [];
       Category.mk "Красота и здоровье" "https://www.avito.ru/all/predlozheniya_uslug/krasota_zdorove" [];
       Category.mk "Обучение и курсы" "https://www.avito.ru/all/predlozheniya_uslug/obuchenie_kursy" [];
       Category.mk "Установка техники" "https://www.avito.ru/all/predlozheniya_uslug/remont_i_obsluzhivanie_tehniki" [];
       Category.mk "Деловые услуги" "https://www.avito.ru/all/predlozheniya_uslug/delovye_uslugi" [];
       Category.mk "Мастер на час" "https://www.avito.ru/all/predlozheniya_uslug/master_na_chas" [];
       Category.mk "Автосервис" "https://www.avito.ru/all/predlozheniya_uslug/transport_perevozki/avtoservis" [];
       Category.mk "Уборка и помощь по хозяйству" "https://www.avito.ru/all/predlozheniya_uslug/bytovye_uslugi" []
      ];
    Category.mk "Личные вещи" "https://www.avito.ru/all/lichnye_veschi"
      [
       Category.mk "Одежда, обувь, аксессуары" "https://www.avito.ru/all/odezhda_obuv_aksessuary" [];
       Category.mk "Детская одежда и обувь" "https://www.avito.ru/all/detskaya_odezhda_i_obuv" [];
       Category.mk "Товары для детей и игрушки" "https://www.avito.ru/all/tovary_dlya_detey_i_igrushki" [];
       Category.mk "Часы и украшения" "https://www.avito.ru/all/chasy_i_ukrasheniya" [];
       Category.mk "Красота и здоровье" "https://www.avito.ru/all/krasota_i_zdorove" []
      ];
    Category.mk "Для дома и дачи" "https://www.avito.ru/all/dlya_doma_i_dachi"
      [
       Category.mk "Бытовая техника" "https://www.avito.ru/all/bytovaya_tehnika" [];
       Category.mk "Мебель и интерьер" "https://www.avito.ru/all/mebel_i_interer" [];
       Category.mk "Посуда и товары для кухни" "https://www.avito.ru/all/posuda_i_tovary_dlya_kuhni" [];
       Category.mk "Продукты питания" "https://www.avito.ru/all/produkty_pitaniya" [];
       Category.mk "Ремонт и строительство" "https://www.avito.ru/all/remont_i_stroitelstvo" [];
       Category.mk "Растения" "https://www.avito.ru/all/rasteniya" []
      ];
    Category.mk "Запчасти и аксессуары" "https://www.avito.ru/all/zapchasti_i_aksessuary"
      [
       Category.mk "Запчасти" "https://www.avito.ru/all/zapchasti_i_aksessuary/zapchasti" [];
       Category.mk "Шины, диски и колёса" "https://www.avito.ru/all/zapchasti_i_aksessuary/shiny_diski_i_kolesa" [];
       Category.mk "Аксессуары" "https://www.avito.ru/all/zapchasti_i_aksessuary/aksessuary" [];
       Category.mk "Автозвук" "https://www.avito.ru/all/zapchasti_i_aksessuary/avtozvuk" [];
       Category.mk "Инструменты" "https://www.avito.ru/all/zapchasti_i_aksessuary/instrumenty" [];
       Category.mk "Мототехника" "https://www.avito.ru/all/zapchasti_i_aksessuary/mototsikly_mopedy/zapchasti_i_aksessuary" []
      ];
    Category.mk "Электроника" "https://www.avito.ru/all/bytovaya_elektronika"
      [
       Category.mk "Аудио и видео" "https://www.avito.ru/all/audio_i_video" [];
       Category.mk "Игры, приставки и программы" "https://www.avito.ru/all/igry_pristavki_i_programmy" [];
       Category.mk "Компьютеры, ноутбуки и ПО" "https://www.avito.ru/all/nastolnye_kompyutery" [];
       Category.mk "Оргтехника и расходники" "https://www.avito.ru/all/orgtehnika_i_rashodniki" [];
       Category.mk "Планшеты и электронные книги" "https://www.avito.ru/all/planshety_i_elektronnye_knigi" [];
       Category.mk "Телефоны" "https://www.avito.ru/all/telefony" [];
       Category.mk "Товары для компьютера" "https://www.avito.ru/all/tovary_dlya_kompyutera" [];
       Category.mk "Фототехника" "https://www.avito.ru/all/fototehnika" []
      ];
    Category.mk "Хобби и отдых" "https://www.avito.ru/all/hobbi_i_otdyh"
      [
       Category.mk "Билеты и путешествия" "https://www.avito.ru/all/bilety_i_puteshestviya" [];
       Category.mk "Велосипеды" "https://www.avito.ru/all/velosipedy" [];
       Category.mk "Книги и журналы" "https://www.avito.ru/all/knigi_i_zhurnaly" [];
       Category.mk "Коллекционирование" "https://www.avito.ru/all/kollektsionirovanie" [];
       Category.mk "Музыкальные инструменты" "https://www.avito.ru/all/muzykalnye_instrumenty" [];
       Category.mk "Охота и рыбалка" "https://www.avito.ru/all/ohota_i_rybalka" [];
       Category.mk "Спорт и отдых" "https://www.avito.ru/all/sport_i_otdyh" []
      ];
    Category.mk "Животные" "https://www.avito.ru/all/zhivotnye"
      [
       Category.mk "Собаки" "https://www.avito.ru/all/sobaki" [];
       Category.mk "Кошки" "https://www.avito.ru/all/koshki" [];
       Category.mk "Аквариумные рыбки" "https://www.avito.ru/all/akvariumnye_rybki" [];
       Category.mk "Птицы" "https://www.avito.ru/all/ptitsy" [];
       Category.mk "Грызуны" "https://www.avito.ru/all/gryzuny" [];
       Category.mk "Товары для животных" "https://www.avito.ru/all/tovary_dlya_zhivotnyh" []
      ];
    Category.mk "Для бизнеса" "https://www.avito.ru/all/dlya_biznesa"
      [
       Category.mk "Готовый бизнес" "https://www.avito.ru/all/gotoviy_biznes" [];
       Category.mk "Оборудование для бизнеса" "https://www.avito.ru/all/oborudovanie_dlya_biznesa" []
      ]
     ], None).
End Fallback.

(** Every URL of a category and of the categories below it. *)
Fixpoint allURLs (c : Category.t) : list string :=
  Category.URL c :: flat_map allURLs (Category.Subcategories c).

(** *** Packages [time] and [net/url], as far as the parser reads them *)

Module Time.
Inductive Location := UTC | Local.

(** A [time.Time] by its calendar fields in its own location. *)
Record t := mk {
  Year : Z; Month : Z; Day : Z;
  Hour : Z; Minute : Z; Second : Z; Nanosecond : Z;
  Loc : Location
}.

(** [time.Time{}]: January 1 of year 1, 00:00:00 UTC. *)
Definition zero : t := mk 1 1 1 0 0 0 0 UTC.
End Time.

Module URL.
(** A parsed URL by the one field the parser reads. *)
Record t := mk { Scheme : string }.

(** The method [IsAbs] of a parsed URL. *)
Definition IsAbs (u : t) : bool := negb (String.eqb (Scheme u) "").
End URL.

(** The library functions whose tables and grammars are outside this
    development: every statement below holds whatever they return. *)
Class GoLib := {
  (** [url.Parse(rawURL)]; [None] is a non-nil error. *)
  url_Parse : string -> option URL.t;
  (** [strings.ToLower(s)] *)
  strings_ToLower : string -> string;
  (** [time.Parse(layout, value)]; [None] is a non-nil error. *)
  time_Parse : string -> string -> option Time.t
}.

(** *** [normalizeURL] (categories.go) *)

Definition baseURL : string := "https://www.avito.ru".

Section Normalize.
Context {L : GoLib}.

Definition normalizeURL (href : string) : string :=
  if HasPrefix href "http" then href
  else if HasPrefix href "//" then "https:" +:+ href
  else if HasPrefix href "/" then baseURL +:+ href
  else
    match url_Parse href with
    | None => baseURL +:+ "/" +:+ href
    | Some parsedURL =>
        if negb (URL.IsAbs parsedURL) then baseURL +:+ "/" +:+ href
        else href
    end.
End Normalize.

(** A scheme as [net/url] splits it off ([getScheme]): a letter, then
    letters, digits, [+], [-] or [.], up to the first colon.  The result is
    the scheme, empty when there is none. *)
Definition isLetter (c : ascii) : bool :=
  (N.leb 97 (byte_val c) && N.leb (byte_val c) 122
   || N.leb 65 (byte_val c) && N.leb (byte_val c) 90)%N.

Fixpoint getSchemeGo (first : bool) (acc s : string) : string :=
  match s with
  | EmptyString => ""
  | String c s' =>
      if isLetter c then getSchemeGo false (acc +:+ String c "") s'
      else if isDigit c || Ascii.eqb c "+" || Ascii.eqb c "-" || Ascii.eqb c "."
      then (if first then "" else getSchemeGo false (acc +:+ String c "") s')
      else if Ascii.eqb c ":" then (if first then "" else acc)
      else ""
  end.

Definition getScheme (rawURL : string) : string := getSchemeGo true "" rawURL.

(** The result as the specification words it: unchanged with a scheme,
    "https:" before "//...", the base origin before "/...", otherwise joined
    to the base origin with a "/". *)
Definition spec_normalizeURL (href : string) : string :=
  if negb (String.eqb (getScheme href) "") then href
  else if HasPrefix href "//" then "https:" +:+ href
  else if HasPrefix href "/" then baseURL +:+ href
  else baseURL +:+ "/" +:+ href.

(** *** [parsePrice] (listings.go) *)

Fixpoint takeWhile (P : ascii -> bool) (s : string) : string :=
  match s with
  | EmptyString => ""
  | String c s' => if P c then String c (takeWhile P s') else ""
  end.

Fixpoint dropWhile (P : ascii -> bool) (s : string) : string :=
  match s with
  | EmptyString => ""
  | String c s' => if P c then dropWhile P s' else s
  end.

(** The class [\s] of Go's regexp syntax: [\t\n\f\r ]. *)
Definition isRegexSpace (c : ascii) : bool :=
  existsb (Ascii.eqb c) ["009"; "010"; "012"; "013"; " "]%char.

(** [priceRegex = regexp.MustCompile(`[\d\s,.]+`)] *)
Definition priceClass (c : ascii) : bool :=
  isDigit c || isRegexSpace c || Ascii.eqb c "," || Ascii.eqb c ".".

(** [priceRegex.FindString(s)]: the leftmost match, as long as it can be;
    the empty string when nothing matches.  The class holds ASCII bytes only,
    so matching bytes is matching runes. *)
Definition priceRegex_FindString (s : string) : string :=
  takeWhile priceClass (dropWhile (fun c => negb (priceClass c)) s).

(** [strconv.ParseFloat(s, 64)] on the strings that reach it here, which hold
    only digits, dots and white space (no sign, exponent, underscore, hex
    prefix, "inf" or "nan"): digits, at most one dot, at least one digit; the
    value reads the digits as a decimal.  [None] is a syntax error, or
    [ErrRange] when the decimal rounds to +Inf (at or above
    2^1024 - 2^970). *)
Fixpoint readDigits (mant : N) (count : nat) (s : string) : N * nat * string :=
  match s with
  | EmptyString => (mant, count, "")
  | String c s' =>
      if isDigit c
      then readDigits (10 * mant + (byte_val c - 48))%N (S count) s'
      else (mant, count, s)
  end.

Definition float64Overflow : Z := 2 ^ 1024 - 2 ^ 970.

Definition ParseFloat (s : string) : option Q :=
  let '(m1, n1, rest) := readDigits 0%N 0%nat s in
  let '(m2, n2, rest') :=
    match rest with
    | String "." r => readDigits m1 0%nat r
    | _ => (m1, 0%nat, rest)
    end in
  if negb (String.eqb rest' "") || Nat.eqb (n1 + n2) 0 then None
  else if (float64Overflow * 10 ^ Z.of_nat n2 <=? Z.of_N m2)%Z then None
  else Some (Qred (Z.of_N m2 # Z.to_pos (10 ^ Z.of_nat n2))).

Definition parsePrice (priceText : string) : Price.t :=
  let currency :=
    if Contains priceText "$" then "USD"
    else if Contains priceText "€" then "EUR"
    else "RUB" in
  let matches := priceRegex_FindString priceText in
  let value :=
    if negb (String.eqb matches "") then
      let valueStr := ReplaceAll matches " " "" in
      let valueStr := ReplaceAll valueStr "," "." in
      match ParseFloat valueStr with
      | Some v => v
      | None => 0%Q
      end
    else 0%Q in
  {| Price.Value := value; Price.Currency := currency; Price.Text := priceText |}.

(** The value as the specification words it: the first run of digits,
    spaces, commas and dots, without its spaces, commas turned into dots,
    read as a float; 0 when that fails.  [isSp] says what a space is. *)
Definition specPriceClass (isSp : ascii -> bool) (c : ascii) : bool :=
  isDigit c || isSp c || Ascii.eqb c "," || Ascii.eqb c ".".

Fixpoint stripBytes (P : ascii -> bool) (s : string) : string :=
  match s with
  | EmptyString => ""
  | String c s' => if P c then stripBytes P s' else String c (stripBytes P s')
  end.

Fixpoint commasToDots (s : string) : string :=
  match s with
  | EmptyString => ""
  | String c s' => String (if Ascii.eqb c "," then "."%char else c) (commasToDots s')
  end.

Definition spec_priceValue (isSp : ascii -> bool) (raw : string) : Q :=
  let run :=
    takeWhile (specPriceClass isSp)
      (dropWhile (fun c => negb (specPriceClass isSp c)) raw) in
  match ParseFloat (commasToDots (stripBytes isSp run)) with
  | Some v => v
  | None => 0%Q
  end.

Definition isSpaceByte (c : ascii) : bool := Ascii.eqb c " ".

(** A tab, newline, form feed or carriage return: white space for the
    regexp, not removed by [ReplaceAll(matches, " ", "")]. *)
Definition isOtherSpace (c : ascii) : bool :=
  isRegexSpace c && negb (isSpaceByte c).

Fixpoint anyByte (P : ascii -> bool) (s : string) : bool :=
  match s with
  | EmptyString => false
  | String c s' => P c || anyByte P s'
  end.

(** *** [parseDate] (listings.go) *)

Definition isLeap (year : Z) : bool :=
  (year mod 4 =? 0) && (negb (year mod 100 =? 0) || (year mod 400 =? 0)).

Definition daysIn (year month : Z) : Z :=
  if month =? 2 then (if isLeap year then 29 else 28)
  else if (month =? 4) || (month =? 6) || (month =? 9) || (month =? 11) then 30
  else 31.

Definition prevMonth (year month : Z) : Z * Z :=
  if month <=? 1 then (year - 1, 12) else (year, month - 1).

Definition nextMonth (year month : Z) : Z * Z :=
  if 12 <=? month then (year + 1, 1) else (year, month + 1).

(** Days outside the month move into the months before or after. *)
Fixpoint normDay (fuel : nat) (year month day : Z) : Z * Z * Z :=
  match fuel with
  | O => (year, month, day)
  | S k =>
      if day <? 1 then
        let '(y, m) := prevMonth year month in normDay k y m (day + daysIn y m)
      else if daysIn year month <? day then
        let '(y, m) := nextMonth year month in normDay k y m (day - daysIn year month)
      else (year, month, day)
  end.

(** Months outside 1..12 move into the years before or after. *)
Definition normMonth (year month : Z) : Z * Z :=
  let m0 := month - 1 in (year + m0 / 12, m0 mod 12 + 1).

(** The days carried, then hour, minute, second and nanosecond in range. *)
Definition normClock (hour min sec nsec : Z) : Z * Z * Z * Z * Z :=
  let sec := sec + nsec / 1000000000 in
  let nsec := nsec mod 1000000000 in
  let min := min + sec / 60 in
  let sec := sec mod 60 in
  let hour := hour + min / 60 in
  let min := min mod 60 in
  (hour / 24, hour mod 24, min, sec, nsec).

(** [time.Date(year, month, day, hour, min, sec, nsec, loc)]: values outside
    their ranges are normalized, months into years, nanoseconds up to hours
    into days, days into months.  A wall clock time that a zone transition
    skips or repeats is not told apart from the others. *)
Definition Date (year month day hour min sec nsec : Z) (loc : Time.Location) : Time.t :=
  let '(year, month) := normMonth year month in
  let '(carry, hour, min, sec, nsec) := normClock hour min sec nsec in
  let day := day + carry in
  let '(y, m, d) := normDay (S (Z.to_nat (Z.abs day))) year month day in
  Time.mk y m d hour min sec nsec loc.

Definition dateFormats : list string :=
  ["02 января 2006"; "02 января"; "02 янв 2006"; "02 янв"; "02.01.2006"; "02.01.06"].

Section ParseDate.
Context {L : GoLib}.

(** The loop over the formats; [now] when none parses. *)
Fixpoint tryFormats (now : Time.t) (dateStr : string) (formats : list string) : Time.t :=
  match formats with
  | [] => now
  | format :: rest =>
      match time_Parse format dateStr with
      | Some t =>
          if Time.Year t =? 0
          then Date (Time.Year now) (Time.Month t) (Time.Day t) 0 0 0 0 (Time.Loc now)
          else t
      | None => tryFormats now dateStr rest
      end
  end.

(** [parseDate]; [now] is what [time.Now()] returns in it. *)
Definition parseDate (now : Time.t) (dateStr : string) : Time.t :=
  let dateStr := strings_ToLower (TrimSpace dateStr) in
  if Contains dateStr "сегодня" then
    Date (Time.Year now) (Time.Month now) (Time.Day now) 0 0 0 0 (Time.Loc now)
  else if Contains dateStr "вчера" then
    Date (Time.Year now) (Time.Month now) (Time.Day now - 1) 0 0 0 0 (Time.Loc now)
  else tryFormats now dateStr dateFormats.
End ParseDate.

(** A calendar date that exists. *)
Definition validDate (t : Time.t) : bool :=
  (1 <=? Time.Month t) && (Time.Month t <=? 12) &&
  (1 <=? Time.Day t) && (Time.Day t <=? daysIn (Time.Year t) (Time.Month t)).

(** Midnight of the day of [t], and of the day before it, in its location. *)
Definition midnight (t : Time.t) : Time.t :=
  Time.mk (Time.Year t) (Time.Month t) (Time.Day t) 0 0 0 0 (Time.Loc t).

Definition dayBefore (t : Time.t) : Time.t :=
  if 1 <? Time.Day t then
    Time.mk (Time.Year t) (Time.Month t) (Time.Day t - 1) 0 0 0 0 (Time.Loc t)
  else if 1 <? Time.Month t then
    Time.mk (Time.Year t) (Time.Month t - 1)
      (daysIn (Time.Year t) (Time.Month t - 1)) 0 0 0 0 (Time.Loc t)
  else Time.mk (Time.Year t - 1) 12 31 0 0 0 0 (Time.Loc t).

(** *** Listings and their detail pages *)

Module Listing.
Record t := mk {
  ID : string;
  Title : string;
  Description : string;
  Price : Price.t;
  URL : string;
  ImageURLs : list string;
  Location : string;
  CategoryID : string;
  CategoryURL : string;
  PublishedAt : Time.t;
  Attributes : gmap string string
}.

(** [models.Listing{}]; a nil map is the empty map. *)
Definition empty : t :=
  mk "" "" "" (Price.mk 0%Q "" "") "" [] "" "" "" Time.zero ∅.

Definition withTitle (v : string) (l : t) : t :=
  mk (ID l) v (Description l) (Price l) (URL l) (ImageURLs l) (Location l)
     (CategoryID l) (CategoryURL l) (PublishedAt l) (Attributes l).
Definition withDescription (v : string) (l : t) : t :=
  mk (ID l) (Title l) v (Price l) (URL l) (ImageURLs l) (Location l)
     (CategoryID l) (CategoryURL l) (PublishedAt l) (Attributes l).
Definition withPrice (v : Price.t) (l : t) : t :=
  mk (ID l) (Title l) (Description l) v (URL l) (ImageURLs l) (Location l)
     (CategoryID l) (CategoryURL l) (PublishedAt l) (Attributes l).
Definition withImageURLs (v : list string) (l : t) : t :=
  mk (ID l) (Title l) (Description l) (Price l) (URL l) v (Location l)
     (CategoryID l) (CategoryURL l) (PublishedAt l) (Attributes l).
Definition withLocation (v : string) (l : t) : t :=
  mk (ID l) (Title l) (Description l) (Price l) (URL l) (ImageURLs l) v
     (CategoryID l) (CategoryURL l) (PublishedAt l) (Attributes l).
Definition withCategoryURL (v : string) (l : t) : t :=
  mk (ID l) (Title l) (Description l) (Price l) (URL l) (ImageURLs l) (Location l)
     (CategoryID l) v (PublishedAt l) (Attributes l).
Definition withPublishedAt (v : Time.t) (l : t) : t :=
  mk (ID l) (Title l) (Description l) (Price l) (URL l) (ImageURLs l) (Location l)
     (CategoryID l) (CategoryURL l) v (Attributes l).
Definition withAttributes (v : gmap string string) (l : t) : t :=
  mk (ID l) (Title l) (Description l) (Price l) (URL l) (ImageURLs l) (Location l)
     (CategoryID l) (CategoryURL l) (PublishedAt l) v.
End Listing.

(** What [c.Visit(url)] comes to: an error, after which no callback has run,
    or the document on which the callbacks run. *)
Inductive Visit (Doc : Type) :=
  | VisitErr (err : error)
  | VisitOK (doc : Doc).
Arguments VisitErr {Doc} err.
Arguments VisitOK {Doc} doc.

(** An [img] of the gallery by the attributes the code reads; a missing
    attribute reads as the empty string, which the code treats alike. *)
Record Img := { img_src : string; img_srcset : string; img_data_src : string }.

(** A [body] of a detail page by what the callback selects in it: the text
    of the description, address, price and date selections, the gallery
    images and the text of each entry of the parameter list, in document
    order. *)
Record DetailBody := {
  descriptionText : string;
  galleryImages : list Img;
  addressText : string;
  itemPriceText : string;
  dateText : string;
  paramTexts : list string
}.

(** A detail page: the text of each [h1], and its [body] elements. *)
Record DetailPage := { h1Texts : list string; detailBodies : list DetailBody }.

Fixpoint countByte (c : ascii) (s : string) : nat :=
  match s with
  | EmptyString => 0%nat
  | String d s' => ((if Ascii.eqb d c then 1 else 0) + countByte c s')%nat
  end.

(** The tail of a string: [s[1:]]. *)
Definition tailString (s : string) : string :=
  match s with
  | EmptyString => ""
  | String _ s' => s'
  end.

Definition notByte (c : ascii) (d : ascii) : bool := negb (Ascii.eqb d c).

Section Details.
Context {L : GoLib}.
(** [now] is what [time.Now()] returns while the page is read, [visit] what
    visiting a URL gives. *)
Variable now : Time.t.
Variable visit : string -> Visit DetailPage.

(** One image of the gallery. *)
Definition addImage (listing : Listing.t) (s : Img) : Listing.t :=
  if negb (String.eqb (img_src s) "") then
    Listing.withImageURLs (Listing.ImageURLs listing ++ [img_src s]) listing
  else if negb (String.eqb (img_srcset s) "") then
    (* parts := strings.Split(srcset, " "); parts[0] *)
    Listing.withImageURLs
      (Listing.ImageURLs listing ++ [takeWhile (notByte " ") (img_srcset s)]) listing
  else if negb (String.eqb (img_data_src s) "") then
    Listing.withImageURLs (Listing.ImageURLs listing ++ [img_data_src s]) listing
  else listing.

(** One entry of the parameter list: kept when it splits on ":" into exactly
    two parts. *)
Definition addParam (attributes : gmap string string) (raw : string)
  : gmap string string :=
  let text := TrimSpace raw in
  if negb (String.eqb text "") then
    if Nat.eqb (countByte ":" text) 1 then
      let key := TrimSpace (takeWhile (notByte ":") text) in
      let value := TrimSpace (tailString (dropWhile (notByte ":") text)) in
      <[key := value]> attributes
    else attributes
  else attributes.

(** The callback on [body]. *)
Definition onDetailBody (listing : Listing.t) (e : DetailBody) : Listing.t :=
  let listing := Listing.withDescription (TrimSpace (descriptionText e)) listing in
  let listing := fold_left addImage (galleryImages e) listing in
  let listing := Listing.withLocation (TrimSpace (addressText e)) listing in
  let listing :=
    if Qeq_bool (Price.Value (Listing.Price listing)) 0 then
      if negb (String.eqb (itemPriceText e) "")
      then Listing.withPrice (parsePrice (itemPriceText e)) listing
      else listing
    else listing in
  let listing :=
    if negb (String.eqb (dateText e) "")
    then Listing.withPublishedAt (parseDate now (dateText e)) listing
    else listing in
  let attributes := fold_left addParam (paramTexts e) ∅ in
  if Nat.ltb 0 (size attributes) then Listing.withAttributes attributes listing
  else listing.

(** The callback on [h1], registered only for a listing without a title. *)
Definition onH1 (listing : Listing.t) (text : string) : Listing.t :=
  Listing.withTitle (TrimSpace text) listing.

Definition errEmptyURL : error := "listing URL is empty".

Definition GetListingDetails (listing : Listing.t) : Listing.t * option error :=
  if String.eqb (Listing.URL listing) "" then (listing, Some errEmptyURL)
  else
    match visit (Listing.URL listing) with
    | VisitErr err => (listing, Some ("error visiting listing page: " +:+ err))
    | VisitOK page =>
        let listing' :=
          if String.eqb (Listing.Title listing) ""
          then fold_left onH1 (h1Texts page) listing
          else listing in
        (fold_left onDetailBody (detailBodies page) listing', None)
    end.
End Details.

(** *** [GetCategories] and [getSubcategories] (the scraping categories.go) *)

(** An element that a callback receives, by what the callback reads of it:
    its text (for a grid item the text of its [p], for a service item the
    text of its [span]) and its [href]; a missing attribute reads as the
    empty string. *)
Record Link := { linkText : string; linkHref : string }.

(** An [a] element whose [href] may be missing ([s.Attr] tells). *)
Record Anchor := { anchorText : string; anchorHref : option string }.

(** The start page by the elements each callback matches, in document
    order.  For a service item, [anchorHref] is the [href] of its parent. *)
Record RootPage := {
  gridItems : list Link;
  dropdownLinks : list Link;
  miniMenuLinks : list Link;
  topNavLinks : list Link;
  serviceItems : list Anchor
}.

(** A category page: the links of each category map, and of each
    rubricator list. *)
Record CategoryPage := {
  categoryMaps : list (list Anchor);
  rubricatorLists : list (list Anchor)
}.

Section Categories.
Context {L : GoLib}.
Variable visitRoot : string -> Visit RootPage.
Variable visitCategory : string -> Visit CategoryPage.

Definition newCategory (catName url : string) : Category.t :=
  Category.mk catName url [].

(** "Skip if already exists". *)
Definition addIfAbsent (categoryMap : gmap string Category.t) (catName url : string)
  : gmap string Category.t :=
  match categoryMap !! url with
  | Some _ => categoryMap
  | None => <[url := newCategory catName url]> categoryMap
  end.

(** The visual grid. *)
Definition onGridItem (categoryMap : gmap string Category.t) (e : Link)
  : gmap string Category.t :=
  let catName := cleanText (linkText e) in
  let href := linkHref e in
  if negb (String.eqb href "") && negb (String.eqb catName "") then
    let url := normalizeURL href in
    match categoryMap !! url with
    | Some existingCat =>
        if String.eqb (Category.Name existingCat) "" then
          <[url := Category.mk catName (Category.URL existingCat)
                     (Category.Subcategories existingCat)]> categoryMap
        else categoryMap
    | None => <[url := newCategory catName url]> categoryMap
    end
  else categoryMap.

(** The dropdown catalog menu: the entry is assigned, found or not. *)
Definition onDropdownLink (categoryMap : gmap string Category.t) (e : Link)
  : gmap string Category.t :=
  let catName := cleanText (linkText e) in
  let href := linkHref e in
  if negb (String.eqb href "") && negb (String.eqb catName "") then
    let url := normalizeURL href in
    <[url := newCategory catName url]> categoryMap
  else categoryMap.

(** The mini-menu. *)
Definition onMiniMenuLink (categoryMap : gmap string Category.t) (e : Link)
  : gmap string Category.t :=
  let catName := cleanText (linkText e) in
  let href := linkHref e in
  if negb (String.eqb href "") && negb (String.eqb catName "")
  then addIfAbsent categoryMap catName (normalizeURL href)
  else categoryMap.

(** The top navigation. *)
Definition onTopNavLink (categoryMap : gmap string Category.t) (e : Link)
  : gmap string Category.t :=
  let catName := cleanText (linkText e) in
  let href := linkHref e in
  if HasPrefix href "/" && negb (String.eqb catName "")
  then addIfAbsent categoryMap catName (normalizeURL href)
  else categoryMap.

(** The service tiles. *)
Definition onServiceItem (categoryMap : gmap string Category.t) (e : Anchor)
  : gmap string Category.t :=
  match anchorHref e with
  | Some href =>
      let catName := cleanText (anchorText e) in
      if negb (String.eqb href "") && negb (String.eqb catName "")
      then addIfAbsent categoryMap catName (normalizeURL href)
      else categoryMap
  | None => categoryMap
  end.

(** The map once the callbacks have run: each callback over all its
    elements, the callbacks in the order of their registration. *)
Definition collectCategories (page : RootPage) : gmap string Category.t :=
  let m := fold_left onGridItem (gridItems page) ∅ in
  let m := fold_left onDropdownLink (dropdownLinks page) m in
  let m := fold_left onMiniMenuLink (miniMenuLinks page) m in
  let m := fold_left onTopNavLink (topNavLinks page) m in
  fold_left onServiceItem (serviceItems page) m.

Definition onCategoryMapLink (subcategories : list Category.t) (s : Anchor)
  : list Category.t :=
  let name := cleanText (anchorText s) in
  match anchorHref s with
  | Some href =>
      if negb (String.eqb name "")
      then subcategories ++ [Category.mk name (normalizeURL href) []]
      else subcategories
  | None => subcategories
  end.

Definition onRubricatorLink (subcategories : list Category.t) (s : Anchor)
  : list Category.t :=
  let name := cleanText (anchorText s) in
  match anchorHref s with
  | Some href =>
      if negb (String.eqb name "") then
        let isDuplicate :=
          existsb (fun existingSub =>
                     String.eqb (Category.URL existingSub) (normalizeURL href))
            subcategories in
        if negb isDuplicate
        then subcategories ++ [Category.mk name (normalizeURL href) []]
        else subcategories
      else subcategories
  | None => subcategories
  end.

Definition getSubcategories (categoryURL : string) : list Category.t * option error :=
  match visitCategory categoryURL with
  | VisitErr err => ([], Some ("error visiting category page: " +:+ err))
  | VisitOK page =>
      let subcategories :=
        fold_left (fun subs links => fold_left onCategoryMapLink links subs)
          (categoryMaps page) [] in
      let subcategories :=
        fold_left (fun subs links => fold_left onRubricatorLink links subs)
          (rubricatorLists page) subcategories in
      (subcategories, None)
  end.

Definition withSubcategories (cat : Category.t) : Category.t :=
  if Contains (Category.URL cat) "/all/" then
    match getSubcategories (Category.URL cat) with
    | (subcats, None) => Category.mk (Category.Name cat) (Category.URL cat) subcats
    | (_, Some _) => cat
    end
  else cat.

(** [GetCategories].  Go leaves the order of a [range] over a map open; the
    model lists the map in the order of [map_to_list], and no statement
    depends on the order. *)
Definition GetCategories : list Category.t * option error :=
  match visitRoot baseURL with
  | VisitErr err => ([], Some ("error visiting " +:+ baseURL +:+ ": " +:+ err))
  | VisitOK page =>
      let categoryMap := collectCategories page in
      if Nat.ltb 0 (size categoryMap)
      then (map withSubcategories (map snd (map_to_list categoryMap)), None)
      else ([], None)
  end.
End Categories.

(** *** [parseListing] and [GetListings] (listings.go) *)

(** [itemIDRegex], which is [_(\d+)$|/(\d+)$]: the digits that end the
    string, when there are some and an underscore or a slash stands before
    them; the empty string when the regexp does not match. *)
Definition itemID (href : string) : string :=
  let r := String.rev href in
  let digits := takeWhile isDigit r in
  match dropWhile isDigit r with
  | String c _ =>
      if negb (String.eqb digits "") && (Ascii.eqb c "_" || Ascii.eqb c "/")
      then String.rev digits else ""
  | EmptyString => ""
  end.

(** An item card by what [parseListing] reads of it: the attributes
    [data-item-id] and [id]; the [href] of the first [a] and of the first
    [a] that has one; the text of the title selection and of the first
    heading; the [href] of every [a]; the text of the price and location
    selections and of their fallbacks; [src] and [data-src] of the first
    [img].  A missing attribute or an empty selection reads as the empty
    string. *)
Record Card := {
  card_data_item_id : string;
  card_id : string;
  card_a_href : string;
  card_title : string;
  card_heading : string;
  card_a_with_href : string;
  card_links : list (option string);
  card_price : string;
  card_price_fallback : string;
  card_location : string;
  card_location_fallback : string;
  card_img_src : string;
  card_img_data_src : string
}.

(** A results container: the cards that each selector finds in it. *)
Record Container := { forEach : string -> list Card }.

(** An [a] of the page-wide scan: its [href], its text, the text of the
    first heading inside it and of the first price inside it. *)
Record ItemAnchor := {
  item_href : option string;
  item_text : string;
  item_heading : string;
  item_price : string
}.

(** A listing page: its results containers, and the anchors of each
    [body]. *)
Record ListPage := {
  serpContainers : list Container;
  listBodies : list (list ItemAnchor)
}.

Definition itemSelectors : list string :=
  ["div[data-marker='item']"; "div[data-marker='item-card']"; "div.item";
   "div.item-card"; "div.iva-item-root"].

Definition orElse (a b : string) : string :=
  if String.eqb a "" then b else a.

Section Listings.
Context {L : GoLib}.
Variable now : Time.t.
Variable visitDetail : string -> Visit DetailPage.
Variable visitList : string -> Visit ListPage.
(** [handleCatalogPage], the path of the catalog URLs, is not part of what
    is stated here about [GetListings]. *)
Variable handleCatalogPage : string -> Z -> list Listing.t * option error.

Definition parseListing (item : Card) : Listing.t :=
  let id := orElse (card_data_item_id item) (card_id item) in
  let id :=
    if String.eqb id "" then
      if negb (String.eqb (card_a_href item) "") then itemID (card_a_href item) else ""
    else id in
  let title := orElse (TrimSpace (card_title item)) (TrimSpace (card_heading item)) in
  let url := orElse (card_a_with_href item) (card_a_href item) in
  let url :=
    if String.eqb url "" then
      fold_left (fun url s =>
                   match s with
                   | Some href => if Contains href "/item/" then href else url
                   | None => url
                   end) (card_links item) url
    else url in
  let priceText :=
    orElse (TrimSpace (card_price item)) (TrimSpace (card_price_fallback item)) in
  let location :=
    orElse (TrimSpace (card_location item)) (TrimSpace (card_location_fallback item)) in
  Listing.mk id title ""
    (if negb (String.eqb priceText "") then parsePrice priceText else Price.mk 0%Q "" "")
    (normalizeURL url)
    (if negb (String.eqb (card_img_src item) "") then [card_img_src item]
     else if negb (String.eqb (card_img_data_src item) "") then [card_img_data_src item]
     else [])
    location "" "" Time.zero ∅.

(** The callback of [e.ForEach(selector, ...)] over the cards, with the
    counter of the selector. *)
Fixpoint forEachCard (limit : Z) (categoryURL : string) (cards : list Card)
    (count : Z) (listings : list Listing.t) : list Listing.t * Z :=
  match cards with
  | [] => (listings, count)
  | item :: rest =>
      if (0 <? limit) && (limit <=? count) then
        forEachCard limit categoryURL rest count listings
      else
        let listing := parseListing item in
        if negb (String.eqb (Listing.ID listing) "") &&
           negb (String.eqb (Listing.Title listing) "")
        then forEachCard limit categoryURL rest (count + 1)
               (listings ++ [Listing.withCategoryURL categoryURL listing])
        else forEachCard limit categoryURL rest count listings
  end.

(** The loop over [itemSelectors] in one container. *)
Fixpoint trySelectors (limit : Z) (categoryURL : string) (e : Container)
    (selectors : list string) (listings : list Listing.t) : list Listing.t :=
  match selectors with
  | [] => listings
  | selector :: rest =>
      let '(listings', count) :=
        forEachCard limit categoryURL (forEach e selector) 0 listings in
      if 0 <? count then listings'
      else trySelectors limit categoryURL e rest listings'
  end.

(** The callback on a results container. *)
Definition onSerp (limit : Z) (categoryURL : string)
    (listings : list Listing.t) (e : Container) : list Listing.t :=
  trySelectors limit categoryURL e itemSelectors listings.

(** The page-wide scan of one [body]. *)
Definition onAnchor (limit : Z) (categoryURL : string)
    (acc : list Listing.t * Z) (s : ItemAnchor) : list Listing.t * Z :=
  let '(listings, count) := acc in
  if (0 <? limit) && (limit <=? count) then acc
  else
    match item_href s with
    | None => acc
    | Some href =>
        if Contains href "/item/" then
          let title := orElse (TrimSpace (item_text s)) (TrimSpace (item_heading s)) in
          if negb (String.eqb title "") then
            let priceText := TrimSpace (item_price s) in
            let listing :=
              Listing.mk (itemID href) title ""
                (if negb (String.eqb priceText "") then parsePrice priceText
                 else Price.mk 0%Q "" "")
                (normalizeURL href) [] "" "" categoryURL Time.zero ∅ in
            (listings ++ [listing], count + 1)
          else acc
        else acc
    end.

Definition onListBody (limit : Z) (categoryURL : string)
    (listings : list Listing.t) (anchors : list ItemAnchor) : list Listing.t :=
  if Nat.ltb 0 (length listings) then listings
  else fst (fold_left (onAnchor limit categoryURL) anchors (listings, 0)).

(** The details of one summary; the summary itself when they fail. *)
Definition enrich (listing : Listing.t) : Listing.t :=
  if negb (String.eqb (Listing.URL listing) "") then
    match GetListingDetails now visitDetail listing with
    | (_, Some _) => listing
    | (enriched, None) => enriched
    end
  else listing.

Definition GetListings (categoryURL : string) (limit : Z)
  : list Listing.t * option error :=
  if Contains categoryURL "/catalog/" then handleCatalogPage categoryURL limit
  else
    match visitList categoryURL with
    | VisitErr err => ([], Some ("error visiting category page: " +:+ err))
    | VisitOK page =>
        let listings := fold_left (onSerp limit categoryURL) (serpContainers page) [] in
        let listings := fold_left (onListBody limit categoryURL) (listBodies page) listings in
        if Nat.ltb 0 (length listings) then (map enrich listings, None)
        else (listings, None)
    end.
End Listings.

(** *** [waitForRateLimit] (listings.go)

    Times and durations are nanoseconds.  A call goes through the statements
    of the function one at a time; between two statements the clock may
    advance and another call may run a statement of its own: the package
    variable [lastRequestTime] is read and assigned without a lock. *)

Definition minRequestInterval : Z := 3 * 1000000000.

(** Where a call stands: before [time.Since], with [elapsed] in hand, inside
    [time.Sleep] until [wake], before the assignment, and returned, having
    assigned [stamp]. *)
Inductive callState :=
  | Entered
  | Measured (elapsed : Z)
  | Sleeping (wake : Z)
  | Recording
  | Returned (stamp : Z).

Record limiter := {
  clock : Z;
  lastRequestTime : Z;
  callA : callState;
  callB : callState
}.

(** One statement of a call: the new state of the call and the new value of
    [lastRequestTime]; [None] when the call cannot move (it sleeps on, or it
    has returned). *)
Definition stepCall (clock last : Z) (c : callState) : option (callState * Z) :=
  match c with
  | Entered => Some (Measured (clock - last), last)
  | Measured elapsed =>
      if elapsed <? minRequestInterval
      then Some (Sleeping (clock + (minRequestInterval - elapsed)), last)
      else Some (Recording, last)
  | Sleeping wake => if wake <=? clock then Some (Recording, last) else None
  | Recording => Some (Returned clock, clock)
  | Returned _ => None
  end.

Inductive action := Tick (d : Z) | StepA | StepB.

Definition step (a : action) (st : limiter) : option limiter :=
  match a with
  | Tick d =>
      if 0 <=? d
      then Some {| clock := clock st + d; lastRequestTime := lastRequestTime st;
                   callA := callA st; callB := callB st |}
      else None
  | StepA =>
      match stepCall (clock st) (lastRequestTime st) (callA st) with
      | Some (c, last) =>
          Some {| clock := clock st; lastRequestTime := last;
                  callA := c; callB := callB st |}
      | None => None
      end
  | StepB =>
      match stepCall (clock st) (lastRequestTime st) (callB st) with
      | Some (c, last) =>
          Some {| clock := clock st; lastRequestTime := last;
                  callA := callA st; callB := c |}
      | None => None
      end
  end.

Fixpoint run (schedule : list action) (st : limiter) : option limiter :=
  match schedule with
  | [] => Some st
  | a :: rest =>
      match step a st with
      | Some st' => run rest st'
      | None => None
      end
  end.

(** The process at time [t0]: [lastRequestTime] as the package initializes
    it, two calls about to start. *)
Definition limiterAt (t0 : Z) : limiter :=
  {| clock := t0; lastRequestTime := t0 - minRequestInterval;
     callA := Entered; callB := Entered |}.

Definition notStepB (a : action) : bool :=
  match a with StepB => false | _ => true end.

Definition notStepA (a : action) : bool :=
  match a with StepA => false | _ => true end.

(** Both calls have returned, and the second stamp is less than the
    interval after the first. *)
Definition tooClose (st : limiter) : bool :=
  match callA st, callB st with
  | Returned a, Returned b => b - a <? minRequestInterval
  | _, _ => false
  end.

(** What holds while only call A moves: call B has not started, and once A
    has returned, [lastRequestTime] is its stamp, which is not in the
    future. *)
Definition onlyA (st : limiter) : Prop :=
  callB st = Entered /\
  forall a, callA st = Returned a -> lastRequestTime st = a /\ a <= clock st.

(** What holds while only call B moves, after A returned with stamp [a]. *)
Definition afterA (a : Z) (st : limiter) : Prop :=
  callA st = Returned a /\
  match callB st with
  | Entered => lastRequestTime st = a /\ a <= clock st
  | Measured elapsed => a + elapsed <= clock st
  | Sleeping wake => a + minRequestInterval <= wake
  | Recording => a + minRequestInterval <= clock st
  | Returned b => a + minRequestInterval <= b
  end.

(** A listing page with two results containers, one accepted card each. *)
Definition cardOf (id title : string) : Card :=
  {| card_data_item_id := id; card_id := ""; card_a_href := "/item/" +:+ id;
     card_title := title; card_heading := ""; card_a_with_href := "/item/" +:+ id;
     card_links := []; card_price := ""; card_price_fallback := "";
     card_location := ""; card_location_fallback := "";
     card_img_src := ""; card_img_data_src := "" |}.

Definition containerOf (cards : list Card) : Container :=
  {| forEach := fun selector =>
       if String.eqb selector "div[data-marker='item']" then cards else [] |}.

Definition twoContainersPage : ListPage :=
  {| serpContainers := [ containerOf [cardOf "1" "Велосипед"];
                         containerOf [cardOf "2" "Самокат"] ];
     listBodies := [ [] ] |}.

(** A listing page with one results container of five accepted cards. *)
Definition fiveCardsPage : ListPage :=
  {| serpContainers :=
       [ containerOf [cardOf "1" "a"; cardOf "2" "b"; cardOf "3" "c";
                      cardOf "4" "d"; cardOf "5" "e"] ];
     listBodies := [ [] ] |}.

Definition offline (url : string) : Visit DetailPage := VisitErr "offline".

(** *** An instance of the library, for the closed examples

    It follows Go on the inputs of the examples: [url.Parse] up to the
    split of the scheme (the later checks of the authority and of the
    escapes, which can still fail, are left out), [strings.ToLower] on ASCII
    letters (other bytes stay), [time.Parse] for the six layouts of
    [dateFormats]. *)

Fixpoint mapBytes (f : ascii -> ascii) (s : string) : string :=
  match s with
  | EmptyString => ""
  | String c s' => String (f c) (mapBytes f s')
  end.

Definition lowerByte (c : ascii) : ascii :=
  if (N.leb 65 (byte_val c) && N.leb (byte_val c) 90)%N
  then byte_of (byte_val c + 32) else c.

Definition isCTLByte (c : ascii) : bool :=
  ((byte_val c <? 32) || (byte_val c =? 127))%N.

Definition example_url_Parse (rawURL : string) : option URL.t :=
  let u := takeWhile (fun c => negb (Ascii.eqb c "#")) rawURL in
  if anyByte isCTLByte u then None
  else if HasPrefix u ":" then None
  else Some (URL.mk (mapBytes lowerByte (getScheme u))).

Inductive chunk :=
  | stdZeroDay | stdZeroMonth | stdLongYear | stdYear
  | literal (text : string).

Definition layoutChunks (layout : string) : option (list chunk) :=
  if String.eqb layout "02 января 2006" then
    Some [stdZeroDay; literal " января "; stdLongYear]
  else if String.eqb layout "02 января" then Some [stdZeroDay; literal " января"]
  else if String.eqb layout "02 янв 2006" then
    Some [stdZeroDay; literal " янв "; stdLongYear]
  else if String.eqb layout "02 янв" then Some [stdZeroDay; literal " янв"]
  else if String.eqb layout "02.01.2006" then
    Some [stdZeroDay; literal "."; stdZeroMonth; literal "."; stdLongYear]
  else if String.eqb layout "02.01.06" then
    Some [stdZeroDay; literal "."; stdZeroMonth; literal "."; stdYear]
  else None.

Definition digitVal (c : ascii) : Z := Z.of_N (byte_val c) - 48.

(** [getnum(value, true)]: two digits. *)
Definition getnum2 (value : string) : option (Z * string) :=
  match value with
  | String a (String b rest) =>
      if isDigit a && isDigit b then Some (10 * digitVal a + digitVal b, rest)
      else None
  | _ => None
  end.

Definition getnum4 (value : string) : option (Z * string) :=
  match getnum2 value with
  | Some (hi, rest) =>
      match getnum2 rest with
      | Some (lo, rest') => Some (100 * hi + lo, rest')
      | None => None
      end
  | None => None
  end.

(** [skip(value, prefix)] of package time: a run of spaces of the layout
    stands for any run of spaces of the value. *)
Fixpoint skipPrefix (fuel : nat) (value prefix : string) : option string :=
  match fuel, prefix with
  | _, EmptyString => Some value
  | O, _ => None
  | S k, String p prefix' =>
      if Ascii.eqb p " " then
        match value with
        | String v _ =>
            if Ascii.eqb v " "
            then skipPrefix k (dropWhile isSpaceByte value) (dropWhile isSpaceByte prefix)
            else None
        | EmptyString => skipPrefix k "" (dropWhile isSpaceByte prefix)
        end
      else
        match value with
        | String v value' => if Ascii.eqb v p then skipPrefix k value' prefix' else None
        | EmptyString => None
        end
  end.

(** The fields read so far: year, month, day; -1 is "not set". *)
Fixpoint parseChunks (chunks : list chunk) (value : string) (year month day : Z)
  : option (Z * Z * Z) :=
  match chunks with
  | [] => if String.eqb value "" then Some (year, month, day) else None
  | stdZeroDay :: rest =>
      match getnum2 value with
      | Some (d, value') => parseChunks rest value' year month d
      | None => None
      end
  | stdZeroMonth :: rest =>
      match getnum2 value with
      | Some (m, value') =>
          if (m <=? 0) || (12 <? m) then None else parseChunks rest value' year m day
      | None => None
      end
  | stdLongYear :: rest =>
      match getnum4 value with
      | Some (y, value') => parseChunks rest value' y month day
      | None => None
      end
  | stdYear :: rest =>
      match getnum2 value with
      | Some (y, value') =>
          parseChunks rest value' (if 69 <=? y then y + 1900 else y + 2000) month day
      | None => None
      end
  | literal text :: rest =>
      match skipPrefix (S (String.length text)) value text with
      | Some value' => parseChunks rest value' year month day
      | None => None
      end
  end.

Definition example_time_Parse (layout value : string) : option Time.t :=
  match layoutChunks layout with
  | None => None
  | Some chunks =>
      match parseChunks chunks value 0 (-1) (-1) with
      | None => None
      | Some (year, month, day) =>
          let month := if month <? 0 then 1 else month in
          let day := if day <? 0 then 1 else day in
          if (day <? 1) || (daysIn year month <? day) then None
          else Some (Date year month day 0 0 0 0 Time.UTC)
      end
  end.

Definition exampleLib : GoLib :=
  {| url_Parse := example_url_Parse;
     strings_ToLower := mapBytes lowerByte;
     time_Parse := example_time_Parse |}.

(** A byte that [strconv.ParseFloat] never accepts in the strings above. *)
Definition notFloatByte (c : ascii) : bool :=
  negb (isDigit c || Ascii.eqb c ".").

(** *** Predicates of the statements about white space *)

Fixpoint allBytes (P : ascii -> bool) (s : string) : bool :=
  match s with
  | EmptyString => true
  | String c s' => P c && allBytes P s'
  end.

Definition isASCII (c : ascii) : bool := (byte_val c <? 0x80)%N.

(** Every byte after the first is a non-ASCII byte. *)
Definition tailHigh (p : string) : bool :=
  match p with
  | EmptyString => false
  | String _ t => allBytes (fun c => negb (isASCII c)) t
  end.

(** [rest] is empty or starts with an ASCII byte. *)
Definition asciiStart (rest : string) : bool :=
  match rest with
  | EmptyString => true
  | String c _ => isASCII c
  end.

(** No white space rune starts at any byte of [f]. *)
Fixpoint solid (f : string) : bool :=
  match f with
  | EmptyString => true
  | String _ f' => Nat.eqb (spaceWidth f) 0 && solid f'
  end.

(** A field as [Fields] returns it: not empty, no white space inside. *)
Definition isField (f : string) : bool :=
  negb (String.eqb f "") && solid f.

(** [strings.HasSuffix(s, suffix)] *)
Definition HasSuffix (s p : string) : bool :=
  HasPrefix (String.rev s) (String.rev p).

(** [s] starts with, ends with, or contains two adjacent white space runes. *)
Definition leadingSpace (s : string) : bool :=
  existsb (HasPrefix s) spaceEncodings.

Definition trailingSpace (s : string) : bool :=
  existsb (HasSuffix s) spaceEncodings.

Definition doubleSpace (s : string) : bool :=
  existsb (fun p1 => existsb (fun p2 => Contains s (p1 +:+ p2)) spaceEncodings)
    spaceEncodings.

(** [cur] followed by [rest] has no white space rune starting in [cur]. *)
Fixpoint solidIn (cur rest : string) : bool :=
  match cur with
  | EmptyString => true
  | String _ cur' => Nat.eqb (spaceWidth (cur +:+ rest)) 0 && solidIn cur' rest
  end.

(** What follows the first field of a joined list. *)
Definition sepTail (fs : list string) : string :=
  match fs with
  | [] => ""
  | _ => " " +:+ Join fs " "
  end.

(** Every white space rune of [t] is a single space byte that is followed by
    a byte which starts no white space rune. *)
Definition onlyInnerSpaces (t : string) : Prop :=
  forall a p b, t = a +:+ p +:+ b -> In p spaceEncodings ->
    p = " " /\ b <> "" /\ spaceWidth b = 0%nat.

(** The non-empty suffixes of [p]. *)
Fixpoint suffixes (p : string) : list string :=
  match p with
  | EmptyString => []
  | String _ p' => p :: suffixes p'
  end.

(** No pattern of [pats], and no end of one, starts [t]: trimming cannot
    cut into [t]. *)
Definition edgeSafe (pats : list string) (t : string) : bool :=
  forallb (fun p =>
    forallb (fun q => Nat.leb (String.length q) (String.length t) && negb (HasPrefix t q))
      (suffixes p)) pats.

(** What enrichment leaves alone in going from [l] to [l']: the identifiers,
    the title, the images already there, and a price that is not 0. *)
Definition keeps (l l' : Listing.t) : Prop :=
  Listing.ID l' = Listing.ID l /\
  Listing.URL l' = Listing.URL l /\
  Listing.CategoryID l' = Listing.CategoryID l /\
  Listing.CategoryURL l' = Listing.CategoryURL l /\
  Listing.Title l' = Listing.Title l /\
  (exists extra, Listing.ImageURLs l' = Listing.ImageURLs l ++ extra) /\
  (Qeq_bool (Price.Value (Listing.Price l)) 0 = false ->
   Listing.Price l' = Listing.Price l).

(** *** Values for the closed examples *)

Definition exampleNow : Time.t := Time.mk 2024 3 1 13 45 10 5 Time.Local.

(** A summary that listing discovery could have produced. *)
Definition exampleListing : Listing.t :=
  Listing.mk "123" "Велосипед" "Горный велосипед"
    (Price.mk 500%Q "RUB" "500 ₽")
    "https://www.avito.ru/item/velosiped_123"
    ["https://img.example/1.jpg"] "Москва" "" "https://www.avito.ru/all/velosipedy"
    (Time.mk 2024 2 20 0 0 0 0 Time.Local)
    {[ "Цвет" := "красный" ]}.

(** Its detail page: another title and price, no description and no
    address, one parameter. *)
Definition exampleDetailPage : DetailPage :=
  {| h1Texts := ["Велосипед горный"];
     detailBodies :=
       [ {| descriptionText := "";
            galleryImages := [ {| img_src := "https://img.example/2.jpg";
                                  img_srcset := ""; img_data_src := "" |} ];
            addressText := "";
            itemPriceText := "900 ₽";
            dateText := "вчера";
            paramTexts := ["Состояние: новое"] |} ] |}.

Definition exampleVisit (url : string) : Visit DetailPage :=
  VisitOK exampleDetailPage.

Definition exampleEnriched : Listing.t :=
  fst (GetListingDetails (L := exampleLib) exampleNow exampleVisit exampleListing).

(** A start page on which the visual grid and the dropdown menu name the
    same URL differently. *)
Definition twoNamesPage : RootPage :=
  {| gridItems := [ {| linkText := "Авто"; linkHref := "/all/transport" |} ];
     dropdownLinks := [ {| linkText := "Транспорт"; linkHref := "/all/transport" |} ];
     miniMenuLinks := [];
     topNavLinks := [];
     serviceItems := [] |}.

(** A start page whose mini-menu holds the same URL twice, first without a
    name. *)
Definition carsPage : RootPage :=
  {| gridItems := [];
     dropdownLinks := [];
     miniMenuLinks := [ {| linkText := ""; linkHref := "/all/cars" |};
                        {| linkText := "Cars"; linkHref := "/all/cars" |} ];
     topNavLinks := [];
     serviceItems := [] |}.

(** *** [handleCatalogPage] and the recursion of [GetListings] (listings.go) *)

(** An item of a catalog container by what the callback reads of it: what
    [ChildAttr("a[href]", "href")] returns for it, and the [href] of every
    [a[href]] inside it, in document order. *)
Record CatalogItem := { ci_child_href : string; ci_link_hrefs : list string }.

(** An item container: the items that each selector finds in it. *)
Record CatalogContainer := { catalogForEach : string -> list CatalogItem }.

(** A catalog page: its item containers, what [ChildAttr("a[href]", "href")]
    returns for each of its catalog cards, and the [href] of every [a[href]]
    of each [body]. *)
Record CatalogPage := {
  itemContainers : list CatalogContainer;
  catalogCards : list string;
  catalogBodies : list (list string)
}.

Definition catalogSelectors : list string :=
  ["div[data-item-id]"; "div.item-wrapper"; "div.catalog-item"; "div.item"].

(** The test [limit > 0 && len(xs) >= limit]. *)
Definition reached {A : Type} (limit : Z) (xs : list A) : bool :=
  (0 <? limit) && (limit <=? Z.of_nat (length xs)).

(** The second pass over the links of an item: the first [href] that holds
    "/item/". *)
Definition pickItemHref (href h : string) : string :=
  if String.eqb href "" then (if Contains h "/item/" then h else href) else href.

(** The links that the last scan passes over. *)
Definition skippedLink (href : string) : bool :=
  Contains href "/favorites" || Contains href "/profile" || Contains href "/auth" ||
  Contains href "/support" || Contains href "/stat".

Section Catalog.
Context {L : GoLib}.
Variable now : Time.t.
Variable visitDetail : string -> Visit DetailPage.
Variable visitCatalog : string -> Visit CatalogPage.
(** What the call [GetListings(url, 1)] inside the loop comes to; [None]
    when it does not come back. *)
Variable getListings : string -> Z -> option (list Listing.t * option error).

(** The callback of [e.ForEach(selector, ...)] in an item container. *)
Definition onCatalogItem (limit : Z) (itemURLs : list string) (s : CatalogItem)
  : list string :=
  if reached limit itemURLs then itemURLs
  else
    let href := ci_child_href s in
    let href :=
      if String.eqb href "" then fold_left pickItemHref (ci_link_hrefs s) href
      else href in
    if negb (String.eqb href "") then itemURLs ++ [normalizeURL href] else itemURLs.

(** The loop over [catalogSelectors] in one container. *)
Fixpoint tryCatalogSelectors (limit : Z) (e : CatalogContainer)
    (selectors : list string) (itemURLs : list string) : list string :=
  match selectors with
  | [] => itemURLs
  | selector :: rest =>
      let itemURLs := fold_left (onCatalogItem limit) (catalogForEach e selector) itemURLs in
      if Nat.ltb 0 (length itemURLs) then itemURLs
      else tryCatalogSelectors limit e rest itemURLs
  end.

Definition onItemsContainer (limit : Z) (itemURLs : list string) (e : CatalogContainer)
  : list string :=
  tryCatalogSelectors limit e catalogSelectors itemURLs.

(** The callback on a catalog card. *)
Definition onCatalogCard (limit : Z) (itemURLs : list string) (href : string)
  : list string :=
  if reached limit itemURLs then itemURLs
  else if negb (String.eqb href "") then itemURLs ++ [normalizeURL href]
  else itemURLs.

(** The two scans of a [body]: the links to item pages, then any link. *)
Definition onItemLink (limit : Z) (itemURLs : list string) (href : string)
  : list string :=
  if reached limit itemURLs then itemURLs
  else if Contains href "/item/" then itemURLs ++ [normalizeURL href]
  else itemURLs.

Definition onAnyLink (limit : Z) (catalogURL : string) (itemURLs : list string)
    (href : string) : list string :=
  if reached limit itemURLs then itemURLs
  else if negb (HasPrefix href "/") && negb (Contains href "avito.ru") then itemURLs
  else if skippedLink href then itemURLs
  else
    let href := normalizeURL href in
    if String.eqb href catalogURL then itemURLs else itemURLs ++ [href].

Definition onCatalogBody (limit : Z) (catalogURL : string) (itemURLs : list string)
    (links : list string) : list string :=
  if Nat.ltb 0 (length itemURLs) then itemURLs
  else
    let itemURLs := fold_left (onItemLink limit) links itemURLs in
    if Nat.eqb (length itemURLs) 0
    then fold_left (onAnyLink limit catalogURL) links itemURLs
    else itemURLs.

(** [itemURLs] once the callbacks have run. *)
Definition collectItemURLs (limit : Z) (catalogURL : string) (page : CatalogPage)
  : list string :=
  let itemURLs := fold_left (onItemsContainer limit) (itemContainers page) [] in
  let itemURLs := fold_left (onCatalogCard limit) (catalogCards page) itemURLs in
  fold_left (onCatalogBody limit catalogURL) (catalogBodies page) itemURLs.

(** The listing that the loop makes of an item URL before it asks for the
    details. *)
Definition itemListing (catalogURL url : string) : Listing.t :=
  Listing.mk (itemID url) "" "" (Price.mk 0%Q "" "") url [] "" "" catalogURL Time.zero ∅.

(** The inner loop over [subListings]. *)
Fixpoint appendUpTo (limit : Z) (listings subListings : list Listing.t)
  : list Listing.t :=
  match subListings with
  | [] => listings
  | listing :: rest =>
      if reached limit listings then listings
      else appendUpTo limit (listings ++ [listing]) rest
  end.

(** The loop over [itemURLs]. *)
Fixpoint processURLs (limit : Z) (catalogURL : string) (itemURLs : list string)
    (listings : list Listing.t) : option (list Listing.t) :=
  match itemURLs with
  | [] => Some listings
  | url :: rest =>
      if reached limit listings then Some listings
      else if Contains url "/item/" then
        let listing := itemListing catalogURL url in
        match GetListingDetails now visitDetail listing with
        | (_, Some _) =>
            processURLs limit catalogURL rest
              (if negb (String.eqb (Listing.ID listing) "") then listings ++ [listing]
               else listings)
        | (enriched, None) => processURLs limit catalogURL rest (listings ++ [enriched])
        end
      else
        match getListings url 1 with
        | None => None
        | Some (_, Some _) => processURLs limit catalogURL rest listings
        | Some (subListings, None) =>
            processURLs limit catalogURL rest (appendUpTo limit listings subListings)
        end
  end.

Definition handleCatalogPage (catalogURL : string) (limit : Z)
  : option (list Listing.t * option error) :=
  match visitCatalog catalogURL with
  | VisitErr err => Some ([], Some ("error visiting catalog page: " +:+ err))
  | VisitOK page =>
      match processURLs limit catalogURL (collectItemURLs limit catalogURL page) [] with
      | Some listings => Some (listings, None)
      | None => None
      end
  end.
End Catalog.

(** [GetListings] with its call of [handleCatalogPage], which calls
    [GetListings] again: the result when the calls nest less than [depth]
    deep, [None] otherwise.  Off the catalog path [GetListings] does not call
    [handleCatalogPage]. *)
Fixpoint GetListingsWithin {L : GoLib} (now : Time.t)
    (visitDetail : string -> Visit DetailPage) (visitList : string -> Visit ListPage)
    (visitCatalog : string -> Visit CatalogPage)
    (depth : nat) (categoryURL : string) (limit : Z)
  : option (list Listing.t * option error) :=
  match depth with
  | O => None
  | S d =>
      if Contains categoryURL "/catalog/" then
        handleCatalogPage now visitDetail visitCatalog
          (GetListingsWithin now visitDetail visitList visitCatalog d) categoryURL limit
      else
        Some (GetListings now visitDetail visitList (fun _ _ => ([], None))
                categoryURL limit)
  end.

(** *** [ParseItemsFromHTML] (listings.go) *)

(** An item of the document by what the code reads of it: the attribute
    [data-item-id] when it has one, the text of the first node that a
    selector finds in it when it finds one, and its [a] elements in document
    order. *)
Record HtmlItem := {
  hi_data_item_id : option string;
  hi_first : string -> option string;
  hi_anchors : list Anchor
}.

(** An [a[href]] of the document: its [href], its text, the text of the
    first title inside it and of the first price inside its parent. *)
Record HtmlAnchor := {
  ha_href : string;
  ha_text : string;
  ha_title : string;
  ha_price : string
}.

(** A parsed document: the items that each selector finds, and its
    [a[href]] elements. *)
Record HtmlDoc := { docFind : string -> list HtmlItem; docLinks : list HtmlAnchor }.

Definition htmlItemSelectors : list string :=
  ["div[data-marker='item']"; "div[data-marker='item-card']"; "div.iva-item-root";
   "div.styles-item-m0DD4"; "div.js-item"; "div.item"; "div.item-card"].

Definition titleSelectors : list string :=
  ["h3[itemprop='name']"; "*[data-marker='item-title']"; "div.title"; "h3.title";
   "a.title"; "div.snippet-title"].

Definition priceSelectors : list string :=
  ["*[data-marker='item-price']"; "span.price-text-_YGDY"; "span.price"; "div.price";
   "span[itemprop='price']"; "div.snippet-price"].

(** [item.Find("a[href*='/item/']").First()]: the [href] of the first [a]
    whose [href] holds "/item/". *)
Fixpoint itemLink (anchors : list Anchor) : option string :=
  match anchors with
  | [] => None
  | a :: rest =>
      match anchorHref a with
      | Some href => if Contains href "/item/" then Some href else itemLink rest
      | None => itemLink rest
      end
  end.

(** The loop over [titleSelectors]: the first selector that finds a node
    gives the title, empty or not. *)
Fixpoint firstTitle (item : HtmlItem) (selectors : list string) : string :=
  match selectors with
  | [] => ""
  | titleSelector :: rest =>
      match hi_first item titleSelector with
      | Some text => TrimSpace text
      | None => firstTitle item rest
      end
  end.

(** The scan of the links for a title. *)
Definition linkTitle (title : string) (a : Anchor) : string :=
  if String.eqb title "" && negb (String.eqb (TrimSpace (anchorText a)) "") then
    match anchorHref a with
    | Some href => if Contains href "/item/" then TrimSpace (anchorText a) else title
    | None => title
    end
  else title.

(** The loop over [priceSelectors]: the first node with a text gives the
    price. *)
Fixpoint firstPrice (item : HtmlItem) (selectors : list string) : Price.t :=
  match selectors with
  | [] => Price.mk 0%Q "" ""
  | priceSelector :: rest =>
      match hi_first item priceSelector with
      | Some text =>
          let priceText := TrimSpace text in
          if negb (String.eqb priceText "") then parsePrice priceText
          else firstPrice item rest
      | None => firstPrice item rest
      end
  end.

Section ParseItems.
Context {L : GoLib}.
(** [goquery.NewDocumentFromReader] on the content: an error or the
    document. *)
Variable NewDocumentFromReader : string -> Visit HtmlDoc.

(** The callback of [items.Each]. *)
Definition onHtmlItem (listings : list Listing.t) (item : HtmlItem) : list Listing.t :=
  let id :=
    match hi_data_item_id item with
    | Some id => id
    | None =>
        match itemLink (hi_anchors item) with
        | Some href => itemID href
        | None => ""
        end
    end in
  let title := firstTitle item titleSelectors in
  let title :=
    if String.eqb title "" then fold_left linkTitle (hi_anchors item) title else title in
  let url :=
    match itemLink (hi_anchors item) with
    | Some href => normalizeURL href
    | None => ""
    end in
  if negb (String.eqb title "") || negb (String.eqb url "")
  then listings ++ [Listing.mk id title "" (firstPrice item priceSelectors) url []
                      "" "" "" Time.zero ∅]
  else listings.

(** The loop over [htmlItemSelectors]; [None] when no selector finds an
    item ([found] stays false). *)
Fixpoint tryHtmlSelectors (doc : HtmlDoc) (selectors : list string)
  : option (list Listing.t) :=
  match selectors with
  | [] => None
  | selector :: rest =>
      let items := docFind doc selector in
      if Nat.ltb 0 (length items) then Some (fold_left onHtmlItem items [])
      else tryHtmlSelectors doc rest
  end.

(** The callback of the scan of all links. *)
Definition onHtmlLink (listings : list Listing.t) (a : HtmlAnchor) : list Listing.t :=
  let href := ha_href a in
  if Contains href "/item/" then
    let title := orElse (TrimSpace (ha_text a)) (TrimSpace (ha_title a)) in
    if String.eqb title "" then listings
    else
      let priceText := TrimSpace (ha_price a) in
      listings ++ [Listing.mk (itemID href) title ""
                     (if negb (String.eqb priceText "") then parsePrice priceText
                      else Price.mk 0%Q "" "")
                     (normalizeURL href) [] "" "" "" Time.zero ∅]
  else listings.

Definition ParseItemsFromHTML (htmlContent : string) : list Listing.t * option error :=
  match NewDocumentFromReader htmlContent with
  | VisitErr err => ([], Some ("error parsing HTML: " +:+ err))
  | VisitOK doc =>
      let '(found, listings) :=
        match tryHtmlSelectors doc htmlItemSelectors with
        | Some listings => (true, listings)
        | None => (false, [])
        end in
      if negb found || Nat.eqb (length listings) 0
      then (fold_left onHtmlLink (docLinks doc) listings, None)
      else (listings, None)
  end.
End ParseItems.

(** *** Predicates of the further statements *)

(** [ys] is [xs] with elements added that satisfy [P], and within a positive
    [limit] if [xs] was. *)
Definition grows {A : Type} (P : A -> Prop) (limit : Z) (xs ys : list A) : Prop :=
  (exists zs, ys = xs ++ zs /\ Forall P zs) /\
  (0 < limit -> Z.of_nat (length xs) <= limit -> Z.of_nat (length ys) <= limit).

Definition notEmpty (s : string) : Prop := s <> "".

(** Where a listing of [handleCatalogPage] comes from: from one of the item
    URLs, whose URL, category URL and ID it has, or from what the nested
    [GetListings] returned for one of the other URLs. *)
Definition fromCatalog (getListings : string -> Z -> option (list Listing.t * option error))
    (catalogURL : string) (itemURLs : list string) (l : Listing.t) : Prop :=
  (In (Listing.URL l) itemURLs /\ Contains (Listing.URL l) "/item/" = true /\
   Listing.CategoryURL l = catalogURL /\ Listing.ID l = itemID (Listing.URL l)) \/
  (exists url subListings,
     In url itemURLs /\ Contains url "/item/" = false /\
     getListings url 1 = Some (subListings, None) /\ In l subListings).

(** A URL that is neither a catalog page nor an item page is one more call
    deep; an item page is none. *)
Definition shallowURL (u : string) : bool :=
  Contains u "/item/" || negb (Contains u "/catalog/").

(** An absolute link to a catalog page of the site, which the last scan of
    [handleCatalogPage] takes. *)
Definition catalogLink (u : string) : bool :=
  Contains u "/catalog/" && negb (Contains u "/item/") &&
  HasPrefix u "http" && Contains u "avito.ru" && negb (skippedLink u).

(** A page that holds nothing but a link to [u]. *)
Definition linksTo (u : string) : CatalogPage :=
  {| itemContainers := []; catalogCards := []; catalogBodies := [[u]] |}.

(** What tells a listing from the others: its ID, its URL and the URL of its
    category. *)
Definition listingKey (l : Listing.t) : string * string * string :=
  (Listing.ID l, Listing.URL l, Listing.CategoryURL l).

(** A listing with a title, found under [categoryURL]. *)
Definition titledIn (categoryURL : string) (l : Listing.t) : Prop :=
  Listing.Title l <> "" /\ Listing.CategoryURL l = categoryURL.

(** What every entry of the category map satisfies: it is filed under its
    own URL, it has a name, and it has no subcategories yet. *)
Definition wellKeyed (categoryMap : gmap string Category.t) : Prop :=
  forall u c, categoryMap !! u = Some c ->
    Category.URL c = u /\ Category.Name c <> "" /\ Category.Subcategories c = [].

(** The subcategories that the category maps of a page give. *)
Definition fromCategoryMaps {L : GoLib} (page : CategoryPage) : list Category.t :=
  fold_left (fun subs links => fold_left onCategoryMapLink links subs)
    (categoryMaps page) [].

(** A subcategory as [getSubcategories] makes it: named, without
    subcategories of its own. *)
Definition namedLeaf (c : Category.t) : Prop :=
  Category.Name c <> "" /\ Category.Subcategories c = [].

(** A listing that carries nothing but an ID, a title, a URL and a price. *)
Definition summaryOnly (l : Listing.t) : Prop :=
  Listing.Description l = "" /\ Listing.ImageURLs l = [] /\
  Listing.Location l = "" /\ Listing.CategoryID l = "" /\
  Listing.CategoryURL l = "" /\ Listing.PublishedAt l = Time.zero /\
  Listing.Attributes l = ∅.

(** A listing as [ParseItemsFromHTML] makes it: with a title or a URL, its
    URL, when it has one, made of a link to an item page. *)
Definition parsedItem {L : GoLib} (l : Listing.t) : Prop :=
  (Listing.Title l <> "" \/ Listing.URL l <> "") /\
  (Listing.URL l = "" \/
   exists href, Contains href "/item/" = true /\ Listing.URL l = normalizeURL href) /\
  summaryOnly l.

(** A listing of the scan of all links: with a title, its URL made of a
    link to an item page, its ID the digits that end the link. *)
Definition linkedItem {L : GoLib} (l : Listing.t) : Prop :=
  Listing.Title l <> "" /\
  exists href, Contains href "/item/" = true /\
    Listing.URL l = normalizeURL href /\ Listing.ID l = itemID href.

(** How long a call that starts in [st] has to sleep: until
    [minRequestInterval] after [lastRequestTime], not at all when that time
    has passed. *)
Definition waitOf (st : limiter) : Z :=
  Z.max 0 (lastRequestTime st + minRequestInterval - clock st).

(** The statements of a call that runs alone and sleeps for [wait]. *)
Definition aloneA (wait : Z) : list action :=
  if 0 <? wait then [StepA; StepA; Tick wait; StepA; StepA] else [StepA; StepA; StepA].

(** No white space at either end. *)
Definition trimmed (s : string) : Prop :=
  leadingSpace s = false /\ trailingSpace s = false.

(** An attribute whose key and value have no white space at either end and
    hold no colon. *)
Definition cleanEntry (key value : string) : Prop :=
  trimmed key /\ trimmed value /\
  countByte ":" key = 0%nat /\ countByte ":" value = 0%nat.

(** An item URL that ends in an ID. *)
Definition hasItemID (url : string) : bool := negb (String.eqb (itemID url) "").

(** *** More values for the closed examples *)

(** A catalog page whose body links to two item pages and to a category
    page. *)
Definition exampleCatalogPage : CatalogPage :=
  {| itemContainers := []; catalogCards := [];
     catalogBodies :=
       [ ["/item/velosiped_123"; "/item/samokat_77"; "/all/velosipedy"] ] |}.

Definition exampleCatalogURL : string := "https://www.avito.ru/catalog/velosipedy".

Definition visitExampleCatalog (url : string) : Visit CatalogPage :=
  VisitOK exampleCatalogPage.

(** A nested call that never comes back. *)
Definition noNested (url : string) (limit : Z)
  : option (list Listing.t * option error) := None.

(** What [handleCatalogPage] returns for the example page with limit 1. *)
Definition exampleCatalogResult : list Listing.t * option error :=
  default ([], None)
    (handleCatalogPage (L := exampleLib) exampleNow exampleVisit visitExampleCatalog
       noNested exampleCatalogURL 1).

(** Two catalog pages that link to each other. *)
Definition catalogA : string := "https://www.avito.ru/catalog/a".
Definition catalogB : string := "https://www.avito.ru/catalog/b".

Definition visitLoop (url : string) : Visit CatalogPage :=
  if String.eqb url catalogA then VisitOK (linksTo catalogB)
  else VisitOK (linksTo catalogA).

Definition noListPage (url : string) : Visit ListPage := VisitErr "offline".

(** The example summary without its title. *)
Definition untitledListing : Listing.t := Listing.withTitle "" exampleListing.

(** A document without item containers, with a link to an item page and a
    link to a help page. *)
Definition exampleDoc : HtmlDoc :=
  {| docFind := fun _ => [];
     docLinks :=
       [ {| ha_href := "/item/velosiped_123"; ha_text := " Велосипед ";
            ha_title := ""; ha_price := "500 ₽" |};
         {| ha_href := "/help"; ha_text := "Помощь"; ha_title := ""; ha_price := "" |} ] |}.

Definition parseExampleDoc (htmlContent : string) : Visit HtmlDoc := VisitOK exampleDoc.

(** One second after a request: a call about to start. *)
Definition oneSecondLater : limiter :=
  {| clock := 1000000000; lastRequestTime := 0; callA := Entered; callB := Entered |}.

(** ** Part II. Properties *)

(** *** Byte strings *)

Lemma app_nil_l_s (s : string) : "" +:+ s = s.
Proof. reflexivity. Qed.

Lemma app_cons_s (c : ascii) (s t : string) :
  String c s +:+ t = String c (s +:+ t).
Proof. reflexivity. Qed.

Lemma app_nil_r_s (s : string) : s +:+ "" = s.
Proof. induction s as [|c s IH]; [reflexivity|]. rewrite app_cons_s, IH. reflexivity. Qed.

Lemma app_assoc_s (a b c : string) : (a +:+ b) +:+ c = a +:+ (b +:+ c).
Proof.
  induction a as [|x a IH]; [reflexivity|].
  rewrite !app_cons_s, IH. reflexivity.
Qed.

Lemma app_eq_nil_s (a b : string) : a +:+ b = "" -> a = "" /\ b = "".
Proof. destruct a; [intros H; split; [reflexivity|exact H]|discriminate]. Qed.

Lemma HasPrefix_nil (s : string) : HasPrefix s "" = true.
Proof. destruct s; reflexivity. Qed.

Lemma HasPrefix_cons (a b : ascii) (s p : string) :
  HasPrefix (String b s) (String a p) = Ascii.eqb a b && HasPrefix s p.
Proof. reflexivity. Qed.

Lemma HasPrefix_app (p r : string) : HasPrefix (p +:+ r) p = true.
Proof.
  induction p as [|c p IH]; [apply HasPrefix_nil|].
  rewrite app_cons_s, HasPrefix_cons, Ascii.eqb_refl, IH. reflexivity.
Qed.

Lemma HasPrefix_inv (s p : string) :
  HasPrefix s p = true -> exists r, s = p +:+ r.
Proof.
  revert s. induction p as [|a p IH]; intros s H.
  - exists s. reflexivity.
  - destruct s as [|b s]; [discriminate|].
    rewrite HasPrefix_cons in H. apply andb_true_iff in H as [Hab Hp].
    apply Ascii.eqb_eq in Hab. subst b.
    destruct (IH s Hp) as [r ->]. exists r. reflexivity.
Qed.

Lemma HasPrefix_mono (x r p : string) :
  HasPrefix x p = true -> HasPrefix (x +:+ r) p = true.
Proof.
  intros H. destruct (HasPrefix_inv _ _ H) as [t ->].
  rewrite app_assoc_s. apply HasPrefix_app.
Qed.

(** A prefix of [b ++ rest] either fits in [b] or runs on into [rest]. *)
Lemma HasPrefix_app_inv (b rest p : string) :
  HasPrefix (b +:+ rest) p = true ->
  HasPrefix b p = true \/ exists q, p = b +:+ q /\ HasPrefix rest q = true.
Proof.
  revert p. induction b as [|c b IH]; intros p H.
  - right. exists p. split; [reflexivity|exact H].
  - destruct p as [|a p]; [left; reflexivity|].
    rewrite app_cons_s, HasPrefix_cons in H.
    apply andb_true_iff in H as [Hac Hp].
    destruct (IH p Hp) as [Hb | [q [-> Hq]]].
    + left. rewrite HasPrefix_cons, Hac, Hb. reflexivity.
    + right. exists q. apply Ascii.eqb_eq in Hac. subst a.
      split; [reflexivity|exact Hq].
Qed.

Lemma Contains_unfold (s sub : string) :
  Contains s sub =
  HasPrefix s sub || match s with EmptyString => false | String _ s' => Contains s' sub end.
Proof. destruct s; reflexivity. Qed.

Lemma Contains_intro (a sub b : string) : Contains (a +:+ sub +:+ b) sub = true.
Proof.
  induction a as [|c a IH].
  - rewrite app_nil_l_s, Contains_unfold, HasPrefix_app. reflexivity.
  - rewrite app_cons_s, Contains_unfold, IH. apply orb_true_r.
Qed.

Lemma Contains_inv (s sub : string) :
  Contains s sub = true -> exists a b, s = a +:+ sub +:+ b.
Proof.
  induction s as [|c s IH]; rewrite Contains_unfold; intros H.
  - rewrite orb_false_r in H. apply HasPrefix_inv in H as [r ->].
    exists "", r. reflexivity.
  - apply orb_true_iff in H as [H|H].
    + apply HasPrefix_inv in H as [r ->]. exists "", r. reflexivity.
    + destruct (IH H) as (a & b & ->). exists (String c a), b. reflexivity.
Qed.

(** Reversal. *)
Lemma rev_app_app (s1 s2 t : string) :
  String.rev_app s1 s2 +:+ t = String.rev_app s1 (s2 +:+ t).
Proof.
  revert s2. induction s1 as [|c s1 IH]; intros s2; simpl; [reflexivity|].
  rewrite IH. reflexivity.
Qed.

Lemma rev_cons_s (c : ascii) (s : string) :
  String.rev (String c s) = String.rev s +:+ String c "".
Proof. unfold String.rev. simpl. rewrite rev_app_app. reflexivity. Qed.

Lemma rev_app_s (a b : string) :
  String.rev (a +:+ b) = String.rev b +:+ String.rev a.
Proof.
  induction a as [|c a IH].
  - rewrite app_nil_l_s. change (String.rev "") with "". rewrite app_nil_r_s. reflexivity.
  - rewrite app_cons_s, !rev_cons_s, IH, app_assoc_s. reflexivity.
Qed.

Lemma rev_involutive_s (s : string) : String.rev (String.rev s) = s.
Proof.
  induction s as [|c s IH]; [reflexivity|].
  rewrite rev_cons_s, rev_app_s, IH. reflexivity.
Qed.


(** *** White space runes *)

Lemma spaceEncodings_tailHigh (p : string) :
  In p spaceEncodings -> tailHigh p = true.
Proof.
  assert (H : forallb tailHigh spaceEncodings = true) by reflexivity.
  rewrite forallb_forall in H. apply H.
Qed.

Lemma spaceWidth_0_intro (s : string) :
  (forall p, In p spaceEncodings -> HasPrefix s p = false) -> spaceWidth s = 0%nat.
Proof.
  intros H. unfold spaceWidth, matchWidth.
  destruct (find (HasPrefix s) spaceEncodings) as [p|] eqn:E; [|reflexivity].
  apply find_some in E as [Hin Hp]. rewrite (H p Hin) in Hp. discriminate.
Qed.

Lemma spaceWidth_0_elim (s p : string) :
  spaceWidth s = 0%nat -> In p spaceEncodings -> HasPrefix s p = false.
Proof.
  unfold spaceWidth, matchWidth. intros H Hin.
  destruct (find (HasPrefix s) spaceEncodings) as [q|] eqn:E.
  - apply find_some in E as [Hq _]. apply spaceEncodings_tailHigh in Hq.
    destruct q; [discriminate Hq | discriminate H].
  - exact (find_none _ _ E p Hin).
Qed.

Lemma spaceWidth_pos_elim (s : string) (w : nat) :
  spaceWidth s = S w ->
  exists p, In p spaceEncodings /\ HasPrefix s p = true /\ String.length p = S w.
Proof.
  unfold spaceWidth, matchWidth.
  destruct (find (HasPrefix s) spaceEncodings) as [q|] eqn:E; [|discriminate].
  apply find_some in E as [Hq Hp]. intros H. exists q. auto.
Qed.

Lemma allBytes_app_r (P : ascii -> bool) (a b : string) :
  allBytes P (a +:+ b) = true -> allBytes P b = true.
Proof.
  induction a as [|c a IH]; [trivial|].
  rewrite app_cons_s. simpl. intros H. apply andb_true_iff in H as [_ H]. auto.
Qed.

(** The bytes that follow a field do not create a white space rune in it,
    as long as they start with an ASCII byte. *)
Lemma spaceWidth_context (b rest : string) :
  spaceWidth b = 0%nat -> b <> "" -> asciiStart rest = true ->
  spaceWidth (b +:+ rest) = 0%nat.
Proof.
  intros Hb Hne Hrest. apply spaceWidth_0_intro. intros p Hin.
  destruct (HasPrefix (b +:+ rest) p) eqn:E; [|reflexivity].
  apply HasPrefix_app_inv in E as [E | (q & -> & Hq)].
  - rewrite (spaceWidth_0_elim _ _ Hb Hin) in E. discriminate.
  - destruct q as [|d q].
    + rewrite app_nil_r_s in Hin.
      pose proof (spaceWidth_0_elim _ _ Hb Hin) as E.
      rewrite <- (app_nil_r_s b) in E at 1. rewrite HasPrefix_app in E. discriminate.
    + destruct rest as [|r rest]; [discriminate|].
      rewrite HasPrefix_cons in Hq. apply andb_true_iff in Hq as [Hdr _].
      apply Ascii.eqb_eq in Hdr. subst r.
      apply spaceEncodings_tailHigh in Hin.
      destruct b as [|c b]; [congruence|].
      rewrite app_cons_s in Hin. simpl in Hin.
      apply allBytes_app_r in Hin. simpl in Hin.
      apply andb_true_iff in Hin as [Hd _]. simpl in Hrest.
      rewrite Hrest in Hd. discriminate.
Qed.

Lemma spaceWidth_mono (x r : string) :
  spaceWidth (x +:+ r) = 0%nat -> spaceWidth x = 0%nat.
Proof.
  intros H. apply spaceWidth_0_intro. intros p Hin.
  destruct (HasPrefix x p) eqn:E; [|reflexivity].
  apply (HasPrefix_mono x r) in E.
  rewrite (spaceWidth_0_elim _ _ H Hin) in E. discriminate.
Qed.

Lemma solid_cons (c : ascii) (f : string) :
  solid (String c f) = Nat.eqb (spaceWidth (String c f)) 0 && solid f.
Proof. reflexivity. Qed.

(** *** [strings.Fields] and [strings.Join] *)

Lemma fieldsGo_cons0 (cur : string) (c : ascii) (s : string) :
  fieldsGo 0 cur (String c s) =
  match spaceWidth (String c s) with
  | S w => emit cur (fieldsGo w "" s)
  | O => fieldsGo 0 (cur +:+ String c "") s
  end.
Proof. reflexivity. Qed.

Lemma spaceWidth_space (rest : string) : spaceWidth (String " " rest) = 1%nat.
Proof. reflexivity. Qed.

Lemma fieldsGo_solid (f rest cur : string) :
  solid f = true -> asciiStart rest = true ->
  fieldsGo 0 cur (f +:+ rest) = fieldsGo 0 (cur +:+ f) rest.
Proof.
  revert cur. induction f as [|c f IH]; intros cur Hf Hr.
  - rewrite app_nil_r_s. reflexivity.
  - rewrite solid_cons in Hf. apply andb_true_iff in Hf as [Hw Hf].
    apply Nat.eqb_eq in Hw.
    pose proof (spaceWidth_context (String c f) rest Hw ltac:(discriminate) Hr) as Hc.
    rewrite app_cons_s in Hc |- *. rewrite fieldsGo_cons0, Hc.
    rewrite (IH _ Hf Hr), app_assoc_s. reflexivity.
Qed.

Lemma Join_cons (f : string) (fs : list string) :
  Join (f :: fs) " " = f +:+ sepTail fs.
Proof. destruct fs; simpl; [rewrite app_nil_r_s|]; reflexivity. Qed.

Lemma asciiStart_sepTail (fs : list string) : asciiStart (sepTail fs) = true.
Proof. destruct fs; reflexivity. Qed.

Lemma isField_inv (f : string) : isField f = true -> f <> "" /\ solid f = true.
Proof.
  unfold isField. intros H. apply andb_true_iff in H as [Hne Hs]. split; [|exact Hs].
  intros ->. discriminate Hne.
Qed.

Lemma emit_nonempty (cur : string) (rest : list string) :
  cur <> "" -> emit cur rest = cur :: rest.
Proof. destruct cur; [congruence|reflexivity]. Qed.

(** Splitting a joined list of fields gives the fields back. *)
Lemma Fields_Join (fs : list string) :
  Forall (fun f => isField f = true) fs -> Fields (Join fs " ") = fs.
Proof.
  unfold Fields. induction 1 as [|f fs Hf Hfs IH]; [reflexivity|].
  apply isField_inv in Hf as [Hne Hs].
  rewrite Join_cons, (fieldsGo_solid _ _ _ Hs (asciiStart_sepTail fs)), app_nil_l_s.
  destruct fs as [|g fs]; unfold sepTail.
  - simpl. apply emit_nonempty, Hne.
  - rewrite app_cons_s, app_nil_l_s.
    rewrite fieldsGo_cons0, spaceWidth_space, IH. apply emit_nonempty, Hne.
Qed.

Lemma solidIn_solid (cur rest : string) : solidIn cur rest = true -> solid cur = true.
Proof.
  induction cur as [|c cur IH]; [reflexivity|].
  simpl solidIn. rewrite solid_cons. intros H.
  apply andb_true_iff in H as [Hw H]. apply Nat.eqb_eq in Hw.
  apply spaceWidth_mono in Hw. rewrite Hw, (IH H). reflexivity.
Qed.

Lemma solidIn_snoc (cur : string) (c : ascii) (s : string) :
  solidIn cur (String c s) = true -> spaceWidth (String c s) = 0%nat ->
  solidIn (cur +:+ String c "") s = true.
Proof.
  intros H Hc. induction cur as [|d cur IH].
  - simpl. change (String c "" +:+ s) with (String c s). rewrite Hc. reflexivity.
  - simpl solidIn in H. apply andb_true_iff in H as [Hw H].
    rewrite app_cons_s. simpl solidIn. rewrite <- app_cons_s, app_assoc_s.
    change (String c "" +:+ s) with (String c s). rewrite Hw. apply (IH H).
Qed.

Lemma Forall_emit (P : string -> Prop) (cur : string) (rest : list string) :
  (cur <> "" -> P cur) -> Forall P rest -> Forall P (emit cur rest).
Proof.
  intros Hc Hr. destruct cur; [exact Hr|].
  simpl. constructor; [apply Hc; discriminate | exact Hr].
Qed.

Lemma fieldsGo_fields (s : string) (skip : nat) (cur : string) :
  (skip = 0%nat -> solidIn cur s = true) -> (skip <> 0%nat -> cur = "") ->
  Forall (fun f => isField f = true) (fieldsGo skip cur s).
Proof.
  assert (Hfield : forall cur rest, solidIn cur rest = true -> cur <> "" -> isField cur = true).
  { intros c r Hs Hne. unfold isField. rewrite (solidIn_solid _ _ Hs).
    destruct c; [congruence|reflexivity]. }
  revert skip cur. induction s as [|c s IH]; intros skip cur H0 Hk.
  - simpl. apply Forall_emit; [|constructor].
    destruct skip as [|k]; [apply (Hfield cur ""), H0; reflexivity|].
    rewrite Hk; [congruence|discriminate].
  - destruct skip as [|k].
    + specialize (H0 eq_refl). rewrite fieldsGo_cons0.
      destruct (spaceWidth (String c s)) as [|w] eqn:E.
      * apply IH; [intros _; apply solidIn_snoc; assumption|congruence].
      * apply Forall_emit; [apply (Hfield _ _ H0)|].
        apply IH; [reflexivity|reflexivity].
    + rewrite Hk by discriminate. simpl. apply IH; [reflexivity|reflexivity].
Qed.

Lemma Fields_fields (s : string) : Forall (fun f => isField f = true) (Fields s).
Proof. apply fieldsGo_fields; [reflexivity|congruence]. Qed.

Lemma ReplaceAll_cons (c old : ascii) (new s : string) :
  ReplaceAll (String c s) old new =
  if Ascii.eqb c old then new +:+ ReplaceAll s old new
  else String c (ReplaceAll s old new).
Proof. reflexivity. Qed.

Lemma solid_no_newline (f r new : string) :
  solid f = true ->
  ReplaceAll (f +:+ r) "010"%char new = f +:+ ReplaceAll r "010"%char new.
Proof.
  induction f as [|c f IH]; intros Hf; [reflexivity|].
  rewrite solid_cons in Hf. apply andb_true_iff in Hf as [Hw Hf].
  apply Nat.eqb_eq in Hw.
  assert (Hin : In (String "010"%char "") spaceEncodings) by (simpl; tauto).
  pose proof (spaceWidth_0_elim _ _ Hw Hin) as E.
  rewrite HasPrefix_cons, HasPrefix_nil, andb_true_r in E.
  rewrite !app_cons_s, ReplaceAll_cons.
  rewrite Ascii.eqb_sym, E, (IH Hf). reflexivity.
Qed.

Lemma ReplaceAll_Join (fs : list string) :
  Forall (fun f => isField f = true) fs ->
  ReplaceAll (Join fs " ") "010"%char " " = Join fs " ".
Proof.
  induction 1 as [|f fs Hf Hfs IH]; [reflexivity|].
  apply isField_inv in Hf as [_ Hs].
  rewrite Join_cons, (solid_no_newline _ _ _ Hs). f_equal.
  destruct fs as [|g fs]; [reflexivity|].
  unfold sepTail. rewrite app_cons_s, app_nil_l_s, ReplaceAll_cons, IH.
  reflexivity.
Qed.

(** No white space at the start of a joined list of fields. *)
Lemma spaceWidth_Join (fs : list string) :
  Forall (fun f => isField f = true) fs -> spaceWidth (Join fs " ") = 0%nat.
Proof.
  destruct 1 as [|f fs Hf Hfs]; [reflexivity|].
  apply isField_inv in Hf as [Hne Hs]. rewrite Join_cons.
  apply spaceWidth_context; [|exact Hne|apply asciiStart_sepTail].
  destruct f; [congruence|]. rewrite solid_cons in Hs.
  apply andb_true_iff in Hs as [Hw _]. apply Nat.eqb_eq, Hw.
Qed.

Lemma space_is_only_prefix (p r : string) :
  In p spaceEncodings -> HasPrefix (String " " r) p = true -> p = " ".
Proof.
  unfold spaceEncodings. simpl In. intros Hin Hp.
  repeat (destruct Hin as [<-|Hin]; [first [reflexivity | discriminate Hp]|]).
  contradiction.
Qed.

Lemma onlyInnerSpaces_solid (f R : string) :
  solid f = true -> asciiStart R = true ->
  onlyInnerSpaces R -> onlyInnerSpaces (f +:+ R).
Proof.
  intros Hf HR HP. induction f as [|c f IH]; [exact HP|].
  rewrite solid_cons in Hf. apply andb_true_iff in Hf as [Hw Hf].
  apply Nat.eqb_eq in Hw.
  intros a p b E Hin. destruct a as [|c' a].
  - rewrite app_nil_l_s in E.
    pose proof (spaceWidth_context _ R Hw ltac:(discriminate) HR) as Hc.
    pose proof (spaceWidth_0_elim _ _ Hc Hin) as Hp.
    rewrite E, HasPrefix_app in Hp. discriminate.
  - rewrite !app_cons_s in E. injection E as _ E. exact (IH Hf a p b E Hin).
Qed.

Lemma onlyInnerSpaces_Join (fs : list string) :
  Forall (fun f => isField f = true) fs -> onlyInnerSpaces (Join fs " ").
Proof.
  induction 1 as [|f fs Hf Hfs IH].
  - intros a p b E Hin. symmetry in E.
    apply app_eq_nil_s in E as [_ E]. apply app_eq_nil_s in E as [-> _].
    apply spaceEncodings_tailHigh in Hin. discriminate.
  - apply isField_inv in Hf as [Hne Hs]. rewrite Join_cons.
    apply onlyInnerSpaces_solid; [exact Hs|apply asciiStart_sepTail|].
    destruct fs as [|g fs].
    + intros a p b E Hin. symmetry in E.
      apply app_eq_nil_s in E as [_ E]. apply app_eq_nil_s in E as [-> _].
      apply spaceEncodings_tailHigh in Hin. discriminate.
    + unfold sepTail. rewrite app_cons_s, app_nil_l_s.
      intros a p b E Hin. destruct a as [|c a].
      * rewrite app_nil_l_s in E.
        assert (Hp : HasPrefix (String " " (Join (g :: fs) " ")) p = true)
          by (rewrite E; apply HasPrefix_app).
        pose proof (space_is_only_prefix _ _ Hin Hp) as ->.
        rewrite app_cons_s, app_nil_l_s in E. injection E as E. subst b.
        split; [reflexivity|].
        split; [|exact (spaceWidth_Join (g :: fs) Hfs)].
        inversion Hfs as [|? ? Hg _]. apply isField_inv in Hg as [Hg _].
        change (Join (g :: fs) " " <> ""). rewrite Join_cons.
        destruct g; [congruence|discriminate].
      * rewrite app_cons_s in E. injection E as _ E. exact (IH a p b E Hin).
Qed.

(** *** [strings.TrimSpace] on a string without outer white space *)

Lemma trimGo_0 (pats : list string) (s : string) :
  matchWidth pats s = 0%nat -> trimGo pats 0 s = s.
Proof. destruct s; [reflexivity|]. simpl. intros ->. reflexivity. Qed.

Lemma HasSuffix_inv (s p : string) :
  HasSuffix s p = true -> exists a, s = a +:+ p.
Proof.
  unfold HasSuffix. intros H. apply HasPrefix_inv in H as [r H].
  exists (String.rev r).
  rewrite <- (rev_involutive_s s), H, rev_app_s, rev_involutive_s. reflexivity.
Qed.

Lemma no_suffix_matchWidth (s : string) :
  (forall p, In p spaceEncodings -> HasSuffix s p = false) ->
  matchWidth spaceEncodingsRev (String.rev s) = 0%nat.
Proof.
  intros H. unfold matchWidth.
  destruct (find (HasPrefix (String.rev s)) spaceEncodingsRev) as [q|] eqn:E;
    [|reflexivity].
  apply find_some in E as [Hq Hp].
  change spaceEncodingsRev with (map String.rev spaceEncodings) in Hq.
  apply in_map_iff in Hq as (p & <- & Hin).
  specialize (H p Hin). unfold HasSuffix in H. congruence.
Qed.

Lemma TrimSpace_id (s : string) :
  spaceWidth s = 0%nat ->
  (forall p, In p spaceEncodings -> HasSuffix s p = false) ->
  TrimSpace s = s.
Proof.
  intros Hl Hr. unfold TrimSpace, TrimLeftSpace, TrimRightSpace.
  rewrite (trimGo_0 _ s Hl), (trimGo_0 _ _ (no_suffix_matchWidth s Hr)).
  apply rev_involutive_s.
Qed.

Lemma onlyInnerSpaces_no_suffix (s p : string) :
  onlyInnerSpaces s -> In p spaceEncodings -> HasSuffix s p = false.
Proof.
  intros HP Hin. destruct (HasSuffix s p) eqn:E; [|reflexivity].
  apply HasSuffix_inv in E as [a E].
  rewrite <- (app_nil_r_s p) in E.
  destruct (HP a p "" E Hin) as (_ & Hb & _). congruence.
Qed.

Lemma TrimSpace_Join (fs : list string) :
  Forall (fun f => isField f = true) fs -> TrimSpace (Join fs " ") = Join fs " ".
Proof.
  intros H. apply TrimSpace_id; [apply spaceWidth_Join, H|].
  intros p Hin. apply onlyInnerSpaces_no_suffix; [apply onlyInnerSpaces_Join, H|exact Hin].
Qed.

(** [cleanText] returns the fields of its input joined by single spaces. *)
Lemma cleanText_Join (x : string) :
  cleanText x = Join (Fields (ReplaceAll x "010"%char " ")) " ".
Proof. unfold cleanText. apply TrimSpace_Join, Fields_fields. Qed.

(** *** C2: [cleanText] *)

Example cleanText_ex2 :
  cleanText (encodeRune 0xA0 +:+ "Авто  и" +:+ encodeRune 0x2003 +:+ " мото ") = "Авто и мото".
Proof. vm_compute. reflexivity. Qed.

(** C2.  For every input [x], [cleanText x] does not start with a white space
    rune, does not end with one, has no two adjacent white space runes, and
    cleaning it again changes nothing. *)
Theorem cleanText_clean_idempotent (x : string) :
  leadingSpace (cleanText x) = false /\
  trailingSpace (cleanText x) = false /\
  doubleSpace (cleanText x) = false /\
  cleanText (cleanText x) = cleanText x.
Proof.
  rewrite (cleanText_Join x).
  pose proof (Fields_fields (ReplaceAll x "010"%char " ")) as Hfs.
  set (fs := Fields (ReplaceAll x "010"%char " ")) in *.
  pose proof (spaceWidth_Join fs Hfs) as Hw.
  pose proof (onlyInnerSpaces_Join fs Hfs) as Ho.
  repeat split.
  - unfold leadingSpace.
    destruct (existsb (HasPrefix (Join fs " ")) spaceEncodings) eqn:E; [|reflexivity].
    apply existsb_exists in E as (p & Hin & Hp).
    rewrite (spaceWidth_0_elim _ _ Hw Hin) in Hp. discriminate.
  - unfold trailingSpace.
    destruct (existsb (HasSuffix (Join fs " ")) spaceEncodings) eqn:E; [|reflexivity].
    apply existsb_exists in E as (p & Hin & Hp).
    rewrite (onlyInnerSpaces_no_suffix _ _ Ho Hin) in Hp. discriminate.
  - unfold doubleSpace.
    match goal with |- ?e = false => destruct e eqn:E; [|reflexivity] end.
    apply existsb_exists in E as (p1 & Hin1 & E).
    apply existsb_exists in E as (p2 & Hin2 & E).
    apply Contains_inv in E as (a & b & E).
    rewrite app_assoc_s in E.
    destruct (Ho a p1 (p2 +:+ b) E Hin1) as (_ & _ & Hb).
    pose proof (spaceWidth_0_elim _ _ Hb Hin2) as Hp.
    rewrite HasPrefix_app in Hp. discriminate.
  - rewrite cleanText_Join, (ReplaceAll_Join fs Hfs), (Fields_Join fs Hfs).
    reflexivity.
Qed.

(** *** C1: [parsePrice] *)

Lemma ReplaceAll_strip (s : string) :
  ReplaceAll s " " "" = stripBytes isSpaceByte s.
Proof.
  induction s as [|c s IH]; [reflexivity|].
  rewrite ReplaceAll_cons. simpl stripBytes. unfold isSpaceByte at 1.
  rewrite IH. destruct (Ascii.eqb c " "); reflexivity.
Qed.

Lemma ReplaceAll_commas (s : string) :
  ReplaceAll s "," "." = commasToDots s.
Proof.
  induction s as [|c s IH]; [reflexivity|].
  rewrite ReplaceAll_cons. simpl commasToDots.
  rewrite IH. destruct (Ascii.eqb c ","); reflexivity.
Qed.

Lemma isRegexSpace_cases (c : ascii) :
  isRegexSpace c = true ->
  c = "009"%char \/ c = "010"%char \/ c = "012"%char \/ c = "013"%char \/ c = " "%char.
Proof.
  unfold isRegexSpace. simpl. rewrite orb_false_r, !orb_true_iff, !Ascii.eqb_eq. tauto.
Qed.

Lemma isOtherSpace_facts (c : ascii) :
  isOtherSpace c = true ->
  isSpaceByte c = false /\ Ascii.eqb c "," = false /\ notFloatByte c = true.
Proof.
  unfold isOtherSpace. intros H. apply andb_true_iff in H as [Hr Hs].
  apply negb_true_iff in Hs. split; [exact Hs|].
  apply isRegexSpace_cases in Hr as [->|[->|[->|[->| ->]]]]; split; try reflexivity.
  all: discriminate Hs.
Qed.

Lemma priceClass_split (c : ascii) :
  priceClass c = specPriceClass isSpaceByte c || isOtherSpace c.
Proof.
  unfold priceClass, specPriceClass, isOtherSpace.
  destruct (isSpaceByte c) eqn:Es.
  - unfold isSpaceByte in Es. apply Ascii.eqb_eq in Es. subst c. reflexivity.
  - destruct (isDigit c), (isRegexSpace c), (Ascii.eqb c ","), (Ascii.eqb c "."); reflexivity.
Qed.

Lemma takeWhile_same_run (s : string) :
  anyByte isOtherSpace (takeWhile priceClass s) = false ->
  takeWhile (specPriceClass isSpaceByte) s = takeWhile priceClass s.
Proof.
  induction s as [|c s IH]; [reflexivity|]. simpl.
  rewrite (priceClass_split c).
  destruct (specPriceClass isSpaceByte c) eqn:Ec; simpl.
  - intros H. apply orb_false_iff in H as [_ H]. rewrite (IH H). reflexivity.
  - destruct (isOtherSpace c) eqn:Eo; simpl; [|reflexivity].
    rewrite Eo. discriminate.
Qed.

(** Without a tab, newline, form feed or carriage return in the match, the
    regexp finds the run of digits, spaces, commas and dots. *)
Lemma FindString_same_run (raw : string) :
  anyByte isOtherSpace (priceRegex_FindString raw) = false ->
  takeWhile (specPriceClass isSpaceByte)
    (dropWhile (fun c => negb (specPriceClass isSpaceByte c)) raw)
  = priceRegex_FindString raw.
Proof.
  unfold priceRegex_FindString. induction raw as [|c raw IH]; [reflexivity|].
  simpl dropWhile. rewrite (priceClass_split c).
  destruct (specPriceClass isSpaceByte c) eqn:Ec; simpl negb; cbv iota.
  - apply takeWhile_same_run.
  - destruct (isOtherSpace c) eqn:Eo; simpl negb; cbv iota; [|exact IH].
    simpl takeWhile. rewrite (priceClass_split c), Ec, Eo. simpl.
    rewrite Eo. discriminate.
Qed.

Lemma readDigits_keeps_bad (s : string) (m : N) (n : nat) :
  anyByte notFloatByte s = true ->
  anyByte notFloatByte (snd (readDigits m n s)) = true.
Proof.
  revert m n. induction s as [|c s IH]; intros m n H; [discriminate|].
  simpl readDigits. destruct (isDigit c) eqn:Ed; [|exact H].
  apply IH. simpl in H. unfold notFloatByte in H at 1. rewrite Ed in H. exact H.
Qed.

Lemma ParseFloat_bad_byte (s : string) :
  anyByte notFloatByte s = true -> ParseFloat s = None.
Proof.
  intros H. unfold ParseFloat.
  pose proof (readDigits_keeps_bad s 0%N 0%nat H) as H1.
  destruct (readDigits 0%N 0%nat s) as [[m1 n1] rest]. simpl in H1.
  assert (Hrest : forall r, anyByte notFloatByte r = true -> negb (String.eqb r "") = true).
  { intros [|? ?] Hr; [discriminate|reflexivity]. }
  destruct rest as [|c r]; [discriminate|].
  destruct (Ascii.eqb c ".") eqn:Ec.
  - apply Ascii.eqb_eq in Ec. subst c.
    assert (H2 : anyByte notFloatByte r = true) by exact H1.
    pose proof (readDigits_keeps_bad r m1 0%nat H2) as H3.
    destruct (readDigits m1 0%nat r) as [[m2 n2] rest']. simpl in H3.
    rewrite (Hrest _ H3). reflexivity.
  - assert (E : match c with
                | "."%char => readDigits m1 0%nat r
                | _ => (m1, 0%nat, String c r)
                end = (m1, 0%nat, String c r)).
    { destruct c as [[] [] [] [] [] [] [] []]; first [reflexivity | discriminate Ec]. }
    rewrite E. reflexivity.
Qed.

Lemma otherSpace_survives (run : string) :
  anyByte isOtherSpace run = true ->
  anyByte notFloatByte (commasToDots (stripBytes isSpaceByte run)) = true.
Proof.
  induction run as [|c run IH]; [discriminate|]. simpl.
  destruct (isOtherSpace c) eqn:Eo; simpl.
  - intros _. destruct (isOtherSpace_facts c Eo) as (Hs & Hc & Hb).
    rewrite Hs. simpl. rewrite Hc, Hb. reflexivity.
  - intros H. destruct (isSpaceByte c); [apply (IH H)|].
    simpl. rewrite (IH H). apply orb_true_r.
Qed.

Lemma parsePrice_Value (raw : string) :
  Price.Value (parsePrice raw) =
  match ParseFloat (commasToDots (stripBytes isSpaceByte (priceRegex_FindString raw))) with
  | Some v => v
  | None => 0%Q
  end.
Proof.
  unfold parsePrice. simpl. rewrite ReplaceAll_strip, ReplaceAll_commas.
  destruct (priceRegex_FindString raw); reflexivity.
Qed.

Example parsePrice_free :
  parsePrice "бесплатно" =
    {| Price.Value := 0%Q; Price.Currency := "RUB"; Price.Text := "бесплатно" |}.
Proof. vm_compute. reflexivity. Qed.

(** C1.  [parsePrice] keeps the text and reads the currency as the claim
    says, and for every text whose first run of digits, white space, commas
    and dots holds no tab, newline, form feed or carriage return it reads the
    value as the claim says: the run without its spaces, commas turned into
    dots, read as a float, 0 when that fails; "1 234,50 $" is 1234.5 USD.
    The claim fails where the run holds one of those four: the pattern takes
    them into the run, the clean-up takes only the space byte out of it, the
    read fails and the value is 0.  So "1 200<TAB>₽" and "<LF> 1 500<LF> ₽"
    get the value 0, where the procedure of the claim gives 1200 and 1500,
    whether a space is the space byte only or any white space. *)
Theorem parsePrice_spec :
  (forall raw,
     Price.Text (parsePrice raw) = raw /\
     Price.Currency (parsePrice raw) =
       (if Contains raw "$" then "USD" else if Contains raw "€" then "EUR" else "RUB") /\
     (anyByte isOtherSpace (priceRegex_FindString raw) = false ->
      Price.Value (parsePrice raw) = spec_priceValue isSpaceByte raw) /\
     (anyByte isOtherSpace (priceRegex_FindString raw) = true ->
      Price.Value (parsePrice raw) = 0%Q)) /\
  parsePrice "1 234,50 $" =
    {| Price.Value := Qred (123450 # 100); Price.Currency := "USD";
       Price.Text := "1 234,50 $" |} /\
  Price.Value (parsePrice ("1 200" +:+ String "009" "₽")) = 0%Q /\
  spec_priceValue isSpaceByte ("1 200" +:+ String "009" "₽") = 1200%Q /\
  spec_priceValue isRegexSpace ("1 200" +:+ String "009" "₽") = 1200%Q /\
  Price.Value (parsePrice (String "010" " 1 500" +:+ String "010" " ₽")) = 0%Q /\
  spec_priceValue isSpaceByte (String "010" " 1 500" +:+ String "010" " ₽") = 1500%Q /\
  spec_priceValue isRegexSpace (String "010" " 1 500" +:+ String "010" " ₽") = 1500%Q.
Proof.
  split; [|vm_compute; repeat split].
  intros raw. split; [reflexivity|]. split; [reflexivity|].
  rewrite parsePrice_Value. split; intros E.
  - unfold spec_priceValue. rewrite (FindString_same_run raw E). reflexivity.
  - rewrite (ParseFloat_bad_byte _ (otherSpace_survives _ E)). reflexivity.
Qed.

(** *** C3: [normalizeURL] *)

Section NormalizeProperties.
Context {L : GoLib}.

Lemma normalizeURL_http (href : string) :
  HasPrefix href "http" = true -> normalizeURL href = href.
Proof. unfold normalizeURL. intros ->. reflexivity. Qed.

Lemma normalizeURL_fixed (href : string) :
  normalizeURL href = href \/ HasPrefix (normalizeURL href) "http" = true.
Proof.
  unfold normalizeURL.
  destruct (HasPrefix href "http"); [left; reflexivity|].
  destruct (HasPrefix href "//"); [right; reflexivity|].
  destruct (HasPrefix href "/"); [right; reflexivity|].
  destruct (url_Parse href) as [u|]; [|right; reflexivity].
  destruct (negb (URL.IsAbs u)); [right; reflexivity|left; reflexivity].
Qed.

(** C3.  [normalizeURL] is idempotent and gives a non-empty result for a
    non-empty href; it puts "https:" before an href that starts with "//" and
    the base origin before one that starts with "/"; any other href that does
    not start with the bytes "http" it returns unchanged when [url.Parse]
    finds it absolute and joins to the base origin with a "/" otherwise, as
    the claim says.  The claim fails at the first test, which looks for the
    bytes "http" and not for a scheme: every href that starts with them comes
    back unchanged, so "httpx", which has no scheme and is relative, stays
    "httpx", where the claim, like the last branch of the function, gives
    "https://www.avito.ru/httpx". *)
Theorem normalizeURL_spec :
  (forall href,
     normalizeURL (normalizeURL href) = normalizeURL href /\
     (href <> "" -> normalizeURL href <> "") /\
     normalizeURL href =
       (if HasPrefix href "http" then href
        else if HasPrefix href "//" then "https:" +:+ href
        else if HasPrefix href "/" then baseURL +:+ href
        else if match url_Parse href with
                | Some u => URL.IsAbs u
                | None => false
                end
             then href
             else baseURL +:+ "/" +:+ href)) /\
  (forall href, HasPrefix href "http" = true -> normalizeURL href = href) /\
  getScheme "httpx" = "" /\
  spec_normalizeURL "httpx" = "https://www.avito.ru/httpx" /\
  normalizeURL "httpx" = "httpx".
Proof.
  split; [|split; [exact normalizeURL_http|repeat split]].
  intros href. split; [|split].
  - destruct (normalizeURL_fixed href) as [E|E].
    + rewrite E. exact E.
    + apply normalizeURL_http, E.
  - intros Hne. unfold normalizeURL.
    destruct (HasPrefix href "http"); [exact Hne|].
    destruct (HasPrefix href "//"); [discriminate|].
    destruct (HasPrefix href "/"); [discriminate|].
    destruct (url_Parse href) as [u|]; [|discriminate].
    destruct (negb (URL.IsAbs u)); [discriminate|exact Hne].
  - unfold normalizeURL.
    destruct (HasPrefix href "http"); [reflexivity|].
    destruct (HasPrefix href "//"); [reflexivity|].
    destruct (HasPrefix href "/"); [reflexivity|].
    destruct (url_Parse href) as [u|]; [|reflexivity].
    destruct (URL.IsAbs u); reflexivity.
Qed.

End NormalizeProperties.

(** *** C10: the predefined category list *)

(** C10.  The predefined [GetCategories] is a constant: its error is nil,
    its list has 11 categories, each with a name and at least one
    subcategory, and every URL in the tree starts with
    "https://www.avito.ru". *)
Theorem fallback_GetCategories_wellformed :
  snd Fallback.GetCategories = None /\
  length (fst Fallback.GetCategories) = 11%nat /\
  forallb (fun c => negb (String.eqb (Category.Name c) "") &&
                    Nat.leb 1 (length (Category.Subcategories c)))
    (fst Fallback.GetCategories) = true /\
  forallb (fun u => HasPrefix u "https://www.avito.ru")
    (flat_map allURLs (fst Fallback.GetCategories)) = true.
Proof. vm_compute. repeat split. Qed.

(** *** [strings.TrimSpace] keeps a word that holds no white space *)

Lemma In_suffixes (p1 q : string) : q <> "" -> In q (suffixes (p1 +:+ q)).
Proof.
  intros Hq. induction p1 as [|c p1 IH].
  - rewrite app_nil_l_s. destruct q; [congruence|left; reflexivity].
  - rewrite app_cons_s. right. exact IH.
Qed.

Lemma HasPrefix_short (t y q : string) :
  (String.length q <= String.length t)%nat -> HasPrefix (t +:+ y) q = HasPrefix t q.
Proof.
  revert t. induction q as [|a q IH]; intros t Hlen; [reflexivity|].
  destruct t as [|b t]; [simpl in Hlen; lia|].
  rewrite app_cons_s, !HasPrefix_cons, IH; [reflexivity|simpl in Hlen; lia].
Qed.

Lemma HasPrefix_length (a p : string) :
  HasPrefix a p = true -> (String.length p <= String.length a)%nat.
Proof.
  revert a. induction p as [|c p IH]; intros a H; [simpl; lia|].
  destruct a as [|d a]; [discriminate|].
  rewrite HasPrefix_cons in H. apply andb_true_iff in H as [_ H].
  specialize (IH a H). simpl. lia.
Qed.

Lemma length_app_s (a b : string) :
  String.length (a +:+ b) = (String.length a + String.length b)%nat.
Proof. induction a as [|c a IH]; [reflexivity|]. rewrite app_cons_s. simpl. rewrite IH. reflexivity. Qed.

Lemma edgeSafe_elim (pats : list string) (t p p1 q y : string) :
  edgeSafe pats t = true -> In p pats -> p = p1 +:+ q -> q <> "" ->
  HasPrefix (t +:+ y) q = false.
Proof.
  intros He Hin -> Hq. unfold edgeSafe in He.
  rewrite forallb_forall in He. specialize (He _ Hin).
  rewrite forallb_forall in He. specialize (He q (In_suffixes p1 q Hq)).
  apply andb_true_iff in He as [Hlen Hp]. apply Nat.leb_le in Hlen.
  rewrite (HasPrefix_short _ _ _ Hlen). apply negb_true_iff, Hp.
Qed.

Lemma matchWidth_pos_elim (pats : list string) (s : string) (w : nat) :
  matchWidth pats s = S w ->
  exists p, In p pats /\ HasPrefix s p = true /\ String.length p = S w.
Proof.
  unfold matchWidth. destruct (find (HasPrefix s) pats) as [q|] eqn:E; [|discriminate].
  apply find_some in E as [Hq Hp]. intros H. exists q. auto.
Qed.

Lemma matchWidth_edgeSafe (pats : list string) (t b : string) :
  edgeSafe pats t = true -> matchWidth pats (t +:+ b) = 0%nat.
Proof.
  intros He. destruct (matchWidth pats (t +:+ b)) as [|w] eqn:E; [reflexivity|].
  apply matchWidth_pos_elim in E as (p & Hin & Hp & Hlen).
  assert (Hne : p <> "") by (intros ->; discriminate Hlen).
  rewrite (edgeSafe_elim pats t p "" p b He Hin eq_refl Hne) in Hp. discriminate.
Qed.

Lemma trimGo_keeps (pats : list string) (t b : string) :
  edgeSafe pats t = true ->
  forall a skip, (skip <= String.length a)%nat ->
  exists a2, trimGo pats skip (a +:+ t +:+ b) = a2 +:+ t +:+ b.
Proof.
  intros He. induction a as [|c a IH]; intros skip Hskip.
  - exists "". simpl in Hskip. assert (skip = 0%nat) as -> by lia.
    rewrite !app_nil_l_s. apply trimGo_0, matchWidth_edgeSafe, He.
  - destruct skip as [|k].
    + destruct (matchWidth pats (String c a +:+ t +:+ b)) as [|w] eqn:E.
      * exists (String c a). apply trimGo_0, E.
      * rewrite app_cons_s in E |- *. simpl trimGo. rewrite E. apply IH.
        rewrite <- app_cons_s in E.
        apply matchWidth_pos_elim in E as (p & Hin & Hp & Hlen).
        apply HasPrefix_app_inv in Hp as [Hp | (q & Hpq & Hq)].
        -- apply HasPrefix_length in Hp. simpl in Hp. lia.
        -- destruct q as [|d q].
           ++ rewrite app_nil_r_s in Hpq. subst p. simpl in Hlen. lia.
           ++ rewrite (edgeSafe_elim pats t p _ _ b He Hin Hpq ltac:(discriminate)) in Hq.
              discriminate.
    + rewrite app_cons_s. simpl trimGo. apply IH. simpl in Hskip. lia.
Qed.

Lemma TrimSpace_keeps (tok s : string) :
  edgeSafe spaceEncodings tok = true ->
  edgeSafe spaceEncodingsRev (String.rev tok) = true ->
  Contains s tok = true -> Contains (TrimSpace s) tok = true.
Proof.
  intros Hl Hr Hs. apply Contains_inv in Hs as (a & b & ->).
  unfold TrimSpace, TrimLeftSpace, TrimRightSpace.
  destruct (trimGo_keeps _ tok b Hl a 0%nat ltac:(lia)) as [a2 ->].
  rewrite !rev_app_s, app_assoc_s.
  destruct (trimGo_keeps _ _ (String.rev a2) Hr (String.rev b) 0%nat ltac:(lia)) as [b2 ->].
  rewrite !rev_app_s, !rev_involutive_s, app_assoc_s.
  apply Contains_intro.
Qed.

(** *** C4: [parseDate] *)

Lemma normMonth_valid (y m : Z) : 1 <= m <= 12 -> normMonth y m = (y, m).
Proof.
  intros Hm. unfold normMonth.
  rewrite (Z.div_small (m - 1) 12), (Z.mod_small (m - 1) 12) by lia.
  f_equal; lia.
Qed.

Lemma Date_valid (y m d : Z) (loc : Time.Location) :
  1 <= m <= 12 -> 1 <= d <= daysIn y m ->
  Date y m d 0 0 0 0 loc = Time.mk y m d 0 0 0 0 loc.
Proof.
  intros Hm Hd. unfold Date. rewrite (normMonth_valid y m Hm).
  change (normClock 0 0 0 0) with (0, 0, 0, 0, 0). cbv beta iota zeta.
  replace (d + 0) with d by lia. simpl normDay.
  destruct (d <? 1) eqn:E1; [apply Z.ltb_lt in E1; lia|].
  destruct (daysIn y m <? d) eqn:E2; [apply Z.ltb_lt in E2; lia|].
  reflexivity.
Qed.

Lemma Date_day_zero (y m : Z) (loc : Time.Location) :
  1 <= m <= 12 ->
  Date y m 0 0 0 0 0 loc =
  if 1 <? m then Time.mk y (m - 1) (daysIn y (m - 1)) 0 0 0 0 loc
  else Time.mk (y - 1) 12 31 0 0 0 0 loc.
Proof.
  intros Hm. unfold Date. rewrite (normMonth_valid y m Hm).
  change (normClock 0 0 0 0) with (0, 0, 0, 0, 0). cbv beta iota zeta.
  change (0 + 0) with 0. simpl normDay. unfold prevMonth.
  destruct (1 <? m) eqn:E; [apply Z.ltb_lt in E | apply Z.ltb_ge in E].
  - destruct (m <=? 1) eqn:E1; [apply Z.leb_le in E1; lia|]. reflexivity.
  - destruct (m <=? 1) eqn:E1; [|apply Z.leb_gt in E1; lia]. reflexivity.
Qed.

Lemma validDate_inv (t : Time.t) :
  validDate t = true ->
  1 <= Time.Month t <= 12 /\ 1 <= Time.Day t <= daysIn (Time.Year t) (Time.Month t).
Proof.
  unfold validDate. rewrite !andb_true_iff, !Z.leb_le. tauto.
Qed.

Section ParseDateProperties.
Context {L : GoLib}.

Lemma tryFormats_all_fail (now : Time.t) (dateStr : string) (formats : list string) :
  (forall f, In f formats -> time_Parse f dateStr = None) ->
  tryFormats now dateStr formats = now.
Proof.
  induction formats as [|f fs IH]; intros H; [reflexivity|].
  simpl. rewrite (H f (or_introl eq_refl)). apply IH.
  intros g Hg. apply H. right. exact Hg.
Qed.

(** C4.  [now] is the current time, a date that exists, and lower-casing
    keeps a lower-case word where it is.  Then an input that holds "сегодня"
    gives midnight of the day of [now], in the location of [now]; an input
    that holds "вчера" (and, the words being tried in this order, no
    "сегодня" once trimmed and lower-cased) gives midnight of the day before;
    and when neither word is found and every format of the list fails, the
    result is [now] itself. *)
Theorem parseDate_spec (now : Time.t) (raw : string)
  (Hnow : validDate now = true)
  (Hlower : forall s tok, In tok ["сегодня"; "вчера"] ->
      Contains s tok = true -> Contains (strings_ToLower s) tok = true) :
  (Contains raw "сегодня" = true -> parseDate now raw = midnight now) /\
  (Contains raw "вчера" = true ->
   Contains (strings_ToLower (TrimSpace raw)) "сегодня" = false ->
   parseDate now raw = dayBefore now) /\
  (Contains (strings_ToLower (TrimSpace raw)) "сегодня" = false ->
   Contains (strings_ToLower (TrimSpace raw)) "вчера" = false ->
   (forall f, In f dateFormats ->
      time_Parse f (strings_ToLower (TrimSpace raw)) = None) ->
   parseDate now raw = now).
Proof.
  apply validDate_inv in Hnow as [Hm Hd].
  assert (Hkeep : forall tok, In tok ["сегодня"; "вчера"] ->
            Contains raw tok = true ->
            Contains (strings_ToLower (TrimSpace raw)) tok = true).
  { intros tok Hin Hc. apply (Hlower _ _ Hin).
    destruct Hin as [<-|[<-|[]]]; apply TrimSpace_keeps; first [reflexivity | exact Hc]. }
  unfold parseDate. split; [|split].
  - intros Hc. rewrite (Hkeep _ (or_introl eq_refl) Hc).
    apply Date_valid; assumption.
  - intros Hc Hno. rewrite Hno, (Hkeep _ (or_intror (or_introl eq_refl)) Hc).
    unfold dayBefore. destruct (1 <? Time.Day now) eqn:E.
    + apply Z.ltb_lt in E. apply Date_valid; [assumption|lia].
    + apply Z.ltb_ge in E. replace (Time.Day now - 1) with 0 by lia.
      apply Date_day_zero, Hm.
  - intros H1 H2 Hf. rewrite H1, H2. apply tryFormats_all_fail, Hf.
Qed.

End ParseDateProperties.

(** *** C5 and C6: [GetListingDetails] *)

(** Nothing was added to the image URLs. *)
Ltac no_new_images := exists []; rewrite app_nil_r; reflexivity.

Lemma keeps_refl (l : Listing.t) : keeps l l.
Proof.
  unfold keeps. repeat split; try reflexivity.
  no_new_images.
Qed.

Lemma keeps_trans (l1 l2 l3 : Listing.t) : keeps l1 l2 -> keeps l2 l3 -> keeps l1 l3.
Proof.
  intros (A1 & A2 & A3 & A4 & A5 & [e1 A6] & A7) (B1 & B2 & B3 & B4 & B5 & [e2 B6] & B7).
  unfold keeps. repeat split; try congruence.
  - exists (e1 ++ e2). rewrite B6, A6, app_assoc. reflexivity.
  - intros H. rewrite B7, A7; [reflexivity|exact H|]. rewrite (A7 H). exact H.
Qed.

Lemma keeps_fold {A : Type} (f : Listing.t -> A -> Listing.t) (xs : list A) :
  (forall l x, keeps l (f l x)) -> forall l, keeps l (fold_left f xs l).
Proof.
  intros Hf. induction xs as [|x xs IH]; intros l; [apply keeps_refl|].
  simpl. eapply keeps_trans; [apply Hf|apply IH].
Qed.

Section DetailsProperties.
Context {L : GoLib}.
Variable now : Time.t.
Variable visit : string -> Visit DetailPage.

Lemma addImage_keeps (l : Listing.t) (s : Img) : keeps l (addImage l s).
Proof.
  unfold addImage.
  destruct (negb (String.eqb (img_src s) ""));
    [|destruct (negb (String.eqb (img_srcset s) ""));
      [|destruct (negb (String.eqb (img_data_src s) "")); [|apply keeps_refl]]].
  all: unfold keeps; simpl; repeat split; eauto.
Qed.

Lemma onDetailBody_keeps (l : Listing.t) (e : DetailBody) : keeps l (onDetailBody now l e).
Proof.
  unfold onDetailBody.
  set (l1 := Listing.withDescription _ l).
  assert (K1 : keeps l l1).
  { unfold keeps; simpl; repeat split. no_new_images. }
  set (l2 := fold_left addImage _ l1).
  assert (K2 : keeps l1 l2) by (apply keeps_fold, addImage_keeps).
  set (l3 := Listing.withLocation _ l2).
  assert (K3 : keeps l2 l3).
  { unfold keeps; simpl; repeat split. no_new_images. }
  set (l4 := if Qeq_bool (Price.Value (Listing.Price l3)) 0 then _ else l3).
  assert (K4 : keeps l3 l4).
  { subst l4. destruct (Qeq_bool (Price.Value (Listing.Price l3)) 0) eqn:E;
      [|apply keeps_refl].
    destruct (negb (String.eqb (itemPriceText e) "")); [|apply keeps_refl].
    unfold keeps; repeat split.
    - no_new_images.
    - intros H. rewrite E in H. discriminate H. }
  set (l5 := if negb (String.eqb (dateText e) "") then _ else l4).
  assert (K5 : keeps l4 l5).
  { subst l5. destruct (negb (String.eqb (dateText e) "")); [|apply keeps_refl].
    unfold keeps; simpl; repeat split. no_new_images. }
  assert (K6 : keeps l5
    (if Nat.ltb 0 (size (fold_left addParam (paramTexts e) ∅))
     then Listing.withAttributes (fold_left addParam (paramTexts e) ∅) l5 else l5)).
  { destruct (Nat.ltb 0 (size (fold_left addParam (paramTexts e) ∅))); [|apply keeps_refl].
    unfold keeps; simpl; repeat split. no_new_images. }
  eauto using keeps_trans.
Qed.

(** After a [body]: its description and its location, its date when it has
    one, its parameters when it has some. *)
Lemma onDetailBody_overwrites (l : Listing.t) (e : DetailBody) :
  Listing.Description (onDetailBody now l e) = TrimSpace (descriptionText e) /\
  Listing.Location (onDetailBody now l e) = TrimSpace (addressText e) /\
  (dateText e <> "" ->
   Listing.PublishedAt (onDetailBody now l e) = parseDate now (dateText e)) /\
  ((0 < size (fold_left addParam (paramTexts e) ∅))%nat ->
   Listing.Attributes (onDetailBody now l e) = fold_left addParam (paramTexts e) ∅).
Proof.
  unfold onDetailBody.
  set (l1 := Listing.withDescription _ l).
  set (l2 := fold_left addImage _ l1).
  assert (D2 : Listing.Description l2 = TrimSpace (descriptionText e)).
  { subst l2. generalize (galleryImages e).
    assert (D1 : Listing.Description l1 = TrimSpace (descriptionText e)) by reflexivity.
    revert D1. generalize l1. intros l0 D0 imgs. revert l0 D0.
    induction imgs as [|i imgs IH]; intros l0 D0; [exact D0|].
    simpl. apply IH. rewrite <- D0. unfold addImage.
    destruct (negb (String.eqb (img_src i) "")); [reflexivity|].
    destruct (negb (String.eqb (img_srcset i) "")); [reflexivity|].
    destruct (negb (String.eqb (img_data_src i) "")); reflexivity. }
  set (l3 := Listing.withLocation _ l2).
  set (attributes := fold_left addParam (paramTexts e) ∅).
  destruct (negb (String.eqb (dateText e) "")) eqn:Ed;
    destruct (Nat.ltb 0 (size attributes)) eqn:Ea;
    destruct (Qeq_bool (Price.Value (Listing.Price l3)) 0);
    destruct (negb (String.eqb (itemPriceText e) ""));
    simpl;
    (split; [exact D2|]); (split; [reflexivity|]);
    (split; [intros Hd | intros Ha]);
    first [ reflexivity
          | exfalso; apply negb_false_iff, String.eqb_eq in Ed; congruence
          | exfalso; apply Nat.ltb_ge in Ea; lia ].
Qed.

Lemma fold_onDetailBody_last (bs : list DetailBody) (b : DetailBody) (l : Listing.t) :
  fold_left (onDetailBody now) (bs ++ [b]) l =
  onDetailBody now (fold_left (onDetailBody now) bs l) b.
Proof. rewrite fold_left_app. reflexivity. Qed.

(** C5, amended.  Enrichment never changes the ID, the URL, the category ID
    and the category URL; it keeps a title that is not empty and a price
    whose value is not 0; it only adds to the image URLs.  The other fields
    are not kept: when the page has a body, the description and the location
    become the trimmed text that the last body holds for them, empty when it
    holds none; the publication date becomes the date of that body when it
    has a date text; the attributes become the parameters of that body when
    it has at least one. *)
Theorem GetListingDetails_frame (listing : Listing.t) :
  let r := fst (GetListingDetails now visit listing) in
  Listing.ID r = Listing.ID listing /\
  Listing.URL r = Listing.URL listing /\
  Listing.CategoryID r = Listing.CategoryID listing /\
  Listing.CategoryURL r = Listing.CategoryURL listing /\
  (Listing.Title listing <> "" -> Listing.Title r = Listing.Title listing) /\
  (Qeq_bool (Price.Value (Listing.Price listing)) 0 = false ->
   Listing.Price r = Listing.Price listing) /\
  (exists extra, Listing.ImageURLs r = Listing.ImageURLs listing ++ extra) /\
  (forall page bs b,
     Listing.URL listing <> "" ->
     visit (Listing.URL listing) = VisitOK page ->
     detailBodies page = bs ++ [b] ->
     Listing.Description r = TrimSpace (descriptionText b) /\
     Listing.Location r = TrimSpace (addressText b) /\
     (dateText b <> "" -> Listing.PublishedAt r = parseDate now (dateText b)) /\
     ((0 < size (fold_left addParam (paramTexts b) ∅))%nat ->
      Listing.Attributes r = fold_left addParam (paramTexts b) ∅)).
Proof.
  unfold GetListingDetails.
  destruct (String.eqb (Listing.URL listing) "") eqn:EU.
  { apply String.eqb_eq in EU. simpl. repeat split; try reflexivity; try congruence.
    no_new_images. }
  destruct (visit (Listing.URL listing)) as [err|page] eqn:EV.
  { simpl. repeat split; try reflexivity; try discriminate.
    no_new_images. }
  cbv zeta. simpl fst.
  set (l1 := if String.eqb (Listing.Title listing) "" then _ else listing).
  assert (K1 : Listing.ID l1 = Listing.ID listing /\
               Listing.URL l1 = Listing.URL listing /\
               Listing.CategoryID l1 = Listing.CategoryID listing /\
               Listing.CategoryURL l1 = Listing.CategoryURL listing /\
               (Listing.Title listing <> "" -> Listing.Title l1 = Listing.Title listing) /\
               Listing.ImageURLs l1 = Listing.ImageURLs listing /\
               Listing.Price l1 = Listing.Price listing).
  { subst l1. destruct (String.eqb (Listing.Title listing) "") eqn:ET.
    - apply String.eqb_eq in ET.
      generalize (h1Texts page). intros ts.
      assert (G : forall l0,
        Listing.ID (fold_left onH1 ts l0) = Listing.ID l0 /\
        Listing.URL (fold_left onH1 ts l0) = Listing.URL l0 /\
        Listing.CategoryID (fold_left onH1 ts l0) = Listing.CategoryID l0 /\
        Listing.CategoryURL (fold_left onH1 ts l0) = Listing.CategoryURL l0 /\
        Listing.ImageURLs (fold_left onH1 ts l0) = Listing.ImageURLs l0 /\
        Listing.Price (fold_left onH1 ts l0) = Listing.Price l0).
      { induction ts as [|t ts IH]; intros l0; [repeat split|].
        simpl. destruct (IH (onH1 l0 t)) as (A & B & C & D & E & F).
        rewrite A, B, C, D, E, F. repeat split. }
      destruct (G listing) as (A & B & C & D & E & F).
      repeat split; try assumption. congruence.
    - repeat split. }
  destruct K1 as (A & B & C & D & E & F & G).
  pose proof (keeps_fold (onDetailBody now) (detailBodies page) (onDetailBody_keeps) l1)
    as (A' & B' & C' & D' & E' & [extra F'] & G').
  split; [congruence|]. split; [congruence|].
  split; [congruence|]. split; [congruence|].
  split; [intros HT; rewrite E', (E HT); reflexivity|].
  split; [intros HP; rewrite G', G; [reflexivity|rewrite G; exact HP]|].
  split; [exists extra; rewrite F', F; reflexivity|].
  intros page' bs b _ Hpage Hbs. injection Hpage as <-.
  rewrite Hbs, fold_onDetailBody_last. apply onDetailBody_overwrites.
Qed.

(** C6.  A listing whose URL is empty comes back unchanged with the error
    "listing URL is empty", and nothing else does; a listing with a URL never
    gets that error. *)
Theorem GetListingDetails_empty_URL (listing : Listing.t) :
  (Listing.URL listing = "" ->
   GetListingDetails now visit listing = (listing, Some errEmptyURL)) /\
  (Listing.URL listing <> "" ->
   snd (GetListingDetails now visit listing) <> Some errEmptyURL).
Proof.
  unfold GetListingDetails. split.
  - intros ->. reflexivity.
  - intros Hne. apply String.eqb_neq in Hne. rewrite Hne.
    destruct (visit (Listing.URL listing)); simpl; discriminate.
Qed.

End DetailsProperties.

(** *** The theorems at the example values *)

Lemma mapBytes_app (f : ascii -> ascii) (a b : string) :
  mapBytes f (a +:+ b) = mapBytes f a +:+ mapBytes f b.
Proof.
  induction a as [|c a IH]; [reflexivity|].
  rewrite app_cons_s. simpl. rewrite IH. reflexivity.
Qed.

(** Lower-casing the ASCII letters keeps the two words of [parseDate]. *)
Lemma example_ToLower_keeps (s tok : string) :
  In tok ["сегодня"; "вчера"] ->
  Contains s tok = true -> Contains (mapBytes lowerByte s) tok = true.
Proof.
  intros Hin Hc. apply Contains_inv in Hc as (a & b & ->).
  rewrite !mapBytes_app.
  assert (E : mapBytes lowerByte tok = tok)
    by (destruct Hin as [<-|[<-|[]]]; reflexivity).
  rewrite E. apply Contains_intro.
Qed.

(** C4 on Friday 1 March 2024, 13:45:10: "сегодня" gives 1 March, 00:00;
    "вчера" gives 29 February, 00:00; "15 марта 2023", which no format of the
    list reads, gives the current time. *)
Lemma parseDate_spec_witness :
  validDate exampleNow = true /\
  Contains "сегодня в 10:15" "сегодня" = true /\
  parseDate (L := exampleLib) exampleNow "сегодня в 10:15" = midnight exampleNow /\
  Contains " вчера в 18:40" "вчера" = true /\
  parseDate (L := exampleLib) exampleNow " вчера в 18:40" =
    Time.mk 2024 2 29 0 0 0 0 Time.Local /\
  parseDate (L := exampleLib) exampleNow "15 марта 2023" = exampleNow.
Proof.
  split; [reflexivity|]. split; [reflexivity|].
  split.
  { apply (parseDate_spec (L := exampleLib) exampleNow "сегодня в 10:15" eq_refl
             example_ToLower_keeps). reflexivity. }
  split; [reflexivity|].
  split.
  { apply (parseDate_spec (L := exampleLib) exampleNow " вчера в 18:40" eq_refl
             example_ToLower_keeps); reflexivity. }
  apply (parseDate_spec (L := exampleLib) exampleNow "15 марта 2023" eq_refl
           example_ToLower_keeps); try reflexivity.
  intros f Hf. simpl in Hf.
  repeat (destruct Hf as [<-|Hf]; [reflexivity|]). contradiction.
Defined.

(** C5, as the claim words it, fails: the summary has a location, a
    description, a publication date and an attribute; the detail page has no
    address and no description, and has a date and another attribute; the
    enriched listing has lost the location, the description and the
    attribute, and has the date of the page. *)
Lemma GetListingDetails_overwrite_counterexample :
  Listing.Location exampleListing = "Москва" /\
  Listing.Location exampleEnriched = "" /\
  Listing.Description exampleListing = "Горный велосипед" /\
  Listing.Description exampleEnriched = "" /\
  Listing.Attributes exampleListing !! "Цвет" = Some "красный" /\
  Listing.Attributes exampleEnriched !! "Цвет" = None /\
  Listing.PublishedAt exampleListing = Time.mk 2024 2 20 0 0 0 0 Time.Local /\
  Listing.PublishedAt exampleEnriched = Time.mk 2024 2 29 0 0 0 0 Time.Local.
Proof. vm_compute. repeat split. Qed.

(** C5 at the example summary: its title and its price of 500 survive the
    page that has another title and the price 900. *)
Lemma GetListingDetails_frame_witness :
  Listing.Title exampleListing <> "" /\
  Qeq_bool (Price.Value (Listing.Price exampleListing)) 0 = false /\
  Listing.Title exampleEnriched = "Велосипед" /\
  Listing.Price exampleEnriched = Price.mk 500%Q "RUB" "500 ₽".
Proof.
  pose proof (GetListingDetails_frame (L := exampleLib) exampleNow exampleVisit
                exampleListing) as H.
  cbv zeta in H. destruct H as (_ & _ & _ & _ & HT & HP & _).
  split; [discriminate|]. split; [reflexivity|].
  split; [apply HT; discriminate | apply HP; reflexivity].
Defined.

(** C6 at the empty listing and at the example summary. *)
Lemma GetListingDetails_empty_URL_witness :
  Listing.URL Listing.empty = "" /\
  GetListingDetails (L := exampleLib) exampleNow exampleVisit Listing.empty =
    (Listing.empty, Some errEmptyURL) /\
  Listing.URL exampleListing <> "" /\
  snd (GetListingDetails (L := exampleLib) exampleNow exampleVisit exampleListing)
    <> Some errEmptyURL.
Proof.
  split; [reflexivity|].
  split; [apply (GetListingDetails_empty_URL (L := exampleLib)); reflexivity|].
  split; [discriminate|].
  apply (GetListingDetails_empty_URL (L := exampleLib)). discriminate.
Defined.

(** *** C7: the merge of the discovered categories *)

Section CategoriesProperties.
Context {L : GoLib}.

Lemma addIfAbsent_keeps (m : gmap string Category.t) (name url u : string) (c : Category.t) :
  m !! u = Some c -> addIfAbsent m name url !! u = Some c.
Proof.
  intros H. unfold addIfAbsent. destruct (m !! url) eqn:E; [exact H|].
  rewrite lookup_insert_ne; [exact H|]. intros ->. congruence.
Qed.

(** X2.  Outside the dropdown menu, no callback changes an entry that has a
    name. *)
Lemma named_entry_kept (m : gmap string Category.t) (u : string) (c : Category.t) :
  m !! u = Some c -> Category.Name c <> "" ->
  (forall e, onGridItem m e !! u = Some c) /\
  (forall e, onMiniMenuLink m e !! u = Some c) /\
  (forall e, onTopNavLink m e !! u = Some c) /\
  (forall e, onServiceItem m e !! u = Some c).
Proof.
  intros H Hname. repeat split; intros e.
  - unfold onGridItem.
    destruct (negb (String.eqb (linkHref e) "") && negb (String.eqb (cleanText (linkText e)) ""));
      [|exact H].
    destruct (m !! normalizeURL (linkHref e)) as [existing|] eqn:E.
    + destruct (String.eqb (Category.Name existing) "") eqn:En; [|exact H].
      apply String.eqb_eq in En.
      rewrite lookup_insert_ne; [exact H|]. intros Hu. subst u. congruence.
    + rewrite lookup_insert_ne; [exact H|]. intros Hu. subst u. congruence.
  - unfold onMiniMenuLink.
    destruct (negb (String.eqb (linkHref e) "") && negb (String.eqb (cleanText (linkText e)) ""));
      [apply addIfAbsent_keeps|]; exact H.
  - unfold onTopNavLink.
    destruct (HasPrefix (linkHref e) "/" && negb (String.eqb (cleanText (linkText e)) ""));
      [apply addIfAbsent_keeps|]; exact H.
  - unfold onServiceItem. destruct (anchorHref e) as [href|]; [|exact H].
    destruct (negb (String.eqb href "") && negb (String.eqb (cleanText (anchorText e)) ""));
      [apply addIfAbsent_keeps|]; exact H.
Qed.

(** The dropdown menu assigns its entry whatever the map holds. *)
Lemma dropdown_assigns (m : gmap string Category.t) (e : Link) :
  linkHref e <> "" -> cleanText (linkText e) <> "" ->
  onDropdownLink m e !! normalizeURL (linkHref e) =
  Some (newCategory (cleanText (linkText e)) (normalizeURL (linkHref e))).
Proof.
  intros Hh Hn. unfold onDropdownLink.
  apply String.eqb_neq in Hh, Hn. rewrite Hh, Hn. simpl.
  apply lookup_insert_eq.
Qed.

(** C7 at the page where the grid names "/all/transport" "Авто" and the
    dropdown menu names it "Транспорт": after the grid the map holds "Авто",
    at the end it holds one category, named "Транспорт".  On the page of the
    claim's example (the same URL twice, first without a name) the map holds
    one category, named "Cars". *)
Theorem collectCategories_dropdown_overwrites :
  fold_left onGridItem (gridItems twoNamesPage) ∅ !! "https://www.avito.ru/all/transport"
    = Some (Category.mk "Авто" "https://www.avito.ru/all/transport" []) /\
  collectCategories twoNamesPage =
    {[ "https://www.avito.ru/all/transport" :=
         Category.mk "Транспорт" "https://www.avito.ru/all/transport" [] ]} /\
  collectCategories carsPage =
    {[ "https://www.avito.ru/all/cars" :=
         Category.mk "Cars" "https://www.avito.ru/all/cars" [] ]}.
Proof. split; [|split]; vm_compute; reflexivity. Qed.

End CategoriesProperties.

(** *** C8: the limit of [GetListings] *)

Section ListingsProperties.
Context {L : GoLib}.
Variable now : Time.t.
Variable visitDetail : string -> Visit DetailPage.
Variable visitList : string -> Visit ListPage.
Variable handleCatalogPage : string -> Z -> list Listing.t * option error.

Lemma forEachCard_cons (limit : Z) (url : string) (item : Card) (rest : list Card)
    (count : Z) (ls : list Listing.t) :
  forEachCard limit url (item :: rest) count ls =
  if (0 <? limit) && (limit <=? count) then forEachCard limit url rest count ls
  else if negb (String.eqb (Listing.ID (parseListing item)) "") &&
          negb (String.eqb (Listing.Title (parseListing item)) "")
       then forEachCard limit url rest (count + 1)
              (ls ++ [Listing.withCategoryURL url (parseListing item)])
       else forEachCard limit url rest count ls.
Proof. reflexivity. Qed.

Lemma forEachCard_bound (limit : Z) (url : string) (cards : list Card) :
  0 < limit -> forall count ls, 0 <= count <= limit ->
  count <= snd (forEachCard limit url cards count ls) <= limit /\
  Z.of_nat (length (fst (forEachCard limit url cards count ls))) =
    Z.of_nat (length ls) + (snd (forEachCard limit url cards count ls) - count).
Proof.
  intros Hl. induction cards as [|item cards IH]; intros count ls Hc.
  - simpl. lia.
  - rewrite forEachCard_cons. destruct ((0 <? limit) && (limit <=? count)) eqn:E.
    + apply IH, Hc.
    + assert (Hlt : count < limit).
      { apply andb_false_iff in E as [E|E];
          [apply Z.ltb_ge in E | apply Z.leb_gt in E]; lia. }
      destruct (negb (String.eqb (Listing.ID (parseListing item)) "") &&
                negb (String.eqb (Listing.Title (parseListing item)) "")).
      * destruct (IH (count + 1)
                     (ls ++ [Listing.withCategoryURL url (parseListing item)])
                     ltac:(lia)) as [H1 H2].
        rewrite H2, length_app. simpl. lia.
      * apply IH, Hc.
Qed.

Lemma trySelectors_bound (limit : Z) (url : string) (e : Container) (sels : list string) :
  0 < limit -> forall ls,
  Z.of_nat (length (trySelectors limit url e sels ls)) <= Z.of_nat (length ls) + limit.
Proof.
  intros Hl. induction sels as [|sel sels IH]; intros ls; [simpl; lia|].
  simpl. pose proof (forEachCard_bound limit url (forEach e sel) Hl 0 ls ltac:(lia)) as [H1 H2].
  destruct (forEachCard limit url (forEach e sel) 0 ls) as [ls' c]. simpl in H1, H2.
  destruct (0 <? c) eqn:E; [lia|].
  apply Z.ltb_ge in E. specialize (IH ls'). lia.
Qed.

Lemma onAnchor_step (limit : Z) (url : string) (ls : list Listing.t) (count : Z)
    (s : ItemAnchor) :
  0 < limit ->
  onAnchor limit url (ls, count) s = (ls, count) \/
  (count < limit /\ exists x, onAnchor limit url (ls, count) s = (ls ++ [x], count + 1)).
Proof.
  intros Hl. unfold onAnchor.
  destruct ((0 <? limit) && (limit <=? count)) eqn:E; [left; reflexivity|].
  assert (Hlt : count < limit).
  { apply andb_false_iff in E as [E|E];
      [apply Z.ltb_ge in E | apply Z.leb_gt in E]; lia. }
  destruct (item_href s) as [href|]; [|left; reflexivity].
  destruct (Contains href "/item/"); [|left; reflexivity].
  destruct (negb (String.eqb
              (orElse (TrimSpace (item_text s)) (TrimSpace (item_heading s))) ""));
    [|left; reflexivity].
  right. split; [exact Hlt|]. eexists. reflexivity.
Qed.

Lemma onAnchor_bound (limit : Z) (url : string) (anchors : list ItemAnchor) :
  0 < limit -> forall ls count, 0 <= count <= limit ->
  count <= snd (fold_left (onAnchor limit url) anchors (ls, count)) <= limit /\
  Z.of_nat (length (fst (fold_left (onAnchor limit url) anchors (ls, count)))) =
    Z.of_nat (length ls) +
    (snd (fold_left (onAnchor limit url) anchors (ls, count)) - count).
Proof.
  intros Hl. induction anchors as [|s anchors IH]; intros ls count Hc; [simpl; lia|].
  change (fold_left (onAnchor limit url) (s :: anchors) (ls, count))
    with (fold_left (onAnchor limit url) anchors (onAnchor limit url (ls, count) s)).
  destruct (onAnchor_step limit url ls count s Hl) as [-> | (Hlt & x & ->)].
  - apply IH, Hc.
  - destruct (IH (ls ++ [x]) (count + 1) ltac:(lia)) as [H1 H2].
    rewrite H2, length_app. simpl. lia.
Qed.

Lemma onListBody_bound (limit : Z) (url : string) (bodies : list (list ItemAnchor)) :
  0 < limit -> forall ls, Z.of_nat (length ls) <= limit ->
  Z.of_nat (length (fold_left (onListBody limit url) bodies ls)) <= limit.
Proof.
  intros Hl. induction bodies as [|b bodies IH]; intros ls Hls; [exact Hls|].
  simpl. apply IH. unfold onListBody.
  destruct (Nat.ltb 0 (length ls)) eqn:E; [exact Hls|].
  apply Nat.ltb_ge in E.
  pose proof (onAnchor_bound limit url b Hl ls 0 ltac:(lia)) as [H1 H2].
  lia.
Qed.

(** X1.  With at most one results container on the page, a positive limit
    bounds the number of listings. *)
Lemma GetListings_one_container_limit (categoryURL : string) (limit : Z) (page : ListPage) :
  0 < limit ->
  Contains categoryURL "/catalog/" = false ->
  visitList categoryURL = VisitOK page ->
  (length (serpContainers page) <= 1)%nat ->
  Z.of_nat (length (fst (GetListings now visitDetail visitList handleCatalogPage
                           categoryURL limit))) <= limit.
Proof.
  intros Hl Hc Hv Hone. unfold GetListings. rewrite Hc, Hv.
  set (l1 := fold_left (onSerp limit categoryURL) (serpContainers page) []).
  assert (H1 : Z.of_nat (length l1) <= limit).
  { subst l1. destruct (serpContainers page) as [|e [|e' rest]].
    - simpl. lia.
    - cbn [fold_left]. unfold onSerp.
      pose proof (trySelectors_bound limit categoryURL e itemSelectors Hl []) as H.
      change (Z.of_nat (length (@nil Listing.t))) with 0 in H. lia.
    - simpl in Hone. lia. }
  pose proof (onListBody_bound limit categoryURL (listBodies page) Hl l1 H1) as H2.
  destruct (Nat.ltb 0 (length (fold_left (onListBody limit categoryURL) (listBodies page) l1)));
    simpl; [rewrite length_map|]; exact H2.
Qed.

(** C8 at a page with two results containers and limit 1: each container
    gives its first accepted card, and two listings come back.  At a page
    with one container of five accepted cards and limit 2, the first two come
    back, in document order; with limit 0, all five. *)
Theorem GetListings_limit_per_container :
  map Listing.ID
    (fst (GetListings now offline (fun _ => VisitOK twoContainersPage)
            handleCatalogPage "https://www.avito.ru/all/velosipedy" 1)) = ["1"; "2"] /\
  map Listing.ID
    (fst (GetListings now offline (fun _ => VisitOK fiveCardsPage)
            handleCatalogPage "https://www.avito.ru/all/velosipedy" 2)) = ["1"; "2"] /\
  map Listing.ID
    (fst (GetListings now offline (fun _ => VisitOK fiveCardsPage)
            handleCatalogPage "https://www.avito.ru/all/velosipedy" 0))
    = ["1"; "2"; "3"; "4"; "5"].
Proof. vm_compute. repeat split. Qed.

End ListingsProperties.

(** *** C9: [waitForRateLimit] *)

Lemma onlyA_step (act : action) (st st' : limiter) :
  notStepB act = true -> step act st = Some st' -> onlyA st -> onlyA st'.
Proof.
  intros Hact Hstep [HB HA]. destruct act as [d| |]; [| |discriminate]; simpl in Hstep.
  - destruct (0 <=? d) eqn:E; [|discriminate]. apply Z.leb_le in E.
    injection Hstep as <-. split; [exact HB|]. simpl. intros a Ha.
    destruct (HA a Ha). split; [assumption|lia].
  - destruct (callA st) as [|e|w| |s] eqn:EA; simpl in Hstep.
    + injection Hstep as <-. split; [exact HB|]. simpl. discriminate.
    + destruct (e <? minRequestInterval); injection Hstep as <-;
        (split; [exact HB|]); simpl; discriminate.
    + destruct (w <=? clock st); [|discriminate]. injection Hstep as <-.
      split; [exact HB|]. simpl. discriminate.
    + injection Hstep as <-. split; [exact HB|]. simpl.
      intros a Ha. injection Ha as <-. split; [reflexivity|lia].
    + discriminate.
Qed.

Lemma onlyA_run (schedule : list action) :
  forallb notStepB schedule = true ->
  forall st st', run schedule st = Some st' -> onlyA st -> onlyA st'.
Proof.
  induction schedule as [|act schedule IH]; intros Hs st st' Hrun Hinv.
  - injection Hrun as <-. exact Hinv.
  - simpl in Hs. apply andb_true_iff in Hs as [Hact Hs]. simpl in Hrun.
    destruct (step act st) as [st1|] eqn:E; [|discriminate].
    exact (IH Hs st1 st' Hrun (onlyA_step act st st1 Hact E Hinv)).
Qed.

Lemma afterA_step (a : Z) (act : action) (st st' : limiter) :
  notStepA act = true -> step act st = Some st' -> afterA a st -> afterA a st'.
Proof.
  intros Hact Hstep [HA HB]. destruct act as [d| |]; [|discriminate|]; simpl in Hstep.
  - destruct (0 <=? d) eqn:E; [|discriminate]. apply Z.leb_le in E.
    injection Hstep as <-. split; [exact HA|]. simpl.
    destruct (callB st); lia.
  - destruct (callB st) as [|e|w| |s] eqn:EB; simpl in Hstep.
    + injection Hstep as <-. split; [exact HA|]. simpl. lia.
    + destruct (e <? minRequestInterval) eqn:E; injection Hstep as <-;
        (split; [exact HA|]); simpl.
      * lia.
      * apply Z.ltb_ge in E. lia.
    + destruct (w <=? clock st) eqn:E; [|discriminate]. apply Z.leb_le in E.
      injection Hstep as <-. split; [exact HA|]. simpl. lia.
    + injection Hstep as <-. split; [exact HA|]. simpl. exact HB.
    + discriminate.
Qed.

Lemma afterA_run (a : Z) (schedule : list action) :
  forallb notStepA schedule = true ->
  forall st st', run schedule st = Some st' -> afterA a st -> afterA a st'.
Proof.
  induction schedule as [|act schedule IH]; intros Hs st st' Hrun Hinv.
  - injection Hrun as <-. exact Hinv.
  - simpl in Hs. apply andb_true_iff in Hs as [Hact Hs]. simpl in Hrun.
    destruct (step act st) as [st1|] eqn:E; [|discriminate].
    exact (IH Hs st1 st' Hrun (afterA_step a act st st1 Hact E Hinv)).
Qed.

(** C9, as the claim words it, fails: from the initial state both calls
    measure before either assigns, neither sleeps, and both record the same
    time. *)
Lemma waitForRateLimit_race_counterexample :
  run [StepA; StepB; StepA; StepB; StepA; StepB] (limiterAt 0) =
    Some {| clock := 0; lastRequestTime := 0;
            callA := Returned 0; callB := Returned 0 |} /\
  tooClose {| clock := 0; lastRequestTime := 0;
              callA := Returned 0; callB := Returned 0 |} = true.
Proof. vm_compute. split; reflexivity. Qed.

(** C9, amended.  When the second call starts after the first has returned
    (call A runs alone while the clock advances, then call B does), the time
    that the second call records is at least [minRequestInterval] after the
    time that the first recorded. *)
Theorem waitForRateLimit_sequential (st stA stB : limiter)
    (scheduleA scheduleB : list action) (a b : Z)
  (HA0 : callA st = Entered) (HB0 : callB st = Entered)
  (HsA : forallb notStepB scheduleA = true)
  (HrunA : run scheduleA st = Some stA)
  (HdoneA : callA stA = Returned a)
  (HsB : forallb notStepA scheduleB = true)
  (HrunB : run scheduleB stA = Some stB)
  (HdoneB : callB stB = Returned b) :
  a + minRequestInterval <= b.
Proof.
  assert (H0 : onlyA st) by (split; [exact HB0|intros x Hx; congruence]).
  pose proof (onlyA_run scheduleA HsA st stA HrunA H0) as [HB1 HA1].
  destruct (HA1 a HdoneA) as [Hlast Hclock].
  assert (H1 : afterA a stA).
  { split; [exact HdoneA|]. rewrite HB1. split; assumption. }
  pose proof (afterA_run a scheduleB HsB stA stB HrunB H1) as [_ H2].
  rewrite HdoneB in H2. exact H2.
Qed.

(** C9 at two calls in a row: the first records time 0; the second starts
    one second later, sleeps two seconds and records time 3 s. *)
Lemma waitForRateLimit_sequential_witness :
  run [StepA; StepA; StepA] (limiterAt 0) =
    Some {| clock := 0; lastRequestTime := 0;
            callA := Returned 0; callB := Entered |} /\
  run [Tick 1000000000; StepB; StepB; Tick 2000000000; StepB; StepB]
    {| clock := 0; lastRequestTime := 0; callA := Returned 0; callB := Entered |} =
    Some {| clock := 3000000000; lastRequestTime := 3000000000;
            callA := Returned 0; callB := Returned 3000000000 |} /\
  0 + minRequestInterval <= 3000000000.
Proof.
  split; [reflexivity|]. split; [reflexivity|].
  exact (waitForRateLimit_sequential (limiterAt 0)
           {| clock := 0; lastRequestTime := 0; callA := Returned 0; callB := Entered |}
           {| clock := 3000000000; lastRequestTime := 3000000000;
              callA := Returned 0; callB := Returned 3000000000 |}
           [StepA; StepA; StepA]
           [Tick 1000000000; StepB; StepB; Tick 2000000000; StepB; StepB]
           0 3000000000
           eq_refl eq_refl eq_refl eq_refl eq_refl eq_refl eq_refl eq_refl).
Defined.

(** *** Further statements at the example values *)

(** X1 at one container of five accepted cards and limit 2: at most two
    listings. *)
Lemma GetListings_one_container_limit_witness :
  0 < 2 /\
  Contains "https://www.avito.ru/all/velosipedy" "/catalog/" = false /\
  (length (serpContainers fiveCardsPage) <= 1)%nat /\
  Z.of_nat (length (fst (GetListings (L := exampleLib) exampleNow offline
                           (fun _ => VisitOK fiveCardsPage) (fun _ _ => ([], None))
                           "https://www.avito.ru/all/velosipedy" 2))) <= 2.
Proof.
  split; [lia|]. split; [reflexivity|]. split; [simpl; lia|].
  apply (GetListings_one_container_limit (L := exampleLib)) with (page := fiveCardsPage);
    [lia | reflexivity | reflexivity | simpl; lia].
Defined.

(** X2 at a category that the grid named: it keeps its name when the
    mini-menu holds the same URL under another name. *)
Lemma named_entry_kept_witness :
  Category.Name (Category.mk "Авто" "https://www.avito.ru/all/transport" []) <> "" /\
  onMiniMenuLink (L := exampleLib)
    {[ "https://www.avito.ru/all/transport" :=
         Category.mk "Авто" "https://www.avito.ru/all/transport" [] ]}
    {| linkText := "Транспорт"; linkHref := "/all/transport" |}
    !! "https://www.avito.ru/all/transport"
  = Some (Category.mk "Авто" "https://www.avito.ru/all/transport" []).
Proof.
  split; [discriminate|].
  apply (named_entry_kept (L := exampleLib)); [apply lookup_singleton_eq | discriminate].
Defined.

(** *** Loops that append under a limit *)

Lemma reached_false {A : Type} (limit : Z) (xs : list A) :
  reached limit xs = false -> 0 < limit -> Z.of_nat (length xs) < limit.
Proof.
  unfold reached. intros E Hl. apply andb_false_iff in E as [E|E].
  - apply Z.ltb_ge in E. lia.
  - apply Z.leb_gt in E. exact E.
Qed.

Lemma grows_refl {A : Type} (P : A -> Prop) (limit : Z) (xs : list A) :
  grows P limit xs xs.
Proof.
  split; [|intros _ H; exact H].
  exists []. split; [rewrite app_nil_r; reflexivity|constructor].
Qed.

Lemma grows_trans {A : Type} (P : A -> Prop) (limit : Z) (xs ys zs : list A) :
  grows P limit xs ys -> grows P limit ys zs -> grows P limit xs zs.
Proof.
  intros [(a & -> & Ha) Hb] [(b & -> & Hb') Hc]. split.
  - exists (a ++ b). split; [rewrite app_assoc; reflexivity|].
    apply Forall_app. split; assumption.
  - intros Hl Hx. apply Hc; [exact Hl|]. apply Hb; assumption.
Qed.

Lemma grows_snoc {A : Type} (P : A -> Prop) (limit : Z) (xs : list A) (y : A) :
  reached limit xs = false -> P y -> grows P limit xs (xs ++ [y]).
Proof.
  intros Hr Hy. split.
  - exists [y]. split; [reflexivity|]. constructor; [exact Hy|constructor].
  - intros Hl _. pose proof (reached_false limit xs Hr Hl).
    rewrite length_app. simpl. lia.
Qed.

Lemma grows_fold {A B : Type} (P : A -> Prop) (limit : Z) (f : list A -> B -> list A)
    (bs : list B) :
  (forall xs b, grows P limit xs (f xs b)) ->
  forall xs, grows P limit xs (fold_left f bs xs).
Proof.
  intros Hf. induction bs as [|b bs IH]; intros xs; [apply grows_refl|].
  simpl. eapply grows_trans; [apply Hf|apply IH].
Qed.

Lemma grows_weaken {A : Type} (P Q : A -> Prop) (limit : Z) (xs ys : list A) :
  (forall y, P y -> Q y) -> grows P limit xs ys -> grows Q limit xs ys.
Proof.
  intros HPQ [(zs & -> & Hz) Hb]. split; [|exact Hb].
  exists zs. split; [reflexivity|]. eapply Forall_impl; [exact Hz|exact HPQ].
Qed.

Lemma grows_nil {A : Type} (P : A -> Prop) (limit : Z) (ys : list A) :
  grows P limit [] ys ->
  Forall P ys /\ (0 < limit -> Z.of_nat (length ys) <= limit).
Proof.
  intros [(zs & -> & Hz) Hb]. split; [exact Hz|].
  intros Hl. apply Hb; [exact Hl|simpl; lia].
Qed.

Lemma Contains_nonempty (s sub : string) :
  sub <> "" -> Contains s sub = true -> s <> "".
Proof.
  intros Hsub Hc ->. destruct sub; [congruence|discriminate].
Qed.

Lemma HasPrefix_nonempty (s p : string) :
  p <> "" -> HasPrefix s p = true -> s <> "".
Proof.
  intros Hp Hc ->. destruct p; [congruence|discriminate].
Qed.

Section CatalogProperties.
Context {L : GoLib}.
Variable now : Time.t.
Variable visitDetail : string -> Visit DetailPage.
Variable visitCatalog : string -> Visit CatalogPage.

Lemma normalizeURL_nonempty (href : string) : href <> "" -> normalizeURL href <> "".
Proof.
  intros Hne. unfold normalizeURL.
  destruct (HasPrefix href "http"); [exact Hne|].
  destruct (HasPrefix href "//"); [discriminate|].
  destruct (HasPrefix href "/"); [discriminate|].
  destruct (url_Parse href) as [u|]; [|discriminate].
  destruct (negb (URL.IsAbs u)); [discriminate|exact Hne].
Qed.

Lemma onCatalogItem_grows (limit : Z) (us : list string) (s : CatalogItem) :
  grows notEmpty limit us (onCatalogItem limit us s).
Proof.
  unfold onCatalogItem. destruct (reached limit us) eqn:E; [apply grows_refl|].
  match goal with |- context [negb (String.eqb ?h "")] =>
    destruct (String.eqb h "") eqn:Eh end; simpl; [apply grows_refl|].
  apply grows_snoc; [exact E|]. apply normalizeURL_nonempty.
  apply String.eqb_neq. exact Eh.
Qed.

Lemma tryCatalogSelectors_grows (limit : Z) (e : CatalogContainer) (sels : list string) :
  forall us, grows notEmpty limit us (tryCatalogSelectors limit e sels us).
Proof.
  induction sels as [|sel sels IH]; intros us; [apply grows_refl|].
  simpl.
  pose proof (grows_fold notEmpty limit (onCatalogItem limit) (catalogForEach e sel)
                (onCatalogItem_grows limit) us) as H.
  destruct (Nat.ltb 0 (length (fold_left (onCatalogItem limit) (catalogForEach e sel) us)));
    [exact H|].
  eapply grows_trans; [exact H|apply IH].
Qed.

Lemma onCatalogCard_grows (limit : Z) (us : list string) (href : string) :
  grows notEmpty limit us (onCatalogCard limit us href).
Proof.
  unfold onCatalogCard. destruct (reached limit us) eqn:E; [apply grows_refl|].
  destruct (String.eqb href "") eqn:Eh; simpl; [apply grows_refl|].
  apply grows_snoc; [exact E|]. apply normalizeURL_nonempty, String.eqb_neq, Eh.
Qed.

Lemma onItemLink_grows (limit : Z) (us : list string) (href : string) :
  grows notEmpty limit us (onItemLink limit us href).
Proof.
  unfold onItemLink. destruct (reached limit us) eqn:E; [apply grows_refl|].
  destruct (Contains href "/item/") eqn:Eh; [|apply grows_refl].
  apply grows_snoc; [exact E|]. apply normalizeURL_nonempty.
  eapply Contains_nonempty; [|exact Eh]. discriminate.
Qed.

Lemma onAnyLink_grows (limit : Z) (catalogURL : string) (us : list string) (href : string) :
  grows notEmpty limit us (onAnyLink limit catalogURL us href).
Proof.
  unfold onAnyLink. destruct (reached limit us) eqn:E; [apply grows_refl|].
  destruct (negb (HasPrefix href "/") && negb (Contains href "avito.ru")) eqn:Eh;
    [apply grows_refl|].
  destruct (skippedLink href); [apply grows_refl|].
  destruct (String.eqb (normalizeURL href) catalogURL); [apply grows_refl|].
  apply grows_snoc; [exact E|]. apply normalizeURL_nonempty.
  apply andb_false_iff in Eh as [Eh|Eh]; apply negb_false_iff in Eh.
  - eapply HasPrefix_nonempty; [|exact Eh]. discriminate.
  - eapply Contains_nonempty; [|exact Eh]. discriminate.
Qed.

Lemma onCatalogBody_grows (limit : Z) (catalogURL : string) (us : list string)
    (links : list string) :
  grows notEmpty limit us (onCatalogBody limit catalogURL us links).
Proof.
  unfold onCatalogBody. destruct (Nat.ltb 0 (length us)); [apply grows_refl|].
  pose proof (grows_fold notEmpty limit (onItemLink limit) links (onItemLink_grows limit) us)
    as H.
  destruct (Nat.eqb (length (fold_left (onItemLink limit) links us)) 0); [|exact H].
  eapply grows_trans; [exact H|].
  apply grows_fold. intros xs b. apply onAnyLink_grows.
Qed.

Lemma collectItemURLs_grows (limit : Z) (catalogURL : string) (page : CatalogPage) :
  grows notEmpty limit [] (collectItemURLs limit catalogURL page).
Proof.
  unfold collectItemURLs.
  eapply grows_trans; [|apply grows_fold; intros xs b; apply onCatalogBody_grows].
  eapply grows_trans; [|apply grows_fold; intros xs b; apply onCatalogCard_grows].
  apply grows_fold. intros xs e. apply tryCatalogSelectors_grows.
Qed.

(** X3.  The URLs that [handleCatalogPage] collects from a page are not empty,
    and a positive limit bounds their number. *)
Theorem collectItemURLs_bounded (limit : Z) (catalogURL : string) (page : CatalogPage) :
  Forall (fun u => u <> "") (collectItemURLs limit catalogURL page) /\
  (0 < limit ->
   Z.of_nat (length (collectItemURLs limit catalogURL page)) <= limit).
Proof. apply grows_nil, collectItemURLs_grows. Qed.


Lemma GetListingDetails_ids (listing : Listing.t) :
  let r := fst (GetListingDetails now visitDetail listing) in
  Listing.ID r = Listing.ID listing /\
  Listing.URL r = Listing.URL listing /\
  Listing.CategoryID r = Listing.CategoryID listing /\
  Listing.CategoryURL r = Listing.CategoryURL listing /\
  (Listing.Title listing <> "" -> Listing.Title r = Listing.Title listing).
Proof.
  unfold GetListingDetails.
  destruct (String.eqb (Listing.URL listing) ""); [simpl; repeat split|].
  destruct (visitDetail (Listing.URL listing)) as [err|page]; [simpl; repeat split|].
  cbv zeta. simpl fst.
  set (l1 := if String.eqb (Listing.Title listing) "" then _ else listing).
  assert (K1 : Listing.ID l1 = Listing.ID listing /\
               Listing.URL l1 = Listing.URL listing /\
               Listing.CategoryID l1 = Listing.CategoryID listing /\
               Listing.CategoryURL l1 = Listing.CategoryURL listing /\
               (Listing.Title listing <> "" -> Listing.Title l1 = Listing.Title listing)).
  { subst l1. destruct (String.eqb (Listing.Title listing) "") eqn:ET.
    - apply String.eqb_eq in ET.
      assert (G : forall ts l0,
        Listing.ID (fold_left onH1 ts l0) = Listing.ID l0 /\
        Listing.URL (fold_left onH1 ts l0) = Listing.URL l0 /\
        Listing.CategoryID (fold_left onH1 ts l0) = Listing.CategoryID l0 /\
        Listing.CategoryURL (fold_left onH1 ts l0) = Listing.CategoryURL l0).
      { induction ts as [|t ts IH]; intros l0; [repeat split|].
        simpl. destruct (IH (onH1 l0 t)) as (A & B & C & D).
        rewrite A, B, C, D. repeat split. }
      destruct (G (h1Texts page) listing) as (A & B & C & D).
      repeat split; try assumption. congruence.
    - repeat split. }
  destruct K1 as (A & B & C & D & E).
  pose proof (keeps_fold (onDetailBody now) (detailBodies page) (onDetailBody_keeps now) l1)
    as (A' & B' & C' & D' & E' & _).
  repeat split; try congruence.
  intros HT. rewrite E', (E HT). reflexivity.
Qed.

Section WithNested.
Variable getListings : string -> Z -> option (list Listing.t * option error).

Lemma appendUpTo_grows (P : Listing.t -> Prop) (limit : Z) (subs : list Listing.t) :
  Forall P subs -> forall ls, grows P limit ls (appendUpTo limit ls subs).
Proof.
  induction subs as [|x subs IH]; intros HP ls; [apply grows_refl|].
  simpl. destruct (reached limit ls) eqn:E; [apply grows_refl|].
  inversion HP as [|? ? Hx Hsubs]; subst.
  eapply grows_trans; [apply grows_snoc; [exact E|exact Hx]|apply IH, Hsubs].
Qed.

Lemma processURLs_grows (limit : Z) (catalogURL : string) (all : list string)
    (urls : list string) :
  (forall u, In u urls -> In u all) ->
  forall ls r,
  processURLs now visitDetail getListings limit catalogURL urls ls = Some r ->
  grows (fromCatalog getListings catalogURL all) limit ls r.
Proof.
  induction urls as [|url urls IH]; intros Hall ls r Hr.
  - injection Hr as <-. apply grows_refl.
  - assert (Hall' : forall u, In u urls -> In u all) by (intros u Hu; apply Hall; right; exact Hu).
    assert (Hin : In url all) by (apply Hall; left; reflexivity).
    simpl in Hr. destruct (reached limit ls) eqn:E.
    { injection Hr as <-. apply grows_refl. }
    destruct (Contains url "/item/") eqn:Eitem.
    + pose proof (GetListingDetails_ids (itemListing catalogURL url)) as Hid.
      cbv zeta in Hid.
      destruct (GetListingDetails now visitDetail (itemListing catalogURL url))
        as [enriched [err|]]; simpl in Hid.
      * destruct (negb (String.eqb (itemID url) ""));
          [|apply (IH Hall' _ _ Hr)].
        eapply grows_trans; [|apply (IH Hall' _ _ Hr)].
        apply grows_snoc; [exact E|]. left. simpl. auto.
      * eapply grows_trans; [|apply (IH Hall' _ _ Hr)].
        apply grows_snoc; [exact E|]. left.
        destruct Hid as (A & B & C & D & _). rewrite A, B, D. simpl. auto.
    + destruct (getListings url 1) as [[subs [err|]]|] eqn:Eg; [| |discriminate].
      * apply (IH Hall' _ _ Hr).
      * eapply grows_trans; [|apply (IH Hall' _ _ Hr)].
        apply appendUpTo_grows. apply List.Forall_forall. intros l Hl.
        right. exists url, subs. auto.
Qed.

(** X4.  Whatever the page holds and whatever the nested calls return,
    [handleCatalogPage] returns at most [limit] listings when [limit] is
    positive. *)
Theorem handleCatalogPage_limit (catalogURL : string) (limit : Z)
    (r : list Listing.t * option error) :
  0 < limit ->
  handleCatalogPage now visitDetail visitCatalog getListings catalogURL limit = Some r ->
  Z.of_nat (length (fst r)) <= limit.
Proof.
  intros Hl. unfold handleCatalogPage.
  destruct (visitCatalog catalogURL) as [err|page].
  { intros H. injection H as <-. simpl. lia. }
  destruct (processURLs now visitDetail getListings limit catalogURL
              (collectItemURLs limit catalogURL page) []) as [ls|] eqn:E; [|discriminate].
  intros H. injection H as <-. simpl.
  apply (processURLs_grows limit catalogURL _ _ (fun u H => H)) in E.
  apply grows_nil in E as [_ E]. exact (E Hl).
Qed.

(** X5.  When the catalog page is fetched, [handleCatalogPage] reports no error,
    and each listing it returns comes from a collected URL: from an item URL,
    with that URL, the catalog URL as its category URL and the digits that end
    the URL as its ID, or from the nested call for another URL. *)
Theorem handleCatalogPage_provenance (catalogURL : string) (limit : Z)
    (page : CatalogPage) (r : list Listing.t * option error) :
  visitCatalog catalogURL = VisitOK page ->
  handleCatalogPage now visitDetail visitCatalog getListings catalogURL limit = Some r ->
  snd r = None /\
  Forall (fromCatalog getListings catalogURL (collectItemURLs limit catalogURL page))
    (fst r).
Proof.
  intros Hv. unfold handleCatalogPage. rewrite Hv.
  destruct (processURLs now visitDetail getListings limit catalogURL
              (collectItemURLs limit catalogURL page) []) as [ls|] eqn:E; [|discriminate].
  intros H. injection H as <-. simpl. split; [reflexivity|].
  apply (processURLs_grows limit catalogURL _ _ (fun u H => H)) in E.
  apply grows_nil in E as [E _]. exact E.
Qed.

End WithNested.

End CatalogProperties.

(** *** The recursion of [GetListings] through [handleCatalogPage] *)

Section WithinProperties.
Context {L : GoLib}.
Variable now : Time.t.
Variable visitDetail : string -> Visit DetailPage.
Variable visitList : string -> Visit ListPage.
Variable visitCatalog : string -> Visit CatalogPage.

Lemma processURLs_mono
    (g g' : string -> Z -> option (list Listing.t * option error))
    (limit : Z) (catalogURL : string) (urls : list string) :
  (forall u, In u urls -> forall l r, g u l = Some r -> g' u l = Some r) ->
  forall ls r,
  processURLs now visitDetail g limit catalogURL urls ls = Some r ->
  processURLs now visitDetail g' limit catalogURL urls ls = Some r.
Proof.
  induction urls as [|url urls IH]; intros Hg ls r Hr; [exact Hr|].
  assert (Hg' : forall u, In u urls -> forall l r, g u l = Some r -> g' u l = Some r)
    by (intros u Hu; apply Hg; right; exact Hu).
  simpl in *. destruct (reached limit ls); [exact Hr|].
  destruct (Contains url "/item/").
  - destruct (GetListingDetails now visitDetail (itemListing catalogURL url)) as [e [err|]];
      apply (IH Hg'); exact Hr.
  - destruct (g url 1) as [res|] eqn:Eg; [|discriminate].
    rewrite (Hg url (or_introl eq_refl) 1 res Eg).
    destruct res as [subs [err|]]; apply (IH Hg'); exact Hr.
Qed.

Lemma handleCatalogPage_mono
    (g g' : string -> Z -> option (list Listing.t * option error))
    (catalogURL : string) (limit : Z) (r : list Listing.t * option error) :
  (forall u l r, g u l = Some r -> g' u l = Some r) ->
  handleCatalogPage now visitDetail visitCatalog g catalogURL limit = Some r ->
  handleCatalogPage now visitDetail visitCatalog g' catalogURL limit = Some r.
Proof.
  intros Hg. unfold handleCatalogPage.
  destruct (visitCatalog catalogURL) as [err|page]; [intros H; exact H|].
  destruct (processURLs now visitDetail g limit catalogURL
              (collectItemURLs limit catalogURL page) []) as [ls|] eqn:E; [|discriminate].
  rewrite (processURLs_mono g g' limit catalogURL _ (fun u _ => Hg u) [] ls E).
  intros H; exact H.
Qed.

Lemma GetListingsWithin_S (depth : nat) :
  forall url limit r,
  GetListingsWithin now visitDetail visitList visitCatalog depth url limit = Some r ->
  GetListingsWithin now visitDetail visitList visitCatalog (S depth) url limit = Some r.
Proof.
  induction depth as [|d IH]; intros url limit r Hr; [discriminate|].
  change (GetListingsWithin now visitDetail visitList visitCatalog (S (S d)) url limit)
    with (if Contains url "/catalog/" then
            handleCatalogPage now visitDetail visitCatalog
              (GetListingsWithin now visitDetail visitList visitCatalog (S d)) url limit
          else Some (GetListings now visitDetail visitList (fun _ _ => ([], None)) url limit)).
  change (GetListingsWithin now visitDetail visitList visitCatalog (S d) url limit)
    with (if Contains url "/catalog/" then
            handleCatalogPage now visitDetail visitCatalog
              (GetListingsWithin now visitDetail visitList visitCatalog d) url limit
          else Some (GetListings now visitDetail visitList (fun _ _ => ([], None)) url limit))
    in Hr.
  destruct (Contains url "/catalog/"); [|exact Hr].
  eapply handleCatalogPage_mono; [|exact Hr]. exact IH.
Qed.

Lemma processURLs_shallow
    (g : string -> Z -> option (list Listing.t * option error))
    (limit : Z) (catalogURL : string) (urls : list string) :
  (forall u, In u urls -> Contains u "/item/" = false -> exists r, g u 1 = Some r) ->
  forall ls, exists r, processURLs now visitDetail g limit catalogURL urls ls = Some r.
Proof.
  induction urls as [|url urls IH]; intros Hg ls; [eexists; reflexivity|].
  assert (Hg' : forall u, In u urls -> Contains u "/item/" = false -> exists r, g u 1 = Some r)
    by (intros u Hu; apply Hg; right; exact Hu).
  simpl. destruct (reached limit ls); [eexists; reflexivity|].
  destruct (Contains url "/item/") eqn:Ei.
  - destruct (GetListingDetails now visitDetail (itemListing catalogURL url)) as [e [err|]];
      apply (IH Hg').
  - destruct (Hg url (or_introl eq_refl) Ei) as [[subs [err|]] ->]; apply (IH Hg').
Qed.

(** X6.  [GetListings] returns within one call off the catalog path, whatever
    its [handleCatalogPage] is, and within two calls on a catalog page whose
    collected URLs are item pages or pages off the catalog path; a result within
    some depth is the result within any greater depth. *)
Theorem GetListingsWithin_returns :
  (forall depth url limit r,
     GetListingsWithin now visitDetail visitList visitCatalog depth url limit = Some r ->
     GetListingsWithin now visitDetail visitList visitCatalog (S depth) url limit = Some r) /\
  (forall h url limit,
     Contains url "/catalog/" = false ->
     GetListingsWithin now visitDetail visitList visitCatalog 1 url limit =
     Some (GetListings now visitDetail visitList h url limit)) /\
  (forall url limit page,
     visitCatalog url = VisitOK page ->
     forallb shallowURL (collectItemURLs limit url page) = true ->
     exists r,
     GetListingsWithin now visitDetail visitList visitCatalog 2 url limit = Some r).
Proof.
  split; [|split].
  - intros depth. apply GetListingsWithin_S.
  - intros h url limit Hc. simpl. unfold GetListings. rewrite Hc. reflexivity.
  - intros url limit page Hv Hs.
    change (GetListingsWithin now visitDetail visitList visitCatalog 2 url limit)
      with (if Contains url "/catalog/" then
              handleCatalogPage now visitDetail visitCatalog
                (GetListingsWithin now visitDetail visitList visitCatalog 1) url limit
            else Some (GetListings now visitDetail visitList (fun _ _ => ([], None)) url limit)).
    destruct (Contains url "/catalog/"); [|eexists; reflexivity].
    unfold handleCatalogPage. rewrite Hv.
    destruct (processURLs_shallow
                (GetListingsWithin now visitDetail visitList visitCatalog 1)
                limit url (collectItemURLs limit url page)) with (ls := @nil Listing.t)
      as [r ->]; [|eexists; reflexivity].
    intros u Hu Hi. rewrite forallb_forall in Hs. specialize (Hs u Hu).
    unfold shallowURL in Hs. rewrite Hi in Hs. simpl in Hs.
    apply negb_true_iff in Hs. simpl. rewrite Hs. eexists. reflexivity.
Qed.

Lemma reached_nil {A : Type} (limit : Z) : reached limit (@nil A) = false.
Proof.
  unfold reached. simpl. destruct (0 <? limit) eqn:E; [|reflexivity].
  apply Z.ltb_lt in E. simpl. apply Z.leb_gt. lia.
Qed.

Lemma collectItemURLs_linksTo (limit : Z) (a b : string) :
  catalogLink b = true -> a <> b ->
  collectItemURLs limit a (linksTo b) = [b].
Proof.
  unfold catalogLink. intros H Hab.
  apply andb_true_iff in H as [H H5]. apply andb_true_iff in H as [H H4].
  apply andb_true_iff in H as [H H3]. apply andb_true_iff in H as [H1 H2].
  apply negb_true_iff in H2, H5.
  unfold collectItemURLs, linksTo. simpl.
  unfold onCatalogBody. simpl.
  unfold onItemLink. rewrite reached_nil, H2. simpl.
  unfold onAnyLink. rewrite reached_nil, H4, H5, andb_false_r.
  assert (E : normalizeURL b = b) by (unfold normalizeURL; rewrite H3; reflexivity).
  rewrite E. destruct (String.eqb b a) eqn:Eb; [|reflexivity].
  apply String.eqb_eq in Eb. congruence.
Qed.

Lemma handleCatalogPage_stuck
    (g : string -> Z -> option (list Listing.t * option error))
    (a b : string) (limit : Z) :
  catalogLink b = true -> a <> b -> visitCatalog a = VisitOK (linksTo b) ->
  g b 1 = None ->
  handleCatalogPage now visitDetail visitCatalog g a limit = None.
Proof.
  intros Hb Hab Hv Hg. unfold handleCatalogPage.
  rewrite Hv, (collectItemURLs_linksTo limit a b Hb Hab). simpl.
  rewrite reached_nil.
  unfold catalogLink in Hb.
  apply andb_true_iff in Hb as [Hb _]. apply andb_true_iff in Hb as [Hb _].
  apply andb_true_iff in Hb as [Hb _]. apply andb_true_iff in Hb as [_ Hb].
  apply negb_true_iff in Hb. rewrite Hb, Hg. reflexivity.
Qed.

(** X7.  Two catalog pages that hold nothing but a link to each other: the calls
    nest without end, [GetListings] comes back from neither at any depth. *)
Theorem GetListingsWithin_endless (a b : string) :
  catalogLink a = true -> catalogLink b = true -> a <> b ->
  visitCatalog a = VisitOK (linksTo b) ->
  visitCatalog b = VisitOK (linksTo a) ->
  forall depth limit,
  GetListingsWithin now visitDetail visitList visitCatalog depth a limit = None.
Proof.
  intros Ha Hb Hab Hva Hvb.
  assert (Hca : Contains a "/catalog/" = true).
  { unfold catalogLink in Ha. repeat (apply andb_true_iff in Ha as [Ha _]). exact Ha. }
  assert (Hcb : Contains b "/catalog/" = true).
  { unfold catalogLink in Hb. repeat (apply andb_true_iff in Hb as [Hb _]). exact Hb. }
  assert (G : forall depth,
    (forall limit, GetListingsWithin now visitDetail visitList visitCatalog depth a limit = None) /\
    (forall limit, GetListingsWithin now visitDetail visitList visitCatalog depth b limit = None)).
  { induction depth as [|d [IHa IHb]]; [split; reflexivity|].
    split; intros limit; cbn [GetListingsWithin].
    - rewrite Hca. apply (handleCatalogPage_stuck _ a b); auto.
    - rewrite Hcb. apply (handleCatalogPage_stuck _ b a); auto. }
  intros depth. apply G.
Qed.

End WithinProperties.

(** *** [GetListings] off the catalog path, and [GetListingDetails] *)

Section DiscoveryProperties.
Context {L : GoLib}.
Variable visitList : string -> Visit ListPage.
Variable handleCatalogPage : string -> Z -> list Listing.t * option error.

Lemma enrich_ids (now : Time.t) (visitDetail : string -> Visit DetailPage)
    (l : Listing.t) :
  listingKey (enrich now visitDetail l) = listingKey l /\
  (Listing.Title l <> "" -> Listing.Title (enrich now visitDetail l) = Listing.Title l).
Proof.
  unfold enrich. destruct (negb (String.eqb (Listing.URL l) "")); [|split; reflexivity].
  pose proof (GetListingDetails_ids now visitDetail l) as H. cbv zeta in H.
  destruct (GetListingDetails now visitDetail l) as [e [err|]]; [split; reflexivity|].
  simpl in H. destruct H as (A & B & _ & D & E).
  split; [|exact E]. unfold listingKey. rewrite A, B, D. reflexivity.
Qed.

(** X8.  The IDs, the URLs and the category URLs of the listings that
    [GetListings] returns, their number and their order, and the error, are the
    same whatever the detail pages hold and whenever they are read: enrichment
    drops no listing and adds none. (On the catalog path the result is what
    [handleCatalogPage], a parameter here, returns.) *)
Theorem GetListings_identity (now now' : Time.t)
    (visitDetail visitDetail' : string -> Visit DetailPage)
    (categoryURL : string) (limit : Z) :
  map listingKey
    (fst (GetListings now visitDetail visitList handleCatalogPage categoryURL limit)) =
  map listingKey
    (fst (GetListings now' visitDetail' visitList handleCatalogPage categoryURL limit)) /\
  snd (GetListings now visitDetail visitList handleCatalogPage categoryURL limit) =
  snd (GetListings now' visitDetail' visitList handleCatalogPage categoryURL limit).
Proof.
  unfold GetListings.
  destruct (Contains categoryURL "/catalog/"); [split; reflexivity|].
  destruct (visitList categoryURL) as [err|page]; [split; reflexivity|].
  cbv zeta.
  destruct (Nat.ltb 0 (length (fold_left (onListBody limit categoryURL) (listBodies page)
              (fold_left (onSerp limit categoryURL) (serpContainers page) []))));
    [|split; reflexivity].
  simpl. split; [|reflexivity].
  rewrite !map_map. apply map_ext. intros l.
  rewrite (proj1 (enrich_ids now visitDetail l)), (proj1 (enrich_ids now' visitDetail' l)).
  reflexivity.
Qed.

Lemma forEachCard_titled (limit : Z) (url : string) (cards : list Card) :
  forall count ls,
  grows (titledIn url) 0 ls (fst (forEachCard limit url cards count ls)).
Proof.
  induction cards as [|item cards IH]; intros count ls; [apply grows_refl|].
  rewrite forEachCard_cons.
  destruct ((0 <? limit) && (limit <=? count)); [apply IH|].
  destruct (negb (String.eqb (Listing.ID (parseListing item)) "") &&
            negb (String.eqb (Listing.Title (parseListing item)) "")) eqn:E; [|apply IH].
  eapply grows_trans; [|apply IH].
  apply grows_snoc; [reflexivity|].
  apply andb_true_iff in E as [_ E]. apply negb_true_iff, String.eqb_neq in E.
  split; [exact E|reflexivity].
Qed.

Lemma trySelectors_titled (limit : Z) (url : string) (e : Container) (sels : list string) :
  forall ls, grows (titledIn url) 0 ls (trySelectors limit url e sels ls).
Proof.
  induction sels as [|sel sels IH]; intros ls; [apply grows_refl|].
  simpl. pose proof (forEachCard_titled limit url (forEach e sel) 0 ls) as H.
  destruct (forEachCard limit url (forEach e sel) 0 ls) as [ls' c]. simpl in H.
  destruct (0 <? c); [exact H|].
  eapply grows_trans; [exact H|apply IH].
Qed.

Lemma onAnchor_titled (limit : Z) (url : string) (anchors : list ItemAnchor) :
  forall ls count,
  grows (titledIn url) 0 ls (fst (fold_left (onAnchor limit url) anchors (ls, count))).
Proof.
  induction anchors as [|s anchors IH]; intros ls count; [apply grows_refl|].
  change (fold_left (onAnchor limit url) (s :: anchors) (ls, count))
    with (fold_left (onAnchor limit url) anchors (onAnchor limit url (ls, count) s)).
  unfold onAnchor at 2.
  destruct ((0 <? limit) && (limit <=? count)); [apply IH|].
  destruct (item_href s) as [href|]; [|apply IH].
  destruct (Contains href "/item/"); [|apply IH].
  destruct (negb (String.eqb
              (orElse (TrimSpace (item_text s)) (TrimSpace (item_heading s))) "")) eqn:E;
    [|apply IH].
  eapply grows_trans; [|apply IH].
  apply grows_snoc; [reflexivity|].
  apply negb_true_iff, String.eqb_neq in E. split; [exact E|reflexivity].
Qed.

Lemma onListBody_titled (limit : Z) (url : string) (ls : list Listing.t)
    (anchors : list ItemAnchor) :
  grows (titledIn url) 0 ls (onListBody limit url ls anchors).
Proof.
  unfold onListBody. destruct (Nat.ltb 0 (length ls)); [apply grows_refl|].
  apply onAnchor_titled.
Qed.

(** X9.  Off the catalog path, every listing that [GetListings] returns has a
    title and has the URL of the call as its category URL. *)
Theorem GetListings_titled (now : Time.t) (visitDetail : string -> Visit DetailPage)
    (categoryURL : string) (limit : Z) :
  Contains categoryURL "/catalog/" = false ->
  Forall (titledIn categoryURL)
    (fst (GetListings now visitDetail visitList handleCatalogPage categoryURL limit)).
Proof.
  intros Hc. unfold GetListings. rewrite Hc.
  destruct (visitList categoryURL) as [err|page]; [constructor|].
  cbv zeta.
  set (ls := fold_left (onListBody limit categoryURL) (listBodies page)
               (fold_left (onSerp limit categoryURL) (serpContainers page) [])).
  assert (H : Forall (titledIn categoryURL) ls).
  { apply (grows_nil (titledIn categoryURL) 0). subst ls.
    eapply grows_trans;
      [|apply grows_fold; intros xs b; apply onListBody_titled].
    apply grows_fold. intros xs e. apply trySelectors_titled. }
  destruct (Nat.ltb 0 (length ls)); simpl; [|exact H].
  apply List.Forall_forall. intros l' Hl'. apply in_map_iff in Hl' as (l & <- & Hl).
  rewrite List.Forall_forall in H. destruct (H l Hl) as [HT HC].
  destruct (enrich_ids now visitDetail l) as [Hid Htitle].
  unfold listingKey in Hid. injection Hid as _ _ Hcat.
  split; [rewrite (Htitle HT); exact HT|congruence].
Qed.

End DiscoveryProperties.

Section DetailsFailure.
Context {L : GoLib}.
Variable now : Time.t.
Variable visit : string -> Visit DetailPage.

(** X10.  [GetListingDetails] fails exactly when the listing has no URL or the
    visit of its page fails, and then it returns the listing as it got it. *)
Theorem GetListingDetails_failure (listing : Listing.t) :
  (snd (GetListingDetails now visit listing) <> None <->
   Listing.URL listing = "" \/ exists err, visit (Listing.URL listing) = VisitErr err) /\
  (snd (GetListingDetails now visit listing) <> None ->
   fst (GetListingDetails now visit listing) = listing).
Proof.
  unfold GetListingDetails.
  destruct (String.eqb (Listing.URL listing) "") eqn:EU.
  { apply String.eqb_eq in EU. simpl. split; [|reflexivity].
    split; [intros _; left; exact EU|discriminate]. }
  apply String.eqb_neq in EU.
  destruct (visit (Listing.URL listing)) as [err|page]; simpl.
  - split; [|reflexivity]. split; [intros _; right; exists err; reflexivity|discriminate].
  - split; [|congruence]. split; [congruence|].
    intros [H|[err H]]; [contradiction|discriminate].
Qed.

Lemma fold_onDetailBody_title (bs : list DetailBody) (l : Listing.t) :
  Listing.Title (fold_left (onDetailBody now) bs l) = Listing.Title l.
Proof.
  pose proof (keeps_fold (onDetailBody now) bs (onDetailBody_keeps now) l)
    as (_ & _ & _ & _ & E & _).
  exact E.
Qed.

(** X11.  A listing without a title gets the trimmed text of the last [h1] of
    its page; when the page has no [h1] it stays without one. *)
Theorem GetListingDetails_title (listing : Listing.t) (page : DetailPage) :
  Listing.URL listing <> "" ->
  Listing.Title listing = "" ->
  visit (Listing.URL listing) = VisitOK page ->
  Listing.Title (fst (GetListingDetails now visit listing)) =
    match last (h1Texts page) with
    | Some text => TrimSpace text
    | None => ""
    end.
Proof.
  intros HU HT HV. unfold GetListingDetails.
  apply String.eqb_neq in HU. rewrite HU, HV, HT. simpl.
  rewrite fold_onDetailBody_title.
  destruct (h1Texts page) as [|t ts] using rev_ind; [exact HT|].
  rewrite fold_left_app, last_snoc. reflexivity.
Qed.

End DetailsFailure.

(** *** [GetCategories] and [getSubcategories] *)

Section DiscoveredCategories.
Context {L : GoLib}.
Variable visitRoot : string -> Visit RootPage.
Variable visitCategory : string -> Visit CategoryPage.

Lemma wellKeyed_insert (m : gmap string Category.t) (name url : string) :
  wellKeyed m -> name <> "" -> wellKeyed (<[url := newCategory name url]> m).
Proof.
  intros Hm Hn u c. destruct (decide (url = u)) as [->|Hne].
  - rewrite lookup_insert_eq. intros H. injection H as <-. repeat split. exact Hn.
  - rewrite lookup_insert_ne by exact Hne. apply Hm.
Qed.

Lemma wellKeyed_addIfAbsent (m : gmap string Category.t) (name url : string) :
  wellKeyed m -> name <> "" -> wellKeyed (addIfAbsent m name url).
Proof.
  intros Hm Hn. unfold addIfAbsent. destruct (m !! url); [exact Hm|].
  apply wellKeyed_insert; assumption.
Qed.

Lemma guard_name (href name : string) :
  negb (String.eqb href "") && negb (String.eqb name "") = true -> name <> "".
Proof.
  intros H. apply andb_true_iff in H as [_ H].
  apply negb_true_iff, String.eqb_neq in H. exact H.
Qed.

Lemma wellKeyed_onGridItem (m : gmap string Category.t) (e : Link) :
  wellKeyed m -> wellKeyed (onGridItem m e).
Proof.
  intros Hm. unfold onGridItem.
  destruct (negb (String.eqb (linkHref e) "") &&
            negb (String.eqb (cleanText (linkText e)) "")) eqn:G; [|exact Hm].
  apply guard_name in G.
  destruct (m !! normalizeURL (linkHref e)) as [existing|] eqn:E;
    [|apply wellKeyed_insert; assumption].
  destruct (String.eqb (Category.Name existing) ""); [|exact Hm].
  destruct (Hm _ _ E) as (HU & _ & HS). rewrite HU, HS.
  apply (wellKeyed_insert m _ _ Hm G).
Qed.

Lemma wellKeyed_onDropdownLink (m : gmap string Category.t) (e : Link) :
  wellKeyed m -> wellKeyed (onDropdownLink m e).
Proof.
  intros Hm. unfold onDropdownLink.
  destruct (negb (String.eqb (linkHref e) "") &&
            negb (String.eqb (cleanText (linkText e)) "")) eqn:G; [|exact Hm].
  apply wellKeyed_insert; [exact Hm|exact (guard_name _ _ G)].
Qed.

Lemma wellKeyed_onMiniMenuLink (m : gmap string Category.t) (e : Link) :
  wellKeyed m -> wellKeyed (onMiniMenuLink m e).
Proof.
  intros Hm. unfold onMiniMenuLink.
  destruct (negb (String.eqb (linkHref e) "") &&
            negb (String.eqb (cleanText (linkText e)) "")) eqn:G; [|exact Hm].
  apply wellKeyed_addIfAbsent; [exact Hm|exact (guard_name _ _ G)].
Qed.

Lemma wellKeyed_onTopNavLink (m : gmap string Category.t) (e : Link) :
  wellKeyed m -> wellKeyed (onTopNavLink m e).
Proof.
  intros Hm. unfold onTopNavLink.
  destruct (HasPrefix (linkHref e) "/" &&
            negb (String.eqb (cleanText (linkText e)) "")) eqn:G; [|exact Hm].
  apply wellKeyed_addIfAbsent; [exact Hm|].
  apply andb_true_iff in G as [_ G]. apply negb_true_iff, String.eqb_neq in G. exact G.
Qed.

Lemma wellKeyed_onServiceItem (m : gmap string Category.t) (e : Anchor) :
  wellKeyed m -> wellKeyed (onServiceItem m e).
Proof.
  intros Hm. unfold onServiceItem. destruct (anchorHref e) as [href|]; [|exact Hm].
  destruct (negb (String.eqb href "") &&
            negb (String.eqb (cleanText (anchorText e)) "")) eqn:G; [|exact Hm].
  apply wellKeyed_addIfAbsent; [exact Hm|exact (guard_name _ _ G)].
Qed.

Lemma wellKeyed_fold {A : Type} (f : gmap string Category.t -> A -> gmap string Category.t)
    (xs : list A) :
  (forall m x, wellKeyed m -> wellKeyed (f m x)) ->
  forall m, wellKeyed m -> wellKeyed (fold_left f xs m).
Proof.
  intros Hf. induction xs as [|x xs IH]; intros m Hm; [exact Hm|].
  simpl. apply IH, Hf, Hm.
Qed.

Lemma wellKeyed_collectCategories (page : RootPage) : wellKeyed (collectCategories page).
Proof.
  unfold collectCategories.
  apply wellKeyed_fold; [apply wellKeyed_onServiceItem|].
  apply wellKeyed_fold; [apply wellKeyed_onTopNavLink|].
  apply wellKeyed_fold; [apply wellKeyed_onMiniMenuLink|].
  apply wellKeyed_fold; [apply wellKeyed_onDropdownLink|].
  apply wellKeyed_fold; [apply wellKeyed_onGridItem|].
  intros u c H. rewrite lookup_empty in H. discriminate.
Qed.

Lemma withSubcategories_keeps (cat : Category.t) :
  Category.URL (withSubcategories visitCategory cat) = Category.URL cat /\
  Category.Name (withSubcategories visitCategory cat) = Category.Name cat /\
  (Contains (Category.URL cat) "/all/" = false ->
   withSubcategories visitCategory cat = cat).
Proof.
  unfold withSubcategories. destruct (Contains (Category.URL cat) "/all/").
  - destruct (getSubcategories visitCategory (Category.URL cat)) as [subs [err|]];
      repeat split; discriminate.
  - repeat split.
Qed.

(** X12.  The categories that [GetCategories] returns have pairwise different
    URLs and each has a name; one whose URL does not hold "/all/" has no
    subcategories. Once the start page is fetched there is no error, whatever
    happens to the category pages, and the categories are as many as the entries
    of the map. *)
Theorem GetCategories_distinct :
  let r := GetCategories visitRoot visitCategory in
  NoDup (map Category.URL (fst r)) /\
  Forall (fun c => Category.Name c <> "") (fst r) /\
  Forall (fun c => Contains (Category.URL c) "/all/" = false ->
                   Category.Subcategories c = []) (fst r) /\
  (forall page, visitRoot baseURL = VisitOK page ->
     snd r = None /\ length (fst r) = size (collectCategories page)).
Proof.
  unfold GetCategories.
  destruct (visitRoot baseURL) as [err|page]; cbv zeta.
  { simpl. repeat split; try constructor; discriminate. }
  pose proof (wellKeyed_collectCategories page) as Hm.
  set (m := collectCategories page) in *.
  destruct (Nat.ltb 0 (size m)) eqn:Es; simpl.
  - assert (Hin : forall p, In p (map_to_list m) ->
              Category.URL p.2 = p.1 /\ Category.Name p.2 <> "" /\
              Category.Subcategories p.2 = []).
    { intros [u c] Hp. apply list_elem_of_In, elem_of_map_to_list in Hp.
      exact (Hm u c Hp). }
    split; [|split; [|split]].
    + rewrite !map_map.
      rewrite (map_ext_in _ fst).
      * exact (NoDup_fst_map_to_list m).
      * intros p Hp. destruct (withSubcategories_keeps p.2) as (-> & _).
        apply Hin, Hp.
    + apply List.Forall_forall. intros c Hc.
      apply in_map_iff in Hc as (c0 & <- & Hc0). apply in_map_iff in Hc0 as (p & <- & Hp).
      destruct (withSubcategories_keeps p.2) as (_ & -> & _). apply Hin, Hp.
    + apply List.Forall_forall. intros c Hc.
      apply in_map_iff in Hc as (c0 & <- & Hc0). apply in_map_iff in Hc0 as (p & <- & Hp).
      destruct (withSubcategories_keeps p.2) as (EU & _ & Hk). rewrite EU.
      intros Hall. rewrite (Hk Hall). apply Hin, Hp.
    + intros page' H. injection H as <-. split; [reflexivity|].
      rewrite !length_map. apply length_map_to_list.
  - apply Nat.ltb_ge in Es.
    split; [constructor|]. split; [constructor|]. split; [constructor|].
    intros page' H. injection H as <-. split; [reflexivity|]. simpl. fold m. lia.
Qed.

Lemma onCategoryMapLink_named (subs : list Category.t) (s : Anchor) :
  Forall namedLeaf subs -> Forall namedLeaf (onCategoryMapLink subs s).
Proof.
  intros H. unfold onCategoryMapLink. destruct (anchorHref s) as [href|]; [|exact H].
  destruct (String.eqb (cleanText (anchorText s)) "") eqn:E; simpl; [exact H|].
  apply Forall_app. split; [exact H|].
  constructor; [|constructor]. apply String.eqb_neq in E. split; [exact E|reflexivity].
Qed.

Lemma existsb_URL (subs : list Category.t) (u : string) :
  existsb (fun existingSub => String.eqb (Category.URL existingSub) u) subs = false ->
  ~ In u (map Category.URL subs).
Proof.
  intros H Hin. apply in_map_iff in Hin as (c & Hc & Hin).
  assert (E : existsb (fun existingSub => String.eqb (Category.URL existingSub) u) subs = true).
  { apply existsb_exists. exists c. split; [exact Hin|]. apply String.eqb_eq, Hc. }
  congruence.
Qed.

Lemma onRubricatorLink_keeps (subs : list Category.t) (s : Anchor) :
  (Forall namedLeaf subs -> Forall namedLeaf (onRubricatorLink subs s)) /\
  (NoDup (map Category.URL subs) ->
   NoDup (map Category.URL (onRubricatorLink subs s))).
Proof.
  unfold onRubricatorLink. destruct (anchorHref s) as [href|]; [|split; auto].
  destruct (String.eqb (cleanText (anchorText s)) "") eqn:E; simpl; [split; auto|].
  destruct (existsb (fun existingSub =>
              String.eqb (Category.URL existingSub) (normalizeURL href)) subs) eqn:Ed;
    simpl; [split; auto|].
  split.
  - intros H. apply Forall_app. split; [exact H|].
    constructor; [|constructor]. apply String.eqb_neq in E. split; [exact E|reflexivity].
  - intros H. rewrite map_app. simpl.
    apply NoDup_app. repeat split.
    + exact H.
    + intros u Hu Hu'. apply list_elem_of_singleton in Hu'. subst u.
      apply list_elem_of_In in Hu. exact (existsb_URL subs _ Ed Hu).
    + apply NoDup_singleton.
Qed.

Lemma fold_fold {A B : Type} (P : list A -> Prop) (f : list A -> B -> list A)
    (xss : list (list B)) :
  (forall xs b, P xs -> P (f xs b)) ->
  forall xs, P xs -> P (fold_left (fun acc bs => fold_left f bs acc) xss xs).
Proof.
  intros Hf. induction xss as [|bs xss IH]; intros xs Hxs; [exact Hxs|].
  simpl. apply IH. revert xs Hxs.
  induction bs as [|b bs IHb]; intros xs Hxs; [exact Hxs|].
  simpl. apply IHb, Hf, Hxs.
Qed.

(** X13.  Every subcategory that [getSubcategories] returns has a name and no
    subcategories of its own. When the page is fetched there is no error, and
    the links of the rubricator lists add no URL a second time: if the category
    maps gave pairwise different URLs, so are the URLs of the result. *)
Theorem getSubcategories_distinct (categoryURL : string) :
  let r := getSubcategories visitCategory categoryURL in
  Forall namedLeaf (fst r) /\
  (forall page, visitCategory categoryURL = VisitOK page ->
     snd r = None /\
     (NoDup (map Category.URL (fromCategoryMaps page)) ->
      NoDup (map Category.URL (fst r)))).
Proof.
  unfold getSubcategories.
  destruct (visitCategory categoryURL) as [err|page]; cbv zeta; simpl.
  { split; [constructor|discriminate]. }
  split.
  - apply (fold_fold (Forall namedLeaf));
      [intros xs b; apply (onRubricatorLink_keeps xs b)|].
    apply (fold_fold (Forall namedLeaf)); [apply onCategoryMapLink_named|constructor].
  - intros page' H. injection H as <-. split; [reflexivity|].
    apply (fold_fold (fun subs => NoDup (map Category.URL subs))).
    intros xs b. apply (onRubricatorLink_keeps xs b).
Qed.

End DiscoveredCategories.

(** *** [ParseItemsFromHTML] *)

Section ParseItemsProperties.
Context {L : GoLib}.
Variable NewDocumentFromReader : string -> Visit HtmlDoc.

Lemma itemLink_item (anchors : list Anchor) (href : string) :
  itemLink anchors = Some href -> Contains href "/item/" = true.
Proof.
  induction anchors as [|a anchors IH]; [discriminate|].
  simpl. destruct (anchorHref a) as [h|]; [|exact IH].
  destruct (Contains h "/item/") eqn:E; [|exact IH].
  intros H. injection H as <-. exact E.
Qed.

Lemma onHtmlItem_parsed (ls : list Listing.t) (item : HtmlItem) :
  Forall parsedItem ls -> Forall parsedItem (onHtmlItem ls item).
Proof.
  intros H. unfold onHtmlItem.
  set (title := if String.eqb (firstTitle item titleSelectors) "" then _ else _).
  set (url := match itemLink (hi_anchors item) with Some href => _ | None => "" end).
  destruct (negb (String.eqb title "") || negb (String.eqb url "")) eqn:E; [|exact H].
  apply Forall_app. split; [exact H|]. constructor; [|constructor].
  split; [|split].
  - simpl. apply orb_true_iff in E as [E|E];
      apply negb_true_iff, String.eqb_neq in E; [left|right]; exact E.
  - simpl. subst url. destruct (itemLink (hi_anchors item)) as [href|] eqn:El;
      [|left; reflexivity].
    right. exists href. split; [exact (itemLink_item _ _ El)|reflexivity].
  - repeat split.
Qed.

Lemma onHtmlLink_linked (ls : list Listing.t) (a : HtmlAnchor) :
  Forall (fun l => linkedItem l /\ summaryOnly l) ls ->
  Forall (fun l => linkedItem l /\ summaryOnly l) (onHtmlLink ls a).
Proof.
  intros H. unfold onHtmlLink.
  destruct (Contains (ha_href a) "/item/") eqn:Ei; [|exact H].
  destruct (String.eqb (orElse (TrimSpace (ha_text a)) (TrimSpace (ha_title a))) "") eqn:Et;
    [exact H|].
  apply Forall_app. split; [exact H|]. constructor; [|constructor].
  split; [|repeat split]. split.
  - simpl. apply String.eqb_neq. exact Et.
  - exists (ha_href a). repeat split. exact Ei.
Qed.

Lemma linked_parsed (l : Listing.t) : linkedItem l /\ summaryOnly l -> parsedItem l.
Proof.
  intros [[Ht (href & Hi & Hu & _)] Hs]. split; [left; exact Ht|].
  split; [right; exists href; split; assumption|exact Hs].
Qed.

Lemma Forall_fold {A B : Type} (P : A -> Prop) (f : list A -> B -> list A) (bs : list B) :
  (forall xs b, Forall P xs -> Forall P (f xs b)) ->
  forall xs, Forall P xs -> Forall P (fold_left f bs xs).
Proof.
  intros Hf. induction bs as [|b bs IH]; intros xs Hxs; [exact Hxs|].
  simpl. apply IH, Hf, Hxs.
Qed.

Lemma tryHtmlSelectors_parsed (doc : HtmlDoc) (sels : list string) (ls : list Listing.t) :
  tryHtmlSelectors doc sels = Some ls -> Forall parsedItem ls.
Proof.
  induction sels as [|sel sels IH]; [discriminate|].
  simpl. destruct (Nat.ltb 0 (length (docFind doc sel))); [|exact IH].
  intros H. injection H as <-.
  apply Forall_fold; [apply onHtmlItem_parsed|constructor].
Qed.

Lemma tryHtmlSelectors_none (doc : HtmlDoc) (sels : list string) :
  (forall sel, In sel sels -> docFind doc sel = []) ->
  tryHtmlSelectors doc sels = None.
Proof.
  induction sels as [|sel sels IH]; intros H; [reflexivity|].
  simpl. rewrite (H sel (or_introl eq_refl)). simpl.
  apply IH. intros s Hs. apply H. right. exact Hs.
Qed.

(** X14.  Every listing that [ParseItemsFromHTML] returns has a title or a URL;
    a URL it has is made of a link to an item page; it carries nothing but an
    ID, a title, a URL and a price. There is an error exactly when the content
    cannot be parsed, and then no listing. *)
Theorem ParseItemsFromHTML_listings (htmlContent : string) :
  let r := ParseItemsFromHTML NewDocumentFromReader htmlContent in
  Forall parsedItem (fst r) /\
  (snd r <> None <-> exists err, NewDocumentFromReader htmlContent = VisitErr err) /\
  (snd r <> None -> fst r = []).
Proof.
  unfold ParseItemsFromHTML.
  destruct (NewDocumentFromReader htmlContent) as [err|doc]; cbv zeta.
  { simpl. split; [constructor|]. split; [|reflexivity].
    split; [intros _; exists err; reflexivity|discriminate]. }
  assert (F : forall ls, ls = [] ->
            Forall parsedItem (fold_left onHtmlLink (docLinks doc) ls)).
  { intros ls ->. eapply Forall_impl; [|exact linked_parsed].
    apply Forall_fold; [apply onHtmlLink_linked|constructor]. }
  destruct (tryHtmlSelectors doc htmlItemSelectors) as [ls|] eqn:E.
  - pose proof (tryHtmlSelectors_parsed doc _ ls E) as Hls.
    simpl negb. simpl orb. destruct (Nat.eqb (length ls) 0) eqn:El; simpl.
    + split; [|split; [split; [congruence|intros [err H]; discriminate]|congruence]].
      apply F. apply Nat.eqb_eq in El. destruct ls; [reflexivity|discriminate].
    + split; [exact Hls|].
      split; [split; [congruence|intros [err H]; discriminate]|congruence].
  - simpl. split; [apply F; reflexivity|].
    split; [split; [congruence|intros [err H]; discriminate]|congruence].
Qed.

(** X15.  When no item selector finds anything in the document, the listings
    come from its links to item pages: each has a title, the normalized link as
    its URL and the digits that end the link as its ID, and there are no more
    listings than links. *)
Theorem ParseItemsFromHTML_links (htmlContent : string) (doc : HtmlDoc) :
  NewDocumentFromReader htmlContent = VisitOK doc ->
  (forall selector, In selector htmlItemSelectors -> docFind doc selector = []) ->
  Forall linkedItem (fst (ParseItemsFromHTML NewDocumentFromReader htmlContent)) /\
  (length (fst (ParseItemsFromHTML NewDocumentFromReader htmlContent))
   <= length (docLinks doc))%nat.
Proof.
  intros Hd Hnone. unfold ParseItemsFromHTML.
  rewrite Hd, (tryHtmlSelectors_none doc _ Hnone). simpl. split.
  - apply (Forall_impl (fun l => linkedItem l /\ summaryOnly l));
      [|intros l [H _]; exact H].
    apply Forall_fold; [apply onHtmlLink_linked|constructor].
  - assert (G : forall links ls,
      (length (fold_left onHtmlLink links ls) <= length ls + length links)%nat).
    { induction links as [|a links IH]; intros ls; [simpl; lia|].
      simpl. specialize (IH (onHtmlLink ls a)).
      assert (length (onHtmlLink ls a) <= S (length ls))%nat; [|lia].
      unfold onHtmlLink. destruct (Contains (ha_href a) "/item/"); [|lia].
      destruct (String.eqb _ ""); [lia|]. rewrite length_app. simpl. lia. }
    apply (G (docLinks doc) []).
Qed.

End ParseItemsProperties.

(** *** More on [parsePrice] and on the ID of an item URL *)

Lemma digit_not_dot (c : ascii) : isDigit c = true -> Ascii.eqb c "." = false.
Proof.
  intros H. destruct (Ascii.eqb c ".") eqn:E; [|reflexivity].
  apply Ascii.eqb_eq in E. subst c. discriminate H.
Qed.

Lemma readDigits_dots (s : string) (m : N) (n : nat) :
  countByte "." (snd (readDigits m n s)) = countByte "." s.
Proof.
  revert m n. induction s as [|c s IH]; intros m n; [reflexivity|].
  simpl readDigits. destruct (isDigit c) eqn:Ed; [|reflexivity].
  rewrite IH. simpl countByte. rewrite (digit_not_dot c Ed). reflexivity.
Qed.

Lemma readDigits_no_digit (s : string) (m : N) (n : nat) :
  anyByte isDigit s = false -> readDigits m n s = (m, n, s).
Proof.
  destruct s as [|c s]; [reflexivity|]. simpl.
  intros H. apply orb_false_iff in H as [-> _]. reflexivity.
Qed.

Lemma ParseFloat_no_digit (s : string) :
  anyByte isDigit s = false -> ParseFloat s = None.
Proof.
  intros H. unfold ParseFloat. rewrite (readDigits_no_digit s _ _ H).
  destruct s as [|c r]; [reflexivity|].
  destruct (Ascii.eqb c ".") eqn:Ec.
  - apply Ascii.eqb_eq in Ec. subst c. simpl in H.
    rewrite (readDigits_no_digit r _ _ H).
    destruct r; reflexivity.
  - assert (E : match String c r with
                | String "." r' => readDigits 0%N 0%nat r'
                | _ => (0%N, 0%nat, String c r)
                end = (0%N, 0%nat, String c r)).
    { destruct c as [[] [] [] [] [] [] [] []]; first [reflexivity | discriminate Ec]. }
    rewrite E. reflexivity.
Qed.

Lemma ParseFloat_dots (s : string) (v : Q) :
  ParseFloat s = Some v -> (countByte "." s <= 1)%nat.
Proof.
  unfold ParseFloat. pose proof (readDigits_dots s 0%N 0%nat) as H1.
  destruct (readDigits 0%N 0%nat s) as [[m1 n1] rest]. simpl in H1. rewrite <- H1.
  destruct rest as [|c r]; [simpl; lia|].
  destruct (Ascii.eqb c ".") eqn:Ec.
  - apply Ascii.eqb_eq in Ec. subst c.
    pose proof (readDigits_dots r m1 0%nat) as H2.
    destruct (readDigits m1 0%nat r) as [[m2 n2] rest']. simpl in H2.
    destruct rest' as [|c' r']; [|discriminate].
    intros _. simpl countByte. rewrite <- H2. simpl. lia.
  - assert (E : match String c r with
                | String "." r' => readDigits m1 0%nat r'
                | _ => (m1, 0%nat, String c r)
                end = (m1, 0%nat, String c r)).
    { destruct c as [[] [] [] [] [] [] [] []]; first [reflexivity | discriminate Ec]. }
    rewrite E. discriminate.
Qed.

Lemma ParseFloat_nonneg (s : string) (v : Q) : ParseFloat s = Some v -> (0 <= v)%Q.
Proof.
  unfold ParseFloat.
  destruct (readDigits 0%N 0%nat s) as [[m1 n1] rest].
  destruct (match rest with
            | String "." r => readDigits m1 0%nat r
            | _ => (m1, 0%nat, rest)
            end) as [[m2 n2] rest'].
  destruct (negb (String.eqb rest' "") || Nat.eqb (n1 + n2) 0); [discriminate|].
  destruct (float64Overflow * 10 ^ Z.of_nat n2 <=? Z.of_N m2); [discriminate|].
  intros H. injection H as <-. rewrite Qred_correct.
  unfold Qle. simpl. lia.
Qed.

Lemma anyByte_takeWhile (P Q : ascii -> bool) (s : string) :
  anyByte P s = false -> anyByte P (takeWhile Q s) = false.
Proof.
  induction s as [|c s IH]; [reflexivity|]. simpl.
  intros H. apply orb_false_iff in H as [Hc Hs].
  destruct (Q c); [|reflexivity]. simpl. rewrite Hc, (IH Hs). reflexivity.
Qed.

Lemma anyByte_dropWhile (P Q : ascii -> bool) (s : string) :
  anyByte P s = false -> anyByte P (dropWhile Q s) = false.
Proof.
  induction s as [|c s IH]; [reflexivity|]. simpl.
  intros H. destruct (Q c); [|exact H].
  apply orb_false_iff in H as [_ Hs]. exact (IH Hs).
Qed.

Lemma digit_cleaned (run : string) :
  anyByte isDigit run = false ->
  anyByte isDigit (commasToDots (stripBytes isSpaceByte run)) = false.
Proof.
  induction run as [|c run IH]; [reflexivity|]. simpl.
  intros H. apply orb_false_iff in H as [Hc Hs].
  destruct (isSpaceByte c); [exact (IH Hs)|]. simpl. rewrite (IH Hs), orb_false_r.
  destruct (Ascii.eqb c ","); [reflexivity|exact Hc].
Qed.

Lemma dots_cleaned (run : string) :
  countByte "." (commasToDots (stripBytes isSpaceByte run)) =
  (countByte "," run + countByte "." run)%nat.
Proof.
  induction run as [|c run IH]; [reflexivity|]. simpl stripBytes.
  destruct (isSpaceByte c) eqn:Es.
  - unfold isSpaceByte in Es. apply Ascii.eqb_eq in Es. subst c. rewrite IH. reflexivity.
  - simpl. rewrite IH. destruct (Ascii.eqb c ",") eqn:Ec.
    + apply Ascii.eqb_eq in Ec. subst c. simpl. lia.
    + simpl. destruct (Ascii.eqb c "."); simpl; lia.
Qed.

(** X16.  The value that [parsePrice] returns is never negative; it is 0 when
    the text holds no digit, and when the first run of digits, white space,
    commas and dots holds more than one comma or dot, as "1.234,50" does. *)
Theorem parsePrice_value_bounds (raw : string) :
  (0 <= Price.Value (parsePrice raw))%Q /\
  (anyByte isDigit raw = false -> Price.Value (parsePrice raw) = 0%Q) /\
  ((2 <= countByte "," (priceRegex_FindString raw) +
         countByte "." (priceRegex_FindString raw))%nat ->
   Price.Value (parsePrice raw) = 0%Q) /\
  Price.Value (parsePrice "1.234,50 €") = 0%Q.
Proof.
  rewrite parsePrice_Value.
  split; [|split; [|split; [|reflexivity]]].
  - destruct (ParseFloat _) as [v|] eqn:E; [exact (ParseFloat_nonneg _ v E)|].
    unfold Qle. simpl. lia.
  - intros H. rewrite ParseFloat_no_digit; [reflexivity|].
    apply digit_cleaned. unfold priceRegex_FindString.
    apply anyByte_takeWhile, anyByte_dropWhile, H.
  - intros H. destruct (ParseFloat _) as [v|] eqn:E; [|reflexivity].
    apply ParseFloat_dots in E. rewrite dots_cleaned in E. lia.
Qed.

Lemma takeWhile_dropWhile (P : ascii -> bool) (s : string) :
  s = takeWhile P s +:+ dropWhile P s.
Proof.
  induction s as [|c s IH]; [reflexivity|]. simpl.
  destruct (P c); [|reflexivity]. rewrite app_cons_s, <- IH. reflexivity.
Qed.

Lemma allBytes_takeWhile (P : ascii -> bool) (s : string) :
  allBytes P (takeWhile P s) = true.
Proof.
  induction s as [|c s IH]; [reflexivity|]. simpl.
  destruct (P c) eqn:E; [|reflexivity]. simpl. rewrite E, IH. reflexivity.
Qed.

Lemma allBytes_app (P : ascii -> bool) (a b : string) :
  allBytes P (a +:+ b) = allBytes P a && allBytes P b.
Proof.
  induction a as [|c a IH]; [reflexivity|].
  rewrite app_cons_s. simpl. rewrite IH, andb_assoc. reflexivity.
Qed.

Lemma allBytes_rev (P : ascii -> bool) (s : string) :
  allBytes P (String.rev s) = allBytes P s.
Proof.
  induction s as [|c s IH]; [reflexivity|].
  rewrite rev_cons_s, allBytes_app, IH. simpl.
  rewrite andb_true_r. apply andb_comm.
Qed.

Lemma takeWhile_run (P : ascii -> bool) (d : string) (c : ascii) (rest : string) :
  allBytes P d = true -> P c = false ->
  takeWhile P (d +:+ String c rest) = d /\
  dropWhile P (d +:+ String c rest) = String c rest.
Proof.
  intros Hd Hc. induction d as [|x d IH].
  - simpl. rewrite Hc. split; reflexivity.
  - simpl in Hd. apply andb_true_iff in Hd as [Hx Hd].
    rewrite app_cons_s. simpl. rewrite Hx. destruct (IH Hd) as [-> ->].
    split; reflexivity.
Qed.

Lemma itemID_reads (p d : string) (c : ascii) :
  allBytes isDigit d = true -> d <> "" ->
  (Ascii.eqb c "_" || Ascii.eqb c "/") = true ->
  itemID (p +:+ String c d) = d.
Proof.
  intros Hd Hne Hc. unfold itemID.
  assert (Hnd : isDigit c = false).
  { apply orb_true_iff in Hc as [Hc|Hc]; apply Ascii.eqb_eq in Hc; subst c; reflexivity. }
  assert (E : String.rev (p +:+ String c d) = String.rev d +:+ String c (String.rev p)).
  { rewrite rev_app_s, rev_cons_s, app_assoc_s. reflexivity. }
  rewrite E.
  destruct (takeWhile_run isDigit (String.rev d) c (String.rev p)) as [-> ->];
    [rewrite allBytes_rev; exact Hd|exact Hnd|].
  rewrite Hc, andb_true_r.
  destruct (String.eqb (String.rev d) "") eqn:Er.
  - apply String.eqb_eq in Er. apply (f_equal String.rev) in Er.
    rewrite rev_involutive_s in Er. contradiction.
  - simpl. apply rev_involutive_s.
Qed.

(** X17.  The ID read off a link: [id], when it is not empty, is the ID of
    [href] exactly when it is made of digits and [href] ends with an underscore
    or a slash followed by [id]. *)
Theorem itemID_spec (href id : string) :
  id <> "" ->
  (itemID href = id <->
   allBytes isDigit id = true /\
   exists p, href = p +:+ "_" +:+ id \/ href = p +:+ "/" +:+ id).
Proof.
  intros Hne. split.
  - intros H. unfold itemID in H.
    pose proof (takeWhile_dropWhile isDigit (String.rev href)) as Hsplit.
    pose proof (allBytes_takeWhile isDigit (String.rev href)) as Hall.
    destruct (dropWhile isDigit (String.rev href)) as [|c rest]; [congruence|].
    destruct (negb (String.eqb (takeWhile isDigit (String.rev href)) "") &&
              (Ascii.eqb c "_" || Ascii.eqb c "/")) eqn:E; [|congruence].
    apply andb_true_iff in E as [_ Ec].
    split; [rewrite <- H, allBytes_rev; exact Hall|].
    exists (String.rev rest).
    apply (f_equal String.rev) in Hsplit.
    rewrite rev_involutive_s, rev_app_s, rev_cons_s, H, app_assoc_s in Hsplit.
    apply orb_true_iff in Ec as [Ec|Ec]; apply Ascii.eqb_eq in Ec; subst c;
      [left|right]; exact Hsplit.
  - intros [Hd [p [-> | ->]]]; apply itemID_reads; auto.
Qed.

(** *** A call of [waitForRateLimit] that runs alone *)

(** X18.  A call that runs alone returns: it sleeps until [minRequestInterval]
    after the last request, not at all when that time has passed, and records
    the time at which it wakes. *)
Theorem waitForRateLimit_returns (st : limiter) :
  callA st = Entered ->
  forallb notStepB (aloneA (waitOf st)) = true /\
  run (aloneA (waitOf st)) st =
    Some {| clock := clock st + waitOf st;
            lastRequestTime := clock st + waitOf st;
            callA := Returned (clock st + waitOf st);
            callB := callB st |}.
Proof.
  intros HA. unfold aloneA, waitOf.
  destruct (0 <? Z.max 0 (lastRequestTime st + minRequestInterval - clock st)) eqn:Ew.
  - apply Z.ltb_lt in Ew. split; [reflexivity|].
    assert (Hlt : (clock st - lastRequestTime st <? minRequestInterval) = true)
      by (apply Z.ltb_lt; lia).
    assert (Hmax : Z.max 0 (lastRequestTime st + minRequestInterval - clock st) =
                   lastRequestTime st + minRequestInterval - clock st) by lia.
    rewrite Hmax.
    assert (Hpos : (0 <=? lastRequestTime st + minRequestInterval - clock st) = true)
      by (apply Z.leb_le; lia).
    cbn [run step]. rewrite HA. cbn [stepCall callA callB clock lastRequestTime].
    rewrite Hlt. cbn [stepCall callA callB clock lastRequestTime].
    rewrite Hpos. cbn [stepCall callA callB clock lastRequestTime].
    assert (Hwake : (clock st + (minRequestInterval - (clock st - lastRequestTime st)) <=?
                     clock st + (lastRequestTime st + minRequestInterval - clock st)) = true)
      by (apply Z.leb_le; lia).
    rewrite Hwake. reflexivity.
  - apply Z.ltb_ge in Ew. split; [reflexivity|].
    assert (Hge : (clock st - lastRequestTime st <? minRequestInterval) = false)
      by (apply Z.ltb_ge; lia).
    assert (Hmax : Z.max 0 (lastRequestTime st + minRequestInterval - clock st) = 0) by lia.
    rewrite Hmax, Z.add_0_r.
    cbn [run step]. rewrite HA. cbn [stepCall callA callB clock lastRequestTime].
    rewrite Hge. reflexivity.
Qed.

(** *** More on [cleanText] and on the white space around a date *)

Lemma find_ext_on {A : Type} (f g : A -> bool) (l : list A) :
  (forall x, In x l -> f x = g x) -> find f l = find g l.
Proof.
  induction l as [|x l IH]; intros H; [reflexivity|].
  simpl. rewrite <- (H x (or_introl eq_refl)).
  destruct (f x); [reflexivity|]. apply IH. intros y Hy. apply H. right. exact Hy.
Qed.

Lemma high_not_ascii (b c : ascii) :
  isASCII b = false -> isASCII c = true -> Ascii.eqb b c = false.
Proof.
  intros Hb Hc. destruct (Ascii.eqb b c) eqn:E; [|reflexivity].
  apply Ascii.eqb_eq in E. congruence.
Qed.

(** Newlines replaced by spaces: a prefix made of non-ASCII bytes is there
    after the replacement exactly when it was there before. *)
Lemma HasPrefix_ReplaceAll_high (p s : string) :
  allBytes (fun c => negb (isASCII c)) p = true ->
  HasPrefix (ReplaceAll s "010" " ") p = HasPrefix s p.
Proof.
  revert s. induction p as [|b p IH]; intros s Hp.
  - destruct (ReplaceAll s "010" " "), s; reflexivity.
  - simpl in Hp. apply andb_true_iff in Hp as [Hb Hp]. apply negb_true_iff in Hb.
    destruct s as [|d s]; [reflexivity|].
    rewrite ReplaceAll_cons. destruct (Ascii.eqb d "010") eqn:Ed.
    + apply Ascii.eqb_eq in Ed. subst d. rewrite app_cons_s, app_nil_l_s. simpl.
      rewrite (high_not_ascii b " " Hb eq_refl), (high_not_ascii b "010" Hb eq_refl).
      reflexivity.
    + simpl. rewrite (IH s Hp). reflexivity.
Qed.

Lemma spaceWidth_ReplaceAll (c : ascii) (s : string) :
  Ascii.eqb c "010" = false ->
  spaceWidth (String c (ReplaceAll s "010" " ")) = spaceWidth (String c s).
Proof.
  intros Hc. unfold spaceWidth, matchWidth.
  rewrite (find_ext_on (HasPrefix (String c (ReplaceAll s "010" " ")))
             (HasPrefix (String c s)) spaceEncodings); [reflexivity|].
  intros p Hp. pose proof (spaceEncodings_tailHigh p Hp) as Ht.
  destruct p as [|a p]; [discriminate|]. simpl in Ht. simpl.
  rewrite (HasPrefix_ReplaceAll_high p s Ht). reflexivity.
Qed.

Lemma spaceWidth_newline (rest : string) : spaceWidth (String "010" rest) = 1%nat.
Proof. reflexivity. Qed.

Lemma fieldsGo_ReplaceAll (s : string) :
  forall skip cur,
  fieldsGo skip cur (ReplaceAll s "010" " ") = fieldsGo skip cur s.
Proof.
  induction s as [|c s IH]; intros skip cur; [reflexivity|].
  rewrite ReplaceAll_cons. destruct (Ascii.eqb c "010") eqn:Ec.
  - apply Ascii.eqb_eq in Ec. subst c. rewrite app_cons_s, app_nil_l_s.
    destruct skip as [|k]; [|simpl; apply IH].
    rewrite !fieldsGo_cons0, spaceWidth_space, spaceWidth_newline, IH. reflexivity.
  - destruct skip as [|k]; [|simpl; apply IH].
    rewrite !fieldsGo_cons0, (spaceWidth_ReplaceAll c s Ec).
    destruct (spaceWidth (String c s)); rewrite IH; reflexivity.
Qed.

Lemma Join_nil_inv (fs : list string) :
  Forall (fun f => isField f = true) fs -> Join fs " " = "" -> fs = [].
Proof.
  intros Hf H. destruct fs as [|f fs]; [reflexivity|].
  inversion Hf as [|? ? Hfield _]; subst.
  apply isField_inv in Hfield as [Hne _].
  destruct fs as [|g fs]; simpl in H; [contradiction|].
  destruct f; [contradiction|discriminate].
Qed.

(** X19.  [cleanText] returns the fields of the text, as [strings.Fields] splits
    it at white space of any kind, joined by single spaces: replacing the
    newlines first and trimming at the end change nothing. The result is empty
    exactly when the text has no field. *)
Theorem cleanText_fields (x : string) :
  cleanText x = Join (Fields x) " " /\
  (cleanText x = "" <-> Fields x = []).
Proof.
  assert (E : cleanText x = Join (Fields x) " ").
  { rewrite cleanText_Join. unfold Fields. rewrite fieldsGo_ReplaceAll. reflexivity. }
  split; [exact E|]. rewrite E. split.
  - apply Join_nil_inv, Fields_fields.
  - intros ->. reflexivity.
Qed.

Lemma matchWidth_0_elim (pats : list string) (s p : string) :
  Forall (fun q => q <> "") pats ->
  matchWidth pats s = 0%nat -> In p pats -> HasPrefix s p = false.
Proof.
  intros Hne H Hp. unfold matchWidth in H.
  destruct (find (HasPrefix s) pats) as [q|] eqn:E.
  - apply find_some in E as [Hq _]. rewrite List.Forall_forall in Hne.
    specialize (Hne q Hq). destruct q; [contradiction|discriminate].
  - exact (find_none _ _ E p Hp).
Qed.

Lemma matchWidth_nil (pats : list string) :
  Forall (fun q => q <> "") pats -> matchWidth pats "" = 0%nat.
Proof.
  intros Hne. unfold matchWidth.
  destruct (find (HasPrefix "") pats) as [q|] eqn:E; [|reflexivity].
  apply find_some in E as [Hq Hp]. rewrite List.Forall_forall in Hne.
  specialize (Hne q Hq). destruct q; [contradiction|discriminate].
Qed.

Lemma trimGo_stops (pats : list string) (s : string) :
  Forall (fun q => q <> "") pats ->
  forall skip, matchWidth pats (trimGo pats skip s) = 0%nat.
Proof.
  intros Hne. induction s as [|c s IH]; intros skip; [apply matchWidth_nil, Hne|].
  simpl. destruct skip as [|k]; [|apply IH].
  destruct (matchWidth pats (String c s)) eqn:E; [exact E|apply IH].
Qed.

Lemma trimGo_suffix (pats : list string) (s : string) :
  forall skip, exists a, s = a +:+ trimGo pats skip s.
Proof.
  induction s as [|c s IH]; intros skip; [exists ""; reflexivity|].
  simpl. destruct skip as [|k].
  - destruct (matchWidth pats (String c s)) as [|w]; [exists ""; reflexivity|].
    destruct (IH w) as [a Ha]. exists (String c a). rewrite app_cons_s, <- Ha. reflexivity.
  - destruct (IH k) as [a Ha]. exists (String c a). rewrite app_cons_s, <- Ha. reflexivity.
Qed.

Lemma spaceEncodings_nonempty : Forall (fun q => q <> "") spaceEncodings.
Proof. repeat constructor; discriminate. Qed.

Lemma spaceEncodingsRev_nonempty : Forall (fun q => q <> "") spaceEncodingsRev.
Proof. repeat constructor; discriminate. Qed.

Lemma TrimSpace_trimmed (s : string) :
  spaceWidth (TrimSpace s) = 0%nat /\
  forall p, In p spaceEncodings -> HasSuffix (TrimSpace s) p = false.
Proof.
  unfold TrimSpace, TrimRightSpace.
  set (l := TrimLeftSpace s).
  assert (Hl : spaceWidth l = 0%nat)
    by (apply (trimGo_stops spaceEncodings s spaceEncodings_nonempty)).
  set (u := trimGo spaceEncodingsRev 0 (String.rev l)).
  assert (Hu : matchWidth spaceEncodingsRev u = 0%nat)
    by (apply (trimGo_stops spaceEncodingsRev _ spaceEncodingsRev_nonempty)).
  split.
  - destruct (trimGo_suffix spaceEncodingsRev (String.rev l) 0) as [a Ha]. fold u in Ha.
    apply (f_equal String.rev) in Ha. rewrite rev_involutive_s, rev_app_s in Ha.
    rewrite Ha in Hl. exact (spaceWidth_mono _ _ Hl).
  - intros p Hp. unfold HasSuffix. rewrite rev_involutive_s.
    apply (matchWidth_0_elim spaceEncodingsRev u _ spaceEncodingsRev_nonempty Hu).
    change spaceEncodingsRev with (map String.rev spaceEncodings).
    apply in_map, Hp.
Qed.

Lemma TrimSpace_idempotent (s : string) : TrimSpace (TrimSpace s) = TrimSpace s.
Proof. destruct (TrimSpace_trimmed s) as [H1 H2]. apply TrimSpace_id; assumption. Qed.

(** X20.  White space around the text of a date does not change the date that
    [parseDate] reads. *)
Theorem parseDate_trimmed {L : GoLib} (now : Time.t) (dateStr : string) :
  parseDate now (TrimSpace dateStr) = parseDate now dateStr.
Proof. unfold parseDate. rewrite TrimSpace_idempotent. reflexivity. Qed.

(** *** The fields that [parseListing] fills *)

Lemma existsb_none {A : Type} (f : A -> bool) (l : list A) :
  (forall x, In x l -> f x = false) -> existsb f l = false.
Proof.
  induction l as [|x l IH]; intros H; [reflexivity|].
  simpl. rewrite (H x (or_introl eq_refl)). apply IH.
  intros y Hy. apply H. right. exact Hy.
Qed.

Lemma TrimSpace_is_trimmed (s : string) : trimmed (TrimSpace s).
Proof.
  destruct (TrimSpace_trimmed s) as [H1 H2]. split.
  - apply existsb_none. intros p Hp. exact (spaceWidth_0_elim _ p H1 Hp).
  - apply existsb_none. exact H2.
Qed.

Lemma orElse_trimmed (a b : string) : trimmed a -> trimmed b -> trimmed (orElse a b).
Proof. intros Ha Hb. unfold orElse. destruct (String.eqb a ""); assumption. Qed.

Section CardProperties.
Context {L : GoLib}.

Lemma normalizeURL_idempotent (href : string) :
  normalizeURL (normalizeURL href) = normalizeURL href.
Proof.
  destruct (normalizeURL_fixed href) as [E|E].
  - rewrite E. exact E.
  - apply normalizeURL_http, E.
Qed.

(** X21.  The title and the location that [parseListing] reads off a card have
    no white space at either end, and its URL is in normal form: [normalizeURL]
    leaves it as it is. *)
Theorem parseListing_wellformed (item : Card) :
  trimmed (Listing.Title (parseListing item)) /\
  trimmed (Listing.Location (parseListing item)) /\
  normalizeURL (Listing.URL (parseListing item)) = Listing.URL (parseListing item).
Proof.
  unfold parseListing. cbv zeta. simpl.
  split; [apply orElse_trimmed; apply TrimSpace_is_trimmed|].
  split; [apply orElse_trimmed; apply TrimSpace_is_trimmed|].
  apply normalizeURL_idempotent.
Qed.

End CardProperties.

(** *** The attributes of a detail page, and a catalog page off line *)

Lemma countByte_app (c : ascii) (a b : string) :
  countByte c (a +:+ b) = (countByte c a + countByte c b)%nat.
Proof.
  induction a as [|d a IH]; [reflexivity|].
  rewrite app_cons_s. simpl. rewrite IH. lia.
Qed.

Lemma countByte_rev (c : ascii) (s : string) :
  countByte c (String.rev s) = countByte c s.
Proof.
  induction s as [|d s IH]; [reflexivity|].
  rewrite rev_cons_s, countByte_app, IH. simpl. lia.
Qed.

Lemma countByte_trimGo (c : ascii) (pats : list string) (s : string) (skip : nat) :
  (countByte c (trimGo pats skip s) <= countByte c s)%nat.
Proof.
  destruct (trimGo_suffix pats s skip) as [a Ha].
  rewrite Ha at 2. rewrite countByte_app. lia.
Qed.

Lemma countByte_TrimSpace (c : ascii) (s : string) :
  (countByte c (TrimSpace s) <= countByte c s)%nat.
Proof.
  unfold TrimSpace, TrimRightSpace, TrimLeftSpace.
  rewrite countByte_rev.
  pose proof (countByte_trimGo c spaceEncodingsRev
                (String.rev (trimGo spaceEncodings 0 s)) 0) as H1.
  rewrite countByte_rev in H1.
  pose proof (countByte_trimGo c spaceEncodings s 0) as H2. lia.
Qed.

Lemma countByte_takeWhile (c : ascii) (s : string) :
  countByte c (takeWhile (notByte c) s) = 0%nat.
Proof.
  induction s as [|d s IH]; [reflexivity|]. simpl.
  unfold notByte at 1. destruct (Ascii.eqb d c) eqn:E; [reflexivity|].
  simpl. rewrite E, IH. reflexivity.
Qed.

Lemma countByte_tail (c : ascii) (s : string) :
  countByte c s = 1%nat ->
  countByte c (tailString (dropWhile (notByte c) s)) = 0%nat.
Proof.
  induction s as [|d s IH]; [discriminate|]. simpl.
  unfold notByte at 1. destruct (Ascii.eqb d c) eqn:E; simpl.
  - intros H. lia.
  - exact IH.
Qed.

Lemma addParam_clean (attributes : gmap string string) (raw : string) :
  map_Forall cleanEntry attributes -> map_Forall cleanEntry (addParam attributes raw).
Proof.
  intros H. unfold addParam.
  destruct (negb (String.eqb (TrimSpace raw) "")); [|exact H].
  destruct (Nat.eqb (countByte ":" (TrimSpace raw)) 1) eqn:E; [|exact H].
  apply Nat.eqb_eq in E. apply map_Forall_insert_2; [|exact H].
  split; [apply TrimSpace_is_trimmed|]. split; [apply TrimSpace_is_trimmed|].
  split.
  - pose proof (countByte_TrimSpace ":" (takeWhile (notByte ":") (TrimSpace raw))) as H1.
    rewrite countByte_takeWhile in H1. lia.
  - pose proof (countByte_TrimSpace ":"
                  (tailString (dropWhile (notByte ":") (TrimSpace raw)))) as H1.
    rewrite (countByte_tail ":" _ E) in H1. lia.
Qed.

Lemma params_clean (texts : list string) :
  forall attributes, map_Forall cleanEntry attributes ->
  map_Forall cleanEntry (fold_left addParam texts attributes).
Proof.
  induction texts as [|t texts IH]; intros m Hm; [exact Hm|].
  simpl. apply IH, addParam_clean, Hm.
Qed.

Lemma addImage_attributes (l : Listing.t) (s : Img) :
  Listing.Attributes (addImage l s) = Listing.Attributes l.
Proof.
  unfold addImage.
  destruct (negb (String.eqb (img_src s) "")); [reflexivity|].
  destruct (negb (String.eqb (img_srcset s) "")); [reflexivity|].
  destruct (negb (String.eqb (img_data_src s) "")); reflexivity.
Qed.

Lemma fold_addImage_attributes (imgs : list Img) :
  forall l, Listing.Attributes (fold_left addImage imgs l) = Listing.Attributes l.
Proof.
  induction imgs as [|i imgs IH]; intros l; [reflexivity|].
  simpl. rewrite IH. apply addImage_attributes.
Qed.

Section AttributesProperties.
Context {L : GoLib}.
Variable now : Time.t.

(** X22.  The body of a detail page leaves the attributes of the listing as they
    are, or replaces them by attributes whose keys and values have no white
    space at either end and hold no colon. *)
Theorem onDetailBody_attributes (listing : Listing.t) (e : DetailBody) :
  Listing.Attributes (onDetailBody now listing e) = Listing.Attributes listing \/
  map_Forall cleanEntry (Listing.Attributes (onDetailBody now listing e)).
Proof.
  unfold onDetailBody.
  set (l1 := Listing.withDescription _ listing).
  set (l2 := fold_left addImage _ l1).
  assert (A2 : Listing.Attributes l2 = Listing.Attributes listing)
    by (subst l2; rewrite fold_addImage_attributes; reflexivity).
  set (l3 := Listing.withLocation _ l2).
  set (attributes := fold_left addParam (paramTexts e) ∅).
  assert (Hc : map_Forall cleanEntry attributes)
    by (apply params_clean, map_Forall_empty).
  destruct (negb (String.eqb (dateText e) ""));
    destruct (Nat.ltb 0 (size attributes));
    destruct (Qeq_bool (Price.Value (Listing.Price l3)) 0);
    destruct (negb (String.eqb (itemPriceText e) ""));
    simpl; first [right; exact Hc | left; exact A2].
Qed.

End AttributesProperties.

Section OfflineCatalog.
Context {L : GoLib}.
Variable now : Time.t.
Variable visitDetail : string -> Visit DetailPage.
Variable visitCatalog : string -> Visit CatalogPage.
Variable getListings : string -> Z -> option (list Listing.t * option error).

Lemma reached_unlimited {A : Type} (limit : Z) (xs : list A) :
  limit <= 0 -> reached limit xs = false.
Proof. intros H. unfold reached. apply Z.ltb_ge in H. rewrite H. reflexivity. Qed.

Lemma GetListingDetails_offline (listing : Listing.t) :
  (forall url, exists err, visitDetail url = VisitErr err) ->
  exists err, GetListingDetails now visitDetail listing = (listing, Some err).
Proof.
  intros Hoff. unfold GetListingDetails.
  destruct (String.eqb (Listing.URL listing) ""); [eexists; reflexivity|].
  destruct (Hoff (Listing.URL listing)) as [err ->]. eexists. reflexivity.
Qed.

Lemma processURLs_offline (limit : Z) (catalogURL : string) (urls : list string) :
  limit <= 0 ->
  (forall url, exists err, visitDetail url = VisitErr err) ->
  forallb (fun u => Contains u "/item/") urls = true ->
  forall ls,
  processURLs now visitDetail getListings limit catalogURL urls ls =
  Some (ls ++ map (itemListing catalogURL) (List.filter hasItemID urls)).
Proof.
  intros Hl Hoff. induction urls as [|url urls IH]; intros Hitems ls.
  - simpl. rewrite app_nil_r. reflexivity.
  - simpl in Hitems. apply andb_true_iff in Hitems as [Hu Hitems].
    simpl. rewrite (reached_unlimited limit ls Hl), Hu.
    destruct (GetListingDetails_offline (itemListing catalogURL url) Hoff) as [err ->].
    rewrite (IH Hitems). unfold hasItemID at 2.
    destruct (negb (String.eqb (itemID url) "")); [|reflexivity].
    simpl. rewrite <- app_assoc. reflexivity.
Qed.

(** X23.  Without a limit, on a catalog page whose collected URLs are all item
    pages, and with every detail page out of reach, [handleCatalogPage] returns
    a bare listing (its URL, the catalog URL and its ID) for each URL that ends
    in an ID, in the order of the page, and drops the others. *)
Theorem handleCatalogPage_offline (catalogURL : string) (limit : Z) (page : CatalogPage) :
  limit <= 0 ->
  visitCatalog catalogURL = VisitOK page ->
  (forall url, exists err, visitDetail url = VisitErr err) ->
  forallb (fun u => Contains u "/item/") (collectItemURLs limit catalogURL page) = true ->
  handleCatalogPage now visitDetail visitCatalog getListings catalogURL limit =
  Some (map (itemListing catalogURL)
          (List.filter hasItemID (collectItemURLs limit catalogURL page)), None).
Proof.
  intros Hl Hv Hoff Hitems. unfold handleCatalogPage.
  rewrite Hv, (processURLs_offline limit catalogURL _ Hl Hoff Hitems []). reflexivity.
Qed.

End OfflineCatalog.

(** *** The further statements at the example values *)

(** X4 at the example catalog page and limit 1: of the two item pages, one
    listing comes back, the first. *)
Lemma handleCatalogPage_limit_witness :
  0 < 1 /\
  handleCatalogPage (L := exampleLib) exampleNow exampleVisit visitExampleCatalog
    noNested exampleCatalogURL 1 = Some exampleCatalogResult /\
  map Listing.ID (fst exampleCatalogResult) = ["123"] /\
  Z.of_nat (length (fst exampleCatalogResult)) <= 1.
Proof.
  split; [lia|]. split; [vm_compute; reflexivity|]. split; [vm_compute; reflexivity|].
  apply (handleCatalogPage_limit (L := exampleLib) exampleNow exampleVisit
           visitExampleCatalog noNested exampleCatalogURL 1 exampleCatalogResult);
    [lia|vm_compute; reflexivity].
Defined.

(** X5 at the example catalog page: no error, and the listing comes from
    the first item URL. *)
Lemma handleCatalogPage_provenance_witness :
  visitExampleCatalog exampleCatalogURL = VisitOK exampleCatalogPage /\
  snd exampleCatalogResult = None /\
  Forall (fromCatalog noNested exampleCatalogURL
            (collectItemURLs (L := exampleLib) 1 exampleCatalogURL exampleCatalogPage))
    (fst exampleCatalogResult).
Proof.
  split; [reflexivity|].
  apply (handleCatalogPage_provenance (L := exampleLib) exampleNow exampleVisit
           visitExampleCatalog noNested exampleCatalogURL 1 exampleCatalogPage
           exampleCatalogResult); [reflexivity|vm_compute; reflexivity].
Defined.

(** X7 at two catalog pages that link to each other: no answer within ten
    nested calls. *)
Lemma GetListingsWithin_endless_witness :
  catalogLink catalogA = true /\ catalogLink catalogB = true /\
  visitLoop catalogA = VisitOK (linksTo catalogB) /\
  visitLoop catalogB = VisitOK (linksTo catalogA) /\
  GetListingsWithin (L := exampleLib) exampleNow offline noListPage visitLoop
    10 catalogA 5 = None.
Proof.
  split; [reflexivity|]. split; [reflexivity|].
  split; [reflexivity|]. split; [reflexivity|].
  apply (GetListingsWithin_endless (L := exampleLib) exampleNow offline noListPage
           visitLoop catalogA catalogB); try reflexivity.
  discriminate.
Defined.

(** X9 at the page of five cards with limit 2. *)
Lemma GetListings_titled_witness :
  Contains "https://www.avito.ru/all/velosipedy" "/catalog/" = false /\
  Forall (titledIn "https://www.avito.ru/all/velosipedy")
    (fst (GetListings (L := exampleLib) exampleNow offline
            (fun _ => VisitOK fiveCardsPage) (fun _ _ => ([], None))
            "https://www.avito.ru/all/velosipedy" 2)).
Proof.
  split; [reflexivity|].
  apply (GetListings_titled (L := exampleLib)). reflexivity.
Defined.

(** X11 at the example summary without its title: it gets the [h1] of the
    example page. *)
Lemma GetListingDetails_title_witness :
  Listing.Title untitledListing = "" /\
  exampleVisit (Listing.URL untitledListing) = VisitOK exampleDetailPage /\
  Listing.Title (fst (GetListingDetails (L := exampleLib) exampleNow exampleVisit
                        untitledListing)) = "Велосипед горный".
Proof.
  split; [reflexivity|]. split; [reflexivity|].
  rewrite (GetListingDetails_title (L := exampleLib) exampleNow exampleVisit
             untitledListing exampleDetailPage);
    [reflexivity|discriminate|reflexivity|reflexivity].
Defined.

(** X15 at the example document: one listing, made of the link to the item
    page. *)
Lemma ParseItemsFromHTML_links_witness :
  parseExampleDoc "" = VisitOK exampleDoc /\
  map Listing.ID (fst (ParseItemsFromHTML (L := exampleLib) parseExampleDoc "")) = ["123"] /\
  Forall (linkedItem (L := exampleLib))
    (fst (ParseItemsFromHTML (L := exampleLib) parseExampleDoc "")) /\
  (length (fst (ParseItemsFromHTML (L := exampleLib) parseExampleDoc ""))
   <= length (docLinks exampleDoc))%nat.
Proof.
  split; [reflexivity|]. split; [vm_compute; reflexivity|].
  apply (ParseItemsFromHTML_links (L := exampleLib) parseExampleDoc "" exampleDoc);
    [reflexivity|]. intros selector _. reflexivity.
Defined.

(** X17 at the link of the example summary. *)
Lemma itemID_spec_witness :
  allBytes isDigit "123" = true /\
  itemID "https://www.avito.ru/item/velosiped_123" = "123".
Proof.
  split; [reflexivity|].
  apply (itemID_spec "https://www.avito.ru/item/velosiped_123" "123"); [discriminate|].
  split; [reflexivity|]. exists "https://www.avito.ru/item/velosiped". left. reflexivity.
Defined.

(** X18 one second after a request: the call sleeps two seconds and
    records the time 3 s. *)
Lemma waitForRateLimit_returns_witness :
  callA oneSecondLater = Entered /\
  run [StepA; StepA; Tick 2000000000; StepA; StepA] oneSecondLater =
    Some {| clock := 3000000000; lastRequestTime := 3000000000;
            callA := Returned 3000000000; callB := Entered |}.
Proof.
  split; [reflexivity|].
  exact (proj2 (waitForRateLimit_returns oneSecondLater eq_refl)).
Defined.

(** X23 at the example catalog page, off line and without a limit: the two
    item URLs come back as bare listings. *)
Lemma handleCatalogPage_offline_witness :
  0 <= 0 /\
  visitExampleCatalog exampleCatalogURL = VisitOK exampleCatalogPage /\
  handleCatalogPage (L := exampleLib) exampleNow offline visitExampleCatalog noNested
    exampleCatalogURL 0 =
  Some (map (itemListing exampleCatalogURL)
          ["https://www.avito.ru/item/velosiped_123";
           "https://www.avito.ru/item/samokat_77"], None).
Proof.
  split; [lia|]. split; [reflexivity|].
  rewrite (handleCatalogPage_offline (L := exampleLib) exampleNow offline
             visitExampleCatalog noNested exampleCatalogURL 0 exampleCatalogPage);
    [reflexivity|lia|reflexivity|intros url; eexists; reflexivity|reflexivity].
Defined.
